(** * OMEGA sync tool: a shallow embedding of [sync.py] and
      [run_diagnostics.py], and the properties of its batching, retry,
      normalisation and probing code. *)

From Stdlib Require Import ZArith String Ascii List Lia Bool.
From Stdlib Require Import Floats.SpecFloat.
From stdpp Require Import base list strings gmap.

Set Warnings "-register-all".

Local Open Scope Z_scope.
Local Open Scope list_scope.

(** * Part I: the embedding *)

(** ** Python exceptions that the modelled code can meet.

    [KeyboardInterrupt] and [SystemExit] derive from [BaseException],
    everything else here from [Exception]; the distinction decides which
    [except] clause catches what.  The three timeout and connection classes
    are those of [requests.exceptions]: [ConnectTimeout] derives from both
    [ConnectionError] and [Timeout]. *)

Inductive exn_class : Type :=
| ValueError
| TypeError
| KeyError
| AttributeError
| JSONDecodeError
| FileNotFoundError
| PyodbcError
| Timeout
| ReadTimeout
| ConnectTimeout
| ConnectionError
| RequestException
| RuntimeError
| SystemExit (code : Z)
| KeyboardInterrupt.

Record exn : Type := Exn { exn_cls : exn_class; exn_msg : string }.

Definition isinstance_Exception (e : exn) : bool :=
  match exn_cls e with
  | KeyboardInterrupt | SystemExit _ => false
  | _ => true
  end.

Definition isinstance_KeyboardInterrupt (e : exn) : bool :=
  match exn_cls e with
  | KeyboardInterrupt => true
  | _ => false
  end.

Definition isinstance_Timeout (e : exn) : bool :=
  match exn_cls e with
  | Timeout | ReadTimeout | ConnectTimeout => true
  | _ => false
  end.

Definition isinstance_ConnectionError (e : exn) : bool :=
  match exn_cls e with
  | ConnectionError | ConnectTimeout => true
  | _ => false
  end.

Definition isinstance_PyodbcError (e : exn) : bool :=
  match exn_cls e with
  | PyodbcError => true
  | _ => false
  end.

(** ** Built-ins used by [chunk_data]: [range] and list slicing. *)

Module PyBuiltins.

(** [i = start; while i < stop: yield i; i += step].  The fuel bounds the
    number of iterations; [py_range] supplies enough of it. *)
Fixpoint range_up (fuel : nat) (i stop step : Z) : list Z :=
  match fuel with
  | O => []
  | S fuel' =>
      if i <? stop then i :: range_up fuel' (i + step) stop step else []
  end.

Fixpoint range_down (fuel : nat) (i stop step : Z) : list Z :=
  match fuel with
  | O => []
  | S fuel' =>
      if stop <? i then i :: range_down fuel' (i + step) stop step else []
  end.

(** [range(start, stop, step)]: a zero step raises [ValueError]. *)
Definition py_range (start stop step : Z) : exn + list Z :=
  if step =? 0 then inl (Exn ValueError "range() arg 3 must not be zero")
  else if 0 <? step
       then inr (range_up (Z.to_nat (stop - start)) start stop step)
       else inr (range_down (Z.to_nat (start - stop)) start stop step).

(** Slice bounds: a negative index counts from the end, and both ends
    are clamped to [0 .. len]. *)
Definition clamp_index (len i : Z) : Z :=
  if i <? 0 then Z.max (i + len) 0 else Z.min i len.

(** [l[a:b]] *)
Definition py_slice {A : Type} (l : list A) (a b : Z) : list A :=
  let len := Z.of_nat (length l) in
  let a' := clamp_index len a in
  let b' := clamp_index len b in
  take (Z.to_nat (b' - a')) (drop (Z.to_nat a') l).

(** [s[:n]] on a string. *)
Fixpoint str_take (n : nat) (s : string) : string :=
  match n, s with
  | S n', String c s' => String c (str_take n' s')
  | _, _ => EmptyString
  end.

(** [needle in haystack] on strings. *)
Fixpoint str_contains (needle haystack : string) : bool :=
  String.prefix needle haystack
  || match haystack with
     | EmptyString => false
     | String _ rest => str_contains needle rest
     end.

End PyBuiltins.

Import PyBuiltins.

(** ** [chunk_data] (sync.py, nested in [sync_data_to_api]).

    The generator is consumed at once by [list(...)], so the model returns
    the list of the slices it yields. *)

Definition default_chunk_size : Z := 1000.

Definition chunk_data {A : Type} (data_list : list A) (chunk_size : Z)
  : exn + list (list A) :=
  match py_range 0 (Z.of_nat (length data_list)) chunk_size with
  | inl e => inl e
  | inr starts =>
      inr (map (fun i => py_slice data_list i (i + chunk_size)) starts)
  end.

(** ceil(n / c) on integers, for [c > 0]. *)
Definition ceil_div (n c : Z) : Z := (n + c - 1) / c.

(** The [n] windows of width [c] at the multiples of [c]: the shape that
    the chunks are shown to have. *)
Definition windows {A : Type} (c n : nat) (l : list A) : list (list A) :=
  map (fun k => take c (drop (k * c) l)) (seq 0 n).

(** ** Values held in a row, and values parsed from a JSON body. *)

(** [decimal.Decimal]: a finite number (-1)^sign * coeff * 10^exp, which is
    what a NUMERIC or DECIMAL column yields, or one of the special values of
    the class: an infinity, a quiet NaN or a signalling NaN. *)
Inductive decimal : Type :=
| Decimal (dec_sign : bool) (dec_coeff : N) (dec_exp : Z)
| DecimalInfinity (dec_sign : bool)
| DecimalNaN (dec_sign : bool) (signalling : bool).

(** [d.is_snan()] *)
Definition is_snan (d : decimal) : bool :=
  match d with
  | DecimalNaN _ signalling => signalling
  | _ => false
  end.

(** [datetime.date]; the class keeps 1 <= year <= 9999, 1 <= month <= 12
    and 1 <= day <= 31. *)
Record date : Type := Date { year : Z; month : Z; day : Z }.

(** A naive [datetime.datetime] (no tzinfo), as the ODBC driver returns. *)
Record datetime : Type :=
  DateTime { dt_date : date; hour : Z; minute : Z; second : Z;
             microsecond : Z }.

Inductive pyvalue : Type :=
| PNone
| PBool (b : bool)
| PInt (z : Z)
| PFloat (f : spec_float)
| PStr (s : string)
| PList (items : list pyvalue)
| PDict (fields : list (string * pyvalue))
| PDecimal (d : decimal)
| PDate (d : date)
| PDateTime (t : datetime)
| PObject (cls : string).

(** [bool(v)] *)
Definition py_truthy (v : pyvalue) : bool :=
  match v with
  | PNone => false
  | PBool b => b
  | PInt z => negb (z =? 0)
  | PFloat (S754_zero _) => false
  | PFloat _ => true
  | PStr s => negb (String.eqb s "")
  | PList items => match items with [] => false | _ => true end
  | PDict fields => match fields with [] => false | _ => true end
  | PDecimal (Decimal _ coeff _) => negb (N.eqb coeff 0)
  | PDecimal _ => true
  | PDate _ | PDateTime _ | PObject _ => true
  end.

Fixpoint assoc_lookup {V : Type} (k : string) (kv : list (string * V))
  : option V :=
  match kv with
  | [] => None
  | (k', v) :: rest => if String.eqb k k' then Some v else assoc_lookup k rest
  end.

(** [d.get(k, default)]: only a dict has the method. *)
Definition py_get (d : pyvalue) (k : string) (default : pyvalue)
  : exn + pyvalue :=
  match d with
  | PDict fields =>
      inr (match assoc_lookup k fields with Some v => v | None => default end)
  | _ => inl (Exn AttributeError "object has no attribute 'get'")
  end.

(** [k in d], for [d] a dict. *)
Definition py_dict_contains (d : pyvalue) (k : string) : bool :=
  match d with
  | PDict fields =>
      match assoc_lookup k fields with Some _ => true | None => false end
  | _ => false
  end.

(** [v[:2]]: lists and strings can be sliced, the other JSON values raise. *)
Definition py_first_two (v : pyvalue) : exn + pyvalue :=
  match v with
  | PList items => inr (PList (py_slice items 0 2))
  | PStr s => inr (PStr (str_take 2 s))
  | _ => inl (Exn TypeError "object is not subscriptable")
  end.

(** ** The value normaliser: [DecimalEncoder] (sync.py, lines 13-21). *)

Module Normalizer.

Definition prec : Z := 53.
Definition emax : Z := 1024.

(** The fraction num/den divided by 2^ex, as a fraction again. *)
Definition scaled (num den ex : Z) : Z * Z :=
  if 0 <=? ex then (num, den * 2 ^ ex) else (num * 2 ^ (- ex), den).

(** The binade of num/den: the exponent L with 2^L <= num/den < 2^(L+1). *)
Definition binade (num den : Z) : Z :=
  let l := Z.log2 num - Z.log2 den in
  let '(a, b) := scaled num den l in
  if b <=? a then l else l - 1.

(** The integer nearest to a/b, the even one of the two at a tie. *)
Definition round_half_even (a b : Z) : Z :=
  let q := a / b in
  match 2 * (a mod b) ?= b with
  | Lt => q
  | Eq => if Z.even q then q else q + 1
  | Gt => q + 1
  end.

(** The binary64 number of sign [s] nearest to num/den > 0: the fraction is
    rounded to a multiple of 2^ex, where ex leaves 53 bits to a normal
    number and is -1074 for a subnormal one; a result of 2^1024 or more is
    an infinity. *)
Definition float_of_fraction (s : bool) (num den : Z) : spec_float :=
  let ex := Z.max (binade num den - (prec - 1)) (emin prec emax) in
  let '(a, b) := scaled num den ex in
  let n := round_half_even a b in
  if n =? 0 then S754_zero s
  else
    let '(m, e) :=
      if n =? 2 ^ prec then (2 ^ (prec - 1), ex + 1) else (n, ex) in
    if e <=? emax - prec then S754_finite s (Z.to_pos m) e
    else S754_infinity s.

(** coeff * 10^exp as a fraction of two positive integers. *)
Definition fraction_of (c : positive) (k : Z) : Z * Z :=
  if 0 <=? k then (Zpos c * 10 ^ k, 1) else (Zpos c, 10 ^ (- k)).

(** [float(d)] for a decimal that is not a signalling NaN: the binary64
    number nearest to coeff * 10^exp, ties to even; a zero keeps its sign;
    an infinity and a NaN go to the float of the same name. *)
Definition float_of_decimal (d : decimal) : spec_float :=
  match d with
  | Decimal s N0 _ => S754_zero s
  | Decimal s (Npos c) k =>
      let '(num, den) := fraction_of c k in float_of_fraction s num den
  | DecimalInfinity s => S754_infinity s
  | DecimalNaN _ _ => S754_nan
  end.

(** What [float] raises on a signalling NaN. *)
Definition signalling_nan : exn :=
  Exn ValueError "cannot convert signaling NaN to float".

(** 12.5 = 25 * 2^-1, which binary64 holds exactly. *)
Definition float_12_5 : spec_float := binary_normalize prec emax 25 (-1) false.

Definition digit_char (n : Z) : ascii :=
  ascii_of_nat (48 + Z.to_nat (n mod 10)).

(** ["%0wd" % n], for 0 <= n < 10^w. *)
Fixpoint zero_padded (w : nat) (n : Z) : string :=
  match w with
  | O => EmptyString
  | S w' => (zero_padded w' (n / 10) ++ String (digit_char n) EmptyString)%string
  end.

(** [date.isoformat()] *)
Definition date_isoformat (d : date) : string :=
  (zero_padded 4 (year d) ++ "-" ++ zero_padded 2 (month d) ++ "-"
     ++ zero_padded 2 (day d))%string.

(** [datetime.isoformat()] of a naive datetime: the fraction is printed
    only when the microsecond field is not zero. *)
Definition datetime_isoformat (t : datetime) : string :=
  (date_isoformat (dt_date t) ++ "T" ++ zero_padded 2 (hour t) ++ ":"
     ++ zero_padded 2 (minute t) ++ ":" ++ zero_padded 2 (second t)
     ++ (if Z.eqb (microsecond t) 0 then ""
         else "." ++ zero_padded 6 (microsecond t)))%string.

Definition isinstance_Decimal (v : pyvalue) : bool :=
  match v with PDecimal _ => true | _ => false end.

(** [datetime] is a subclass of [date]. *)
Definition isinstance_date (v : pyvalue) : bool :=
  match v with PDate _ | PDateTime _ => true | _ => false end.

Definition isinstance_datetime (v : pyvalue) : bool :=
  match v with PDateTime _ => true | _ => false end.

(** [float(obj)]: [Decimal.__float__] refuses a signalling NaN. *)
Definition py_float (v : pyvalue) : exn + pyvalue :=
  match v with
  | PDecimal d =>
      if is_snan d then inl signalling_nan
      else inr (PFloat (float_of_decimal d))
  | _ => inl (Exn TypeError "float() argument must be a string or a number")
  end.

(** [obj.isoformat()], dispatched on the class of [obj]. *)
Definition py_isoformat (v : pyvalue) : exn + pyvalue :=
  match v with
  | PDate d => inr (PStr (date_isoformat d))
  | PDateTime t => inr (PStr (datetime_isoformat t))
  | _ => inl (Exn AttributeError "object has no attribute 'isoformat'")
  end.

(** [json.JSONEncoder.default]: always raises. *)
Definition JSONEncoder_default (v : pyvalue) : exn + pyvalue :=
  inl (Exn TypeError "Object is not JSON serializable").

(** [DecimalEncoder.default] *)
Definition default (obj : pyvalue) : exn + pyvalue :=
  if isinstance_Decimal obj then py_float obj
  else if isinstance_date obj then py_isoformat obj
  else if isinstance_datetime obj then py_isoformat obj
  else JSONEncoder_default obj.

(** The values that [json.JSONEncoder] writes by itself. *)
Definition json_scalar (v : pyvalue) : bool :=
  match v with
  | PNone | PBool _ | PInt _ | PFloat _ | PStr _ => true
  | _ => false
  end.

(** What the encoder does with one value while it serialises: scalars,
    lists and dicts are written as they are (their members normalised in
    turn) and [default] is called on anything else.  The encoder encodes
    what [default] returns again; here that is a float or a string, which
    it writes as it is. *)
Fixpoint normalize (v : pyvalue) : exn + pyvalue :=
  match v with
  | PNone | PBool _ | PInt _ | PFloat _ | PStr _ => inr v
  | PList items =>
      let fix go (l : list pyvalue) : exn + list pyvalue :=
        match l with
        | [] => inr []
        | x :: rest =>
            match normalize x with
            | inl e => inl e
            | inr x' =>
                match go rest with
                | inl e => inl e
                | inr rest' => inr (x' :: rest')
                end
            end
        end in
      match go items with
      | inl e => inl e
      | inr items' => inr (PList items')
      end
  | PDict fields =>
      let fix go (l : list (string * pyvalue))
        : exn + list (string * pyvalue) :=
        match l with
        | [] => inr []
        | (k, x) :: rest =>
            match normalize x with
            | inl e => inl e
            | inr x' =>
                match go rest with
                | inl e => inl e
                | inr rest' => inr ((k, x') :: rest')
                end
            end
        end in
      match go fields with
      | inl e => inl e
      | inr fields' => inr (PDict fields')
      end
  | PDecimal _ | PDate _ | PDateTime _ | PObject _ => default v
  end.

End Normalizer.

Import Normalizer.

(** The two member loops of [normalize], named. *)
Fixpoint normalize_items (l : list pyvalue) : exn + list pyvalue :=
  match l with
  | [] => inr []
  | x :: rest =>
      match normalize x with
      | inl e => inl e
      | inr x' =>
          match normalize_items rest with
          | inl e => inl e
          | inr rest' => inr (x' :: rest')
          end
      end
  end.

Fixpoint normalize_fields (l : list (string * pyvalue))
  : exn + list (string * pyvalue) :=
  match l with
  | [] => inr []
  | (k, x) :: rest =>
      match normalize x with
      | inl e => inl e
      | inr x' =>
          match normalize_fields rest with
          | inl e => inl e
          | inr rest' => inr ((k, x') :: rest')
          end
      end
  end.

(** ** What the conversions are to return

    [rounds_to s num den f]: the float [f] is the fraction num/den > 0 with
    sign [s], rounded to binary64 to nearest with ties to even.  With L the
    binade of the fraction, the number is rounded to the nearest multiple
    n * 2^ex of 2^ex, where ex = max (L - 52) (-1074) is the exponent of
    the numbers of the format in that binade; [n] even at a tie.  The float
    is the zero when n = 0, an infinity when n * 2^ex reaches 2^1024, and
    otherwise the number of the format whose value is n * 2^ex. *)
Definition rounds_to (s : bool) (num den : Z) (f : spec_float) : Prop :=
  exists L n : Z,
    let ex := Z.max (L - 52) (-1074) in
    (snd (scaled num den L) <= fst (scaled num den L)
       < 2 * snd (scaled num den L)) /\
    (let a := fst (scaled num den ex) in
     let b := snd (scaled num den ex) in
     2 * Z.abs (a - n * b) <= b /\
     (2 * Z.abs (a - n * b) = b -> Z.even n = true)) /\
    match f with
    | S754_zero s' => s' = s /\ n = 0
    | S754_finite s' m e =>
        s' = s /\ bounded prec emax m e = true /\
        ex <= e /\ Zpos m * 2 ^ (e - ex) = n
    | S754_infinity s' => s' = s /\ 0 <= ex /\ 2 ^ 1024 <= n * 2 ^ ex
    | S754_nan => False
    end.

(** Reading an ISO-8601 string back. *)
Definition digit_value (c : ascii) : option Z :=
  let v := Z.of_nat (nat_of_ascii c) in
  if (48 <=? v) && (v <=? 57) then Some (v - 48) else None.

(** Exactly [w] decimal digits at the head of [s]. *)
Fixpoint read_digits (w : nat) (acc : Z) (s : string) : option (Z * string) :=
  match w with
  | O => Some (acc, s)
  | S w' =>
      match s with
      | String c rest =>
          match digit_value c with
          | Some v => read_digits w' (10 * acc + v) rest
          | None => None
          end
      | EmptyString => None
      end
  end.

Definition expect (c : ascii) (s : string) : option string :=
  match s with
  | String c' rest => if Ascii.eqb c c' then Some rest else None
  | EmptyString => None
  end.

(** YYYY-MM-DD at the head of [s]. *)
Definition read_date (s : string) : option (date * string) :=
  '(y, s) ← read_digits 4 0 s;
  s ← expect "-" s;
  '(m, s) ← read_digits 2 0 s;
  s ← expect "-" s;
  '(d, s) ← read_digits 2 0 s;
  Some (Date y m d, s).

Definition parse_date (s : string) : option date :=
  '(d, rest) ← read_date s;
  if String.eqb rest "" then Some d else None.

(** YYYY-MM-DDTHH:MM:SS, followed by .ffffff for microseconds that are not
    zero. *)
Definition parse_datetime (s : string) : option datetime :=
  '(d, s) ← read_date s;
  s ← expect "T" s;
  '(h, s) ← read_digits 2 0 s;
  s ← expect ":" s;
  '(mi, s) ← read_digits 2 0 s;
  s ← expect ":" s;
  '(sec, s) ← read_digits 2 0 s;
  if String.eqb s "" then Some (DateTime d h mi sec 0)
  else
    s ← expect "." s;
    '(us, s) ← read_digits 6 0 s;
    if String.eqb s "" && negb (us =? 0) then Some (DateTime d h mi sec us)
    else None.

(** The ranges that the two classes keep their fields in. *)
Definition valid_date (d : date) : Prop :=
  1 <= year d <= 9999 /\ 1 <= month d <= 12 /\ 1 <= day d <= 31.

Definition valid_datetime (t : datetime) : Prop :=
  valid_date (dt_date t) /\ 0 <= hour t < 24 /\ 0 <= minute t < 60
  /\ 0 <= second t < 60 /\ 0 <= microsecond t < 1000000.

(** ** Effects: what the program does to the world, and what the world
    answers.

    A run is a function of the trace so far: it extends the trace with the
    events it performs and ends either with a value or with a raised
    exception.  The remote side is a function of the trace up to and
    including the request being answered. *)

Inductive http_method : Type := GET | POST | DELETE | OPTIONS.

Record response : Type :=
  Response { status_code : Z;
             (** what [response.json()] returns; [None] when it raises *)
             json_body : option pyvalue;
             text : string }.

Inductive outcome : Type :=
| Responded (r : response)
| Raised (e : exn).

Inductive event : Type :=
| ERequest (m : http_method) (url : string)
           (headers : list (string * string)) (body : option pyvalue)
           (timeout : Z)
| ESleep (seconds : Z)
| EProgress (current total : nat)
| EPrintNoData (table_index : nat) (table_name : string)
| EPrintSyncing (table_index : nat) (records : nat) (table_name : string)
| EPrintApiError (error : pyvalue)
| EPrintValidationErrors (errors : pyvalue)
| EPrintRetryStatus (attempt : Z) (status : Z)
| EPrintErrorDetails (details : pyvalue)
| EPrintResponseText (txt : string)
| EPrintRetryError (attempt : Z) (e : exn)
| EPrintFailed (table_name : string)
| EPrintSynced (table_name : string)
| EPrintSyncError (e : exn)
| EConnect (conn_str : string)
| EQuery (query : string)
| EConnClose
| EPrint (line : string)
| EInput (prompt : string)
| ELog (line : string).

Definition server : Type := list event -> outcome.

Definition is_request (ev : event) : bool :=
  match ev with ERequest _ _ _ _ _ => true | _ => false end.

Definition is_sleep (ev : event) : bool :=
  match ev with ESleep _ => true | _ => false end.

(** The number of HTTP requests in a trace. *)
Definition count_requests (tr : list event) : nat :=
  length (List.filter is_request tr).

Module Run.

Definition M (A : Type) : Type := list event -> (exn + A) * list event.

Definition ret {A} (a : A) : M A := fun tr => (inr a, tr).

Definition bind {A B} (m : M A) (f : A -> M B) : M B :=
  fun tr =>
    match m tr with
    | (inl e, tr') => (inl e, tr')
    | (inr a, tr') => f a tr'
    end.

Definition raise {A} (e : exn) : M A := fun tr => (inl e, tr).

(** A printed line, a log record or a sleep: it is recorded and it
    returns.  Exceptions come from the remote side, the database, the
    configuration and the data; an interrupt that arrives during a sleep,
    or an error of the console while it prints, is not modelled. *)
Definition emit (ev : event) : M unit := fun tr => (inr tt, tr ++ [ev]).

Definition lift {A} (r : exn + A) : M A := fun tr => (r, tr).

(** The [except] clauses of a [try], tried in order: each is the
    [isinstance] test of its class and its handler.  An exception that no
    clause catches propagates, and so does one raised by a handler. *)
Fixpoint handle {A} (clauses : list ((exn -> bool) * (exn -> M A)))
         (e : exn) : M A :=
  match clauses with
  | [] => raise e
  | (catches, handler) :: rest =>
      if catches e then handler e else handle rest e
  end.

Definition try_except {A} (m : M A)
           (clauses : list ((exn -> bool) * (exn -> M A))) : M A :=
  fun tr =>
    match m tr with
    | (inl e, tr') => handle clauses e tr'
    | (inr a, tr') => (inr a, tr')
    end.

(** One HTTP request: it is recorded, then answered by the remote side. *)
Definition request (srv : server) (m : http_method) (url : string)
           (headers : list (string * string)) (body : option pyvalue)
           (timeout : Z) : M response :=
  fun tr =>
    let tr' := tr ++ [ERequest m url headers body timeout] in
    match srv tr' with
    | Responded r => (inr r, tr')
    | Raised e => (inl e, tr')
    end.

End Run.

Import Run.

Notation "x <- m ;; k" := (bind m (fun x => k))
  (at level 100, m at next level, right associativity).
Notation "m ;;; k" := (bind m (fun _ => k))
  (at level 100, right associativity).

(** ** Configuration: the fields of [config.json] that the code reads.
    [None] stands for a missing key. *)

Record config : Type :=
  Config { cfg_api_url : option string;
           cfg_api_key : option string;
           cfg_dsn : option string;
           cfg_username : option string;
           cfg_password : option string;
           cfg_target_database : option pyvalue }.

(** [config[section][key]] *)
Definition config_key (field : option string) : M string :=
  match field with
  | Some s => ret s
  | None => raise (Exn KeyError "missing key")
  end.

(** ** The batch transfer engine: [sync_data_to_api] (sync.py). *)

Module Engine.

Definition tables_to_sync : list string :=
  ["acc_product"; "acc_invmast"; "acc_invdetails"; "acc_purchasemaster";
   "acc_purchasedetails"; "acc_production"; "acc_productiondetails"]%string.

Definition retries : list Z := [0; 1; 2].

Definition backoff_seconds : Z := 2.

Definition post_timeout : Z := 180.

Definition headers : list (string * string) :=
  [("Content-Type", "application/json")]%string.

(** [response.json()] *)
Definition response_json (r : response) : M pyvalue :=
  match json_body r with
  | Some v => ret v
  | None => raise (Exn JSONDecodeError "Expecting value")
  end.

Definition build_payload (cfg : config) (table_name : string)
           (chunk : list pyvalue) : pyvalue :=
  PDict [("database"%string,
          match cfg_target_database cfg with
          | Some v => v
          | None => PStr "OMEGA"
          end);
         ("table"%string, PStr table_name);
         ("data"%string, PList chunk)].

(** The request that one attempt sends. *)
Definition post_request (sync_endpoint : string) (body : pyvalue) : event :=
  ERequest POST sync_endpoint headers (Some body) post_timeout.

(** The table that a request is about: the [table] field of its body. *)
Definition request_table (ev : event) : option string :=
  match ev with
  | ERequest _ _ _ (Some (PDict fields)) _ =>
      match assoc_lookup "table" fields with
      | Some (PStr t) => Some t
      | _ => None
      end
  | _ => None
  end.

(** Every request among [evs] satisfies [Q]. *)
Definition requests_are (Q : event -> Prop) (evs : list event) : Prop :=
  Forall (fun ev => is_request ev = true -> Q ev) evs.

(** The statements under [try:] of one pass of the retry loop (lines
    219-248).  The result [true] is the [break] taken with
    [success = True]; [false] lets the [for] go on. *)
Definition attempt_body (srv : server) (sync_endpoint : string)
           (payload : pyvalue) (retry : Z) : M bool :=
  body <- lift (normalize payload) ;;
  response <- request srv POST sync_endpoint headers (Some body)
                post_timeout ;;
  if status_code response =? 200 then
    response_data <- response_json response ;;
    ok <- lift (py_get response_data "success" (PBool false)) ;;
    if py_truthy ok then ret true
    else
      err <- lift (py_get response_data "error" (PStr "Unknown error")) ;;
      emit (EPrintApiError err) ;;;
      if py_dict_contains response_data "validation_errors" then
        errs <- lift (py_get response_data "validation_errors" PNone) ;;
        shown <- lift (py_first_two errs) ;;
        emit (EPrintValidationErrors shown) ;;;
        ret false
      else ret false
  else
    emit (EPrintRetryStatus (retry + 1) (status_code response)) ;;;
    try_except
      (error_data <- response_json response ;;
       emit (EPrintErrorDetails error_data))
      [(fun _ => true,
        fun _ => emit (EPrintResponseText (str_take 200 (text response))))] ;;;
    emit (ESleep backoff_seconds) ;;;
    ret false.

(** One pass of the retry loop with its [except Exception] clause. *)
Definition attempt (srv : server) (sync_endpoint : string)
           (payload : pyvalue) (retry : Z) : M bool :=
  try_except
    (attempt_body srv sync_endpoint payload retry)
    [(isinstance_Exception,
      fun e =>
        emit (EPrintRetryError (retry + 1) e) ;;;
        emit (ESleep backoff_seconds) ;;;
        ret false)].

(** [success = False; for retry in range(3): ...]: the value returned is
    that of [success] after the loop. *)
Fixpoint retry_loop (srv : server) (sync_endpoint : string)
         (payload : pyvalue) (rs : list Z) : M bool :=
  match rs with
  | [] => ret false
  | retry :: rest =>
      broke <- attempt srv sync_endpoint payload retry ;;
      if broke then ret true
      else retry_loop srv sync_endpoint payload rest
  end.

(** The body of the loop over the chunks of one table (lines 205-261) for
    one chunk: progress, payload, retries, and the verdict. *)
Definition transfer_chunk (srv : server) (cfg : config)
           (sync_endpoint table_name : string) (total : nat)
           (chunk_index : nat) (chunk : list pyvalue) : M bool :=
  emit (EProgress (chunk_index - 1) total) ;;;
  success <- retry_loop srv sync_endpoint
               (build_payload cfg table_name chunk) retries ;;
  emit (EProgress chunk_index total) ;;;
  if success then ret true
  else emit (EPrintFailed table_name) ;;; ret false.

(** [for chunk_index, chunk in enumerate(chunks, 1)].  The result [false]
    is the [return False] of line 261, [true] the normal end of the
    loop. *)
Fixpoint chunk_loop (srv : server) (cfg : config)
         (sync_endpoint table_name : string) (total : nat)
         (indexed : list (nat * list pyvalue)) : M bool :=
  match indexed with
  | [] => ret true
  | (chunk_index, chunk) :: rest =>
      ok <- transfer_chunk srv cfg sync_endpoint table_name total
              chunk_index chunk ;;
      if ok then chunk_loop srv cfg sync_endpoint table_name total rest
      else ret false
  end.

(** [enumerate(xs, 1)] *)
Definition enumerate1 {A : Type} (xs : list A) : list (nat * A) :=
  zip (seq 1 (length xs)) xs.

(** The body of the loop over the tables for one table (lines 193-264);
    [false] is again the [return False] of line 261. *)
Definition transfer_table (srv : server) (cfg : config)
           (sync_endpoint : string) (data : gmap string (list pyvalue))
           (table_index : nat) (table_name : string) : M bool :=
  match data !! table_name with
  | None => ret true
  | Some table_data =>
      match table_data with
      | [] => emit (EPrintNoData table_index table_name) ;;; ret true
      | _ =>
          emit (EPrintSyncing table_index (length table_data) table_name) ;;;
          chunks <- lift (chunk_data table_data default_chunk_size) ;;
          ok <- chunk_loop srv cfg sync_endpoint table_name
                  (length chunks) (enumerate1 chunks) ;;
          if ok then emit (EPrintSynced table_name) ;;; ret true
          else ret false
      end
  end.

(** [for table_index, table_name in enumerate(tables_to_sync, 1)],
    followed by the [return True] of line 266. *)
Fixpoint table_loop (srv : server) (cfg : config) (sync_endpoint : string)
         (data : gmap string (list pyvalue))
         (indexed : list (nat * string)) : M bool :=
  match indexed with
  | [] => ret true
  | (table_index, table_name) :: rest =>
      ok <- transfer_table srv cfg sync_endpoint data table_index
              table_name ;;
      if ok then table_loop srv cfg sync_endpoint data rest
      else ret false
  end.

Definition sync_data_to_api (srv : server)
           (data : gmap string (list pyvalue)) (cfg : config) : M bool :=
  try_except
    (api_base_url <- config_key (cfg_api_url cfg) ;;
     table_loop srv cfg (api_base_url ++ "/api/sync")%string data
       (enumerate1 tables_to_sync))
    [(isinstance_Exception,
      fun e => emit (EPrintSyncError e) ;;; ret false)].

End Engine.

(** ** Remote sides used to run the engine on concrete inputs. *)

Module Scenario.

Import Engine.

Definition cfg : config :=
  Config (Some "http://api") (Some "key") (Some "omega") (Some "dba")
    (Some "sql") None.

Definition row (n : Z) : pyvalue :=
  PDict [("code", PInt n); ("name", PStr "item")]%string.

(** A table of 1001 rows: two chunks. *)
Definition rows_1001 : list pyvalue := map (fun k => row (Z.of_nat k)) (seq 0 1001).

Definition data_one_row : gmap string (list pyvalue) :=
  {[ "acc_product"%string := [row 1]; "acc_invmast"%string := [row 2] ]}.

Definition data_two_chunks : gmap string (list pyvalue) :=
  {[ "acc_product"%string := rows_1001; "acc_invmast"%string := [row 2] ]}.

Definition success_body : pyvalue := PDict [("success"%string, PBool true)].

(** The structured rejection of a payload. *)
Definition rejection_body : pyvalue :=
  PDict [("success", PBool false); ("error", PStr "invalid rows");
         ("validation_errors",
          PList [PStr "row 1"; PStr "row 2"; PStr "row 3"])]%string.

Definition server_ok : server :=
  fun _ => Responded (Response 200 (Some success_body) "").

Definition server_500 : server :=
  fun _ => Responded (Response 500 None "Internal Server Error").

Definition server_rejecting : server :=
  fun _ => Responded (Response 200 (Some rejection_body) "").

(** HTTP 200 with a body that is not JSON. *)
Definition server_html : server :=
  fun _ => Responded (Response 200 None "<html>OK</html>").

(** Two transport errors, then success. *)
Definition server_third_time : server :=
  fun tr =>
    if Nat.ltb (count_requests tr) 3
    then Raised (Exn ConnectionError "connection refused")
    else Responded (Response 200 (Some success_body) "").

(** The user interrupts the run during the first request. *)
Definition server_interrupted : server :=
  fun _ => Raised (Exn KeyboardInterrupt "").

(** The first request is accepted, every later one gets HTTP 500. *)
Definition server_ok_then_500 : server :=
  fun tr =>
    if Nat.leb (count_requests tr) 1
    then Responded (Response 200 (Some success_body) "")
    else Responded (Response 500 None "Internal Server Error").

Definition sync_url : string := "http://api/api/sync".

Definition payload_one_row : pyvalue := build_payload cfg "acc_product" [row 1].

(** The two chunks of [rows_1001]. *)
Definition chunk_a : list pyvalue := firstn 1000 rows_1001.
Definition chunk_b : list pyvalue := skipn 1000 rows_1001.

End Scenario.

Import Engine.

(** ** The sync run: [load_config], [connect_to_database], [execute_query],
    [fetch_data] and [main] (sync.py). *)

Module SyncMain.

(** What lies outside the program during one run. *)
Record world : Type :=
  World { (** [open(CONFIG_FILE)] and [json.load] *)
          w_config : exn + config;
          (** [pyodbc.connect]: [None] when it succeeds *)
          w_connect : option exn;
          (** [cursor.execute] and [fetchall], rows zipped with columns *)
          w_query : string -> exn + list pyvalue;
          w_server : server }.

Definition sys_exit {A} (code : Z) : M A := raise (Exn (SystemExit code) "").

Definition isinstance_FileNotFoundError (e : exn) : bool :=
  match exn_cls e with FileNotFoundError => true | _ => false end.

Definition isinstance_JSONDecodeError (e : exn) : bool :=
  match exn_cls e with JSONDecodeError => true | _ => false end.

Definition load_config (w : world) : M config :=
  try_except
    (emit (EPrint "Loading configuration file...") ;;;
     cfg <- lift (w_config w) ;;
     emit (EPrint "Configuration loaded successfully") ;;;
     ret cfg)
    [(isinstance_FileNotFoundError,
      fun _ =>
        emit (EPrint "ERROR: Configuration file not found!") ;;;
        emit (EInput "Press Enter to exit...") ;;;
        sys_exit 1);
     (isinstance_JSONDecodeError,
      fun _ =>
        emit (EPrint "ERROR: Invalid JSON format!") ;;;
        emit (EInput "Press Enter to exit...") ;;;
        sys_exit 1)].

(** The connection handle carries no data of its own in this model; its
    life is read off the trace, from [EConnect] to [EConnClose]. *)
Definition connect_to_database (w : world) (cfg : config) : M unit :=
  try_except
    (emit (EPrint "Connecting to database...") ;;;
     dsn <- config_key (cfg_dsn cfg) ;;
     username <- config_key (cfg_username cfg) ;;
     password <- config_key (cfg_password cfg) ;;
     let conn_str :=
       ("DSN=" ++ dsn ++ ";UID=" ++ username ++ ";PWD=" ++ password)%string in
     match w_connect w with
     | Some e => raise e
     | None =>
         emit (EConnect conn_str) ;;;
         emit (EPrint "Database connection successful!")
     end)
    [(isinstance_PyodbcError,
      fun _ =>
        emit (EPrint "Database connection failed!") ;;;
        emit (EInput "Press Enter to exit...") ;;;
        sys_exit 1)].

Definition execute_query (w : world) (query : string) : M (list pyvalue) :=
  try_except
    (emit (EQuery query) ;;;
     lift (w_query w query))
    [(isinstance_PyodbcError,
      fun _ => emit (EPrint "Query execution failed") ;;; ret [])].

Definition dq : string := String (ascii_of_nat 34) EmptyString.

Definition quoted (name : string) : string := (dq ++ name ++ dq)%string.

Definition select (projection : list string) (table : string) : string :=
  ("SELECT " ++ String.concat ", " projection ++ " FROM " ++ quoted table)%string.

Definition tables : list (string * string) :=
  [("acc_product",
    select [quoted "code"; quoted "name";
            "COALESCE(" ++ quoted "quantity" ++ ", 0) + COALESCE("
              ++ quoted "openingquantity" ++ ", 0) AS quantity";
            quoted "stockcatagory"; quoted "unit"; quoted "product";
            quoted "brand"; quoted "billedcost"; quoted "basicprice";
            quoted "partqty"] "acc_product");
   ("acc_invmast",
    select [quoted "invdate"; quoted "slno"] "acc_invmast");
   ("acc_invdetails",
    select [quoted "invno"; quoted "code"; quoted "quantity"]
      "acc_invdetails");
   ("acc_purchasemaster",
    select [quoted "slno"; quoted "date"; quoted "pdate"]
      "acc_purchasemaster");
   ("acc_purchasedetails",
    select [quoted "billno"; quoted "code"; quoted "quantity"]
      "acc_purchasedetails");
   ("acc_production",
    select [quoted "productionno"; quoted "date"] "acc_production");
   ("acc_productiondetails",
    select [quoted "masterno"; quoted "code"; quoted "qty"]
      "acc_productiondetails")]%string.

(** [for i, (table_name, query) in enumerate(tables, 1)] *)
Fixpoint fetch_loop (w : world) (ts : list (string * string))
         (data : gmap string (list pyvalue))
  : M (gmap string (list pyvalue)) :=
  match ts with
  | [] => ret data
  | (table_name, query) :: rest =>
      results <- execute_query w query ;;
      fetch_loop w rest (<[table_name := results]> data)
  end.

Definition fetch_data (w : world) : M (gmap string (list pyvalue)) :=
  emit (EPrint "FETCHING DATA FROM DATABASE") ;;;
  fetch_loop w tables ∅.

(** [for i in range(5, 0, -1): time.sleep(1)] *)
Fixpoint countdown (n : nat) : M unit :=
  match n with
  | O => ret tt
  | S n' => emit (ESleep 1) ;;; countdown n'
  end.

Definition main (w : world) : M unit :=
  try_except
    (emit (EPrint "OMEGA DATABASE SYNC TOOL") ;;;
     cfg <- load_config w ;;
     connect_to_database w cfg ;;;
     data <- fetch_data w ;;
     success <- sync_data_to_api (w_server w) data cfg ;;
     emit EConnClose ;;;
     emit (EPrint "Database connection closed") ;;;
     if success then
       emit (EPrint "SYNC COMPLETED SUCCESSFULLY!") ;;;
       countdown 5 ;;;
       sys_exit 0
     else
       emit (EPrint "SYNC FAILED!") ;;;
       emit (EInput "Press Enter to close...") ;;;
       sys_exit 1)
    [(isinstance_KeyboardInterrupt,
      fun _ =>
        emit (EPrint "Sync cancelled by user") ;;;
        emit (EInput "Press Enter to close...") ;;;
        sys_exit 1);
     (isinstance_Exception,
      fun _ =>
        emit (EPrint "UNEXPECTED ERROR!") ;;;
        emit (EInput "Press Enter to close...") ;;;
        sys_exit 1)].

(** The process: the exit status and the trace of the whole run.  An
    exception that leaves [main] other than [SystemExit] ends the process
    with status 1. *)
Definition run (w : world) : Z * list event :=
  match main w [] with
  | (inl (Exn (SystemExit code) _), tr) => (code, tr)
  | (inl _, tr) => (1, tr)
  | (inr _, tr) => (0, tr)
  end.

(** Worlds in which the configuration loads, the database answers every
    query with one row, and the remote side is the given one. *)
Definition world_with (srv : server) : world :=
  World (inr Scenario.cfg) None (fun _ => inr [Scenario.row 1]) srv.

Definition connected (tr : list event) : bool :=
  existsb (fun ev => match ev with EConnect _ => true | _ => false end) tr.

Definition closed (tr : list event) : bool :=
  existsb (fun ev => match ev with EConnClose => true | _ => false end) tr.

End SyncMain.

(** ** The diagnostics probe: [test_api_endpoints] (run_diagnostics.py). *)

Module Diagnostics.

(** The method column of the endpoint table holds one of two strings. *)
Inductive endpoint_method : Type := M_DELETE | M_POST.

Definition method_name (m : endpoint_method) : string :=
  match m with M_DELETE => "DELETE" | M_POST => "POST" end.

Definition endpoints : list (string * endpoint_method * string) :=
  [("/api/sync/products/clear", M_DELETE, "Clear products");
   ("/api/sync/products", M_POST, "Sync products");
   ("/api/sync/productbatches/clear", M_DELETE, "Clear product batches");
   ("/api/sync/productbatches", M_POST, "Sync product batches");
   ("/api/sync/masters/clear", M_DELETE, "Clear masters");
   ("/api/sync/masters", M_POST, "Sync masters");
   ("/api/sync/users/clear", M_DELETE, "Clear users");
   ("/api/sync/users", M_POST, "Sync users")]%string.

Record probe_result : Type :=
  ProbeResult { pr_endpoint : string;
                pr_method : string;
                pr_status_code : option Z;
                pr_status : string;
                pr_debug_mode : bool }.

Definition probe_timeout : Z := 5.

Definition debug_marker : string := "<code>DEBUG = True</code>".

Definition probe_headers (api_key : string) : list (string * string) :=
  [("Content-Type", "application/json");
   ("Authorization", "Bearer " ++ api_key)]%string.

(** [requests.options(url, headers=headers, timeout=5)] *)
Definition requests_options (srv : server) (url : string)
           (hdrs : list (string * string)) : M response :=
  request srv OPTIONS url hdrs None probe_timeout.

Definition classify (r : response) : string :=
  if status_code r <? 500 then "AVAILABLE" else "ERROR".

(** The body of the loop over the endpoints (lines 68-129): the list of
    results grows by one record on every path that does not leave the
    function. *)
Definition probe_endpoint (srv : server) (api_base_url : string)
           (hdrs : list (string * string))
           (entry : string * endpoint_method * string)
           (results : list probe_result) : M (list probe_result) :=
  let '(endpoint, method, description) := entry in
  let url := (api_base_url ++ endpoint)%string in
  try_except
    (emit (ELog ("Testing " ++ method_name method ++ " " ++ url)%string) ;;;
     rs <- match method with
           | M_DELETE =>
               response <- requests_options srv url hdrs ;;
               ret (response, classify response)
           | M_POST =>
               response <- requests_options srv url hdrs ;;
               ret (response, classify response)
           end ;;
     let '(response, status) := rs in
     let is_debug := str_contains debug_marker (text response) in
     let results' :=
       results ++ [ProbeResult endpoint (method_name method)
                     (Some (status_code response)) status is_debug] in
     emit (ELog ("  - Status: " ++ status)%string) ;;;
     (if is_debug
      then emit (ELog ("  - DJANGO DEBUG MODE DETECTED on " ++ endpoint)%string)
      else ret tt) ;;;
     ret results')
    [(isinstance_Timeout,
      fun _ =>
        emit (ELog ("  - Timeout accessing " ++ url)%string) ;;;
        ret (results ++ [ProbeResult endpoint (method_name method) None
                           "TIMEOUT" false]));
     (isinstance_ConnectionError,
      fun _ =>
        emit (ELog ("  - Connection error accessing " ++ url)%string) ;;;
        ret (results ++ [ProbeResult endpoint (method_name method) None
                           "CONNECTION ERROR" false]));
     (isinstance_Exception,
      fun e =>
        emit (ELog ("  - Unexpected error: " ++ exn_msg e)%string) ;;;
        ret (results ++ [ProbeResult endpoint (method_name method) None
                           ("ERROR: " ++ exn_msg e)%string false]))].

(** [for endpoint, method, description in endpoints] *)
Fixpoint probe_loop (srv : server) (api_base_url : string)
         (hdrs : list (string * string))
         (entries : list (string * endpoint_method * string))
         (results : list probe_result) : M (list probe_result) :=
  match entries with
  | [] => ret results
  | entry :: rest =>
      results' <- probe_endpoint srv api_base_url hdrs entry results ;;
      probe_loop srv api_base_url hdrs rest results'
  end.

(** [r["status"] != "AVAILABLE"] *)
Definition is_issue (r : probe_result) : bool :=
  negb (String.eqb (pr_status r) "AVAILABLE").

(** [for error in errors: logger.warning(...)] *)
Fixpoint log_issues (errors : list probe_result) : M unit :=
  match errors with
  | [] => ret tt
  | error :: rest =>
      emit (ELog ("  - " ++ pr_method error ++ " " ++ pr_endpoint error
                    ++ ": " ++ pr_status error)%string) ;;;
      log_issues rest
  end.

(** The summary (lines 131-156): the issues are listed, the debug warning
    is printed, and the verdict is [len(errors) == 0]. *)
Definition summarize (results : list probe_result) : M bool :=
  let errors := List.filter is_issue results in
  let debug_mode := existsb pr_debug_mode results in
  emit (ELog "===== DIAGNOSTICS SUMMARY =====") ;;;
  (match errors with
   | [] => emit (ELog "All API endpoints appear to be available.")
   | _ => emit (ELog "Found endpoint issues:") ;;; log_issues errors
   end) ;;;
  (if debug_mode
   then emit (ELog "DJANGO DEBUG MODE IS ENABLED on the server!")
   else ret tt) ;;;
  ret (Nat.eqb (length errors) 0).

Definition test_api_endpoints (srv : server) (cfg : config) : M bool :=
  try_except
    (api_base_url <- config_key (cfg_api_url cfg) ;;
     api_key <- config_key (cfg_api_key cfg) ;;
     emit (ELog ("Testing API connection to " ++ api_base_url)%string) ;;;
     results <- probe_loop srv api_base_url (probe_headers api_key)
                  endpoints [] ;;
     summarize results)
    [(isinstance_Exception,
      fun e => emit (ELog "API diagnostics failed") ;;; ret false)].

(** The requests of a trace, in the order they were sent. *)
Definition requests_of (tr : list event) : list (http_method * string) :=
  omap (fun ev => match ev with
                  | ERequest m url _ _ _ => Some (m, url)
                  | _ => None
                  end) tr.

(** The request by which an endpoint is probed. *)
Definition probe_request (api_base_url api_key endpoint : string) : event :=
  ERequest OPTIONS (api_base_url ++ endpoint) (probe_headers api_key) None
    probe_timeout.

Definition entry_endpoint (entry : string * endpoint_method * string)
  : string := fst (fst entry).

(** The classification as the specification words it (section 4.3): by the
    status of the answer, or by the kind of transport failure.  A
    [ConnectTimeout] is a timeout.  [None] stands for an exception that is
    not an [Exception], which the probe does not classify. *)
Definition spec_classification (o : outcome) : option string :=
  match o with
  | Responded r => Some (if status_code r <? 500 then "AVAILABLE" else "ERROR")
  | Raised e =>
      if isinstance_Timeout e then Some "TIMEOUT"
      else if isinstance_ConnectionError e then Some "CONNECTION ERROR"
      else if isinstance_Exception e then Some ("ERROR: " ++ exn_msg e)%string
      else None
  end.

(** [r["status"] == "AVAILABLE"] *)
Definition is_available (r : probe_result) : bool :=
  String.eqb (pr_status r) "AVAILABLE".

(** [nth_answer srv tr tr' i req o]: in the part of the trace [tr'] that
    follows [tr], the request [req] stands after [i] earlier requests, and
    [o] is what the remote side answered to it there. *)
Definition nth_answer (srv : server) (tr tr' : list event) (i : nat)
           (req : event) (o : outcome) : Prop :=
  exists mid after,
    tr' = tr ++ mid ++ req :: after
    /\ count_requests mid = i
    /\ srv (tr ++ mid ++ [req]) = o.

(** Remote sides for concrete runs of the probe: every endpoint answers
    200; and the users endpoints time out while the others answer. *)
Definition server_up : server :=
  fun _ => Responded (Response 200 None "").

Definition server_users_down : server :=
  fun tr =>
    if Nat.leb (count_requests tr) 6
    then Responded (Response 405 None "Method Not Allowed")
    else Raised (Exn ReadTimeout "read timed out").

End Diagnostics.

(** * Part I, continued: notions used to state further properties *)

(** ** Values *)

(** A value that the encoder can write: neither an object of a class
    unknown to [DecimalEncoder.default] nor a decimal that [float] refuses
    occurs in it. *)
Fixpoint serializable (v : pyvalue) : bool :=
  match v with
  | PObject _ => false
  | PDecimal d => negb (is_snan d)
  | PList items => forallb serializable items
  | PDict fields => forallb (fun kv => serializable (snd kv)) fields
  | _ => true
  end.

(** An object of an unknown class occurs in the value. *)
Fixpoint holds_foreign_object (v : pyvalue) : bool :=
  match v with
  | PObject _ => true
  | PList items => existsb holds_foreign_object items
  | PDict fields => existsb (fun kv => holds_foreign_object (snd kv)) fields
  | _ => false
  end.

(** A signalling NaN occurs in the value. *)
Fixpoint holds_signalling_nan (v : pyvalue) : bool :=
  match v with
  | PDecimal d => is_snan d
  | PList items => existsb holds_signalling_nan items
  | PDict fields => existsb (fun kv => holds_signalling_nan (snd kv)) fields
  | _ => false
  end.

(** A value made of JSON types only: null, booleans, numbers, strings,
    lists and string-keyed dicts. *)
Fixpoint json_native (v : pyvalue) : bool :=
  match v with
  | PNone | PBool _ | PInt _ | PFloat _ | PStr _ => true
  | PList items => forallb json_native items
  | PDict fields => forallb (fun kv => json_native (snd kv)) fields
  | PDecimal _ | PDate _ | PDateTime _ | PObject _ => false
  end.

(** The error of [json.JSONEncoder.default]. *)
Definition not_serializable : exn :=
  Exn TypeError "Object is not JSON serializable".

(** ** Events of the engine *)

Definition is_progress (ev : event) : bool :=
  match ev with EProgress _ _ => true | _ => false end.

(** An event that only prints. *)
Definition is_print (ev : event) : bool :=
  negb (is_request ev || is_sleep ev || is_progress ev).

Definition count_sleeps (tr : list event) : nat :=
  length (List.filter is_sleep tr).

(** What one attempt to send [payload] to [url] can emit: the request with
    the serialised payload, the two-second sleep, or a printed line. *)
Definition attempt_emits (url : string) (payload : pyvalue) (ev : event)
  : Prop :=
  (exists body, normalize payload = inr body /\ ev = post_request url body)
  \/ ev = ESleep 2
  \/ is_print ev = true.

(** What the transfer of the chunk numbered [idx] of [total] can emit. *)
Definition chunk_emits (url : string) (cfg : config) (table_name : string)
           (total idx : nat) (chunk : list pyvalue) (ev : event) : Prop :=
  attempt_emits url (build_payload cfg table_name chunk) ev
  \/ ev = EProgress (idx - 1) total
  \/ ev = EProgress idx total.

(** What the transfer of one table of [data] can emit: printed lines, and
    the events of the chunks of its rows. *)
Definition table_emits (url : string) (cfg : config)
           (data : gmap string (list pyvalue)) (table_name : string)
           (ev : event) : Prop :=
  is_print ev = true
  \/ exists rows chunks idx chunk,
      data !! table_name = Some rows
      /\ chunk_data rows default_chunk_size = inr chunks
      /\ In (idx, chunk) (enumerate1 chunks)
      /\ chunk_emits url cfg table_name (length chunks) idx chunk ev.

(** The number of chunks that a run has to send: those of the listed
    tables that [data] holds. *)
Definition chunks_of_table (data : gmap string (list pyvalue))
           (table_name : string) : nat :=
  match data !! table_name with
  | Some rows => Z.to_nat (ceil_div (Z.of_nat (length rows)) default_chunk_size)
  | None => O
  end.

Definition chunks_to_send (data : gmap string (list pyvalue)) : nat :=
  list_sum (map (chunks_of_table data) tables_to_sync).

(** How one attempt can end, starting from the trace [tr]: it added the
    events [evs], at most one request and one sleep among them, and an
    exception leaves it only when the transport raised it and it is not an
    [Exception]. *)
Definition attempt_outcome (srv : server) (url : string) (payload : pyvalue)
           (tr : list event) (res : exn + bool) (tr' : list event) : Prop :=
  exists evs,
    tr' = tr ++ evs
    /\ Forall (attempt_emits url payload) evs
    /\ (count_requests evs <= 1)%nat
    /\ (count_sleeps evs <= 1)%nat
    /\ (forall e, res = inl e ->
                  isinstance_Exception e = false /\ srv tr' = Raised e).

(** How a part of the run can end, starting from the trace [tr]: every
    event it added satisfies [P], at most [nreq] of them are requests and
    [nsleep] sleeps, and an exception leaves it only when the transport
    raised it and it is not an [Exception]. *)
Definition run_outcome (srv : server) (P : event -> Prop) (nreq nsleep : nat)
           (tr : list event) (res : exn + bool) (tr' : list event) : Prop :=
  exists evs,
    tr' = tr ++ evs
    /\ Forall P evs
    /\ (count_requests evs <= nreq)%nat
    /\ (count_sleeps evs <= nsleep)%nat
    /\ (forall e, res = inl e ->
                  isinstance_Exception e = false
                  /\ exists t, srv t = Raised e).

(** The events of the transfer of one chunk of a table: at most three are
    requests and at most three are sleeps, every request carries the
    serialised payload of that chunk, and every sleep lasts two seconds. *)
Definition chunk_segment (url : string) (cfg : config) (table_name : string)
           (ic : nat * list pyvalue) (evs : list event) : Prop :=
  (count_requests evs <= 3)%nat
  /\ (count_sleeps evs <= 3)%nat
  /\ Forall (fun ev =>
               (is_request ev = true ->
                exists body,
                  normalize (build_payload cfg table_name (snd ic)) = inr body
                  /\ ev = post_request url body)
               /\ (is_sleep ev = true -> ev = ESleep 2)) evs.

(** What a run over the tables of [indexed] can emit. *)
Definition tables_emit (url : string) (cfg : config)
           (data : gmap string (list pyvalue)) (names : list string)
           (ev : event) : Prop :=
  exists table_name, In table_name names /\ table_emits url cfg data table_name ev.

(** A remote side that answers every request with HTTP 200 and a body whose
    [success] is true. *)
Definition always_accepts (srv : server) : Prop :=
  forall t, exists r d v,
    srv t = Responded r
    /\ status_code r = 200
    /\ json_body r = Some d
    /\ py_get d "success" (PBool false) = inr v
    /\ py_truthy v = true.

(** Every row of every table, and the database label of the configuration,
    can be serialised. *)
Definition all_serializable (cfg : config)
           (data : gmap string (list pyvalue)) : Prop :=
  (forall table_name rows,
      data !! table_name = Some rows -> forallb serializable rows = true)
  /\ match cfg_target_database cfg with
     | Some v => serializable v = true
     | None => True
     end.

(** ** [print_progress_bar] (sync.py, lines 48-56).

    The bar is a row of full cells followed by dashes.  The result is the
    bar and whether the closing newline is printed; [None] stands for the
    [ZeroDivisionError] that [float(current) * 100 / total] raises for a
    total of zero.  The percentage, a float used for display only, is left
    out. *)

Inductive bar_cell : Type := Full | Dash.

(** [s * n] for a one-character string: empty when [n <= 0]. *)
Definition cells (c : bar_cell) (n : Z) : list bar_cell :=
  repeat c (Z.to_nat n).

Definition default_bar_length : Z := 40.

Definition filled_length (current total bar_length : Z) : Z :=
  bar_length * current / total.

Definition print_progress_bar (current total bar_length : Z)
  : option (list bar_cell * bool) :=
  if total =? 0 then None
  else
    let filled := filled_length current total bar_length in
    Some (cells Full filled ++ cells Dash (bar_length - filled),
          current =? total).

(** ** Events of the sync run *)

Definition is_query (ev : event) : bool :=
  match ev with EQuery _ => true | _ => false end.

(** The rows that [execute_query] returns for a query: those of the
    database, or none when the database raises an error. *)
Definition query_rows (w : SyncMain.world) (query : string) : list pyvalue :=
  match SyncMain.w_query w query with
  | inr rows => rows
  | inl _ => []
  end.

(** The lines that [main] prints before it fetches, when the configuration
    loads and the database connects. *)
Definition startup_trace (conn_str : string) : list event :=
  [EPrint "OMEGA DATABASE SYNC TOOL";
   EPrint "Loading configuration file...";
   EPrint "Configuration loaded successfully";
   EPrint "Connecting to database...";
   EConnect conn_str;
   EPrint "Database connection successful!"].

(** What [main] does after [sync_data_to_api] has returned [success]. *)
Definition shutdown_trace (success : bool) : list event :=
  [EConnClose; EPrint "Database connection closed"]
  ++ (if success
      then [EPrint "SYNC COMPLETED SUCCESSFULLY!";
            ESleep 1; ESleep 1; ESleep 1; ESleep 1; ESleep 1]
      else [EPrint "SYNC FAILED!"; EInput "Press Enter to close..."]).

(** The dict that [fetch_data] builds from the answers of the database. *)
Definition fetched (w : SyncMain.world) (ts : list (string * string))
           (data : gmap string (list pyvalue)) : gmap string (list pyvalue) :=
  foldl (fun d t => <[fst t := query_rows w (snd t)]> d) data ts.

(** The database fails, if at all, with its own error class. *)
Definition database_errors_only (w : SyncMain.world) : Prop :=
  forall query e,
    SyncMain.w_query w query = inl e -> isinstance_PyodbcError e = true.

(** The transport raises nothing but [Exception]s. *)
Definition transport_errors_only (srv : server) : Prop :=
  forall t e, srv t = Raised e -> isinstance_Exception e = true.

(** ** The diagnostics run: [load_config] and [main] of
    run_diagnostics.py. *)

Module DiagnosticsMain.

Import Diagnostics.

Record world : Type :=
  World { (** [open(CONFIG_FILE)] and [json.load] *)
          w_config : exn + config;
          w_server : server }.

Definition load_config (w : world) : M config :=
  try_except
    (lift (w_config w))
    [(SyncMain.isinstance_FileNotFoundError,
      fun _ =>
        emit (ELog "Configuration file config.json not found") ;;;
        SyncMain.sys_exit 1);
     (SyncMain.isinstance_JSONDecodeError,
      fun _ =>
        emit (ELog "Invalid JSON in config.json") ;;;
        SyncMain.sys_exit 1)].

(** [main]: the value is its return value. *)
Definition main (w : world) : M Z :=
  try_except
    (emit (ELog "Starting API diagnostics...") ;;;
     cfg <- load_config w ;;
     success <- test_api_endpoints (w_server w) cfg ;;
     (if success
      then emit (ELog "Diagnostics completed successfully. All endpoints seem to be working.")
      else emit (ELog "Diagnostics completed with warnings or errors. Please review the log.")) ;;;
     emit (ELog "Press Enter to exit...") ;;;
     emit (EInput "") ;;;
     ret (if success then 0 else 1))
    [(isinstance_Exception,
      fun _ =>
        emit (ELog "Unexpected error during diagnostics") ;;;
        emit (ELog "Press Enter to exit...") ;;;
        emit (EInput "") ;;;
        ret 1)].

(** [sys.exit(main())]: the exit status of the process, or the exception
    that ends it when one other than [SystemExit] leaves [main]. *)
Definition run (w : world) : (exn + Z) * list event :=
  match main w [] with
  | (inr status, tr) => (inr status, tr)
  | (inl (Exn (SystemExit code) _), tr) => (inr code, tr)
  | (inl e, tr) => (inl e, tr)
  end.

End DiagnosticsMain.

(** * Part II: properties *)

(** ** Chunking *)

Section ChunkingFacts.

Context {A : Type}.
Implicit Types (l : list A) (C : Z).

Lemma ceil_div_nonpos n c : 0 < c -> n <= 0 -> ceil_div n c <= 0.
Proof.
  intros Hc Hn. unfold ceil_div.
  apply Z.lt_succ_r, Z.div_lt_upper_bound; lia.
Qed.

Lemma ceil_div_step n c :
  0 < c -> 0 < n -> ceil_div n c = 1 + ceil_div (n - c) c.
Proof.
  intros Hc Hn. unfold ceil_div.
  replace (n + c - 1) with (1 * c + (n - c + c - 1)) by lia.
  rewrite Z.div_add_l by lia. reflexivity.
Qed.

(** [ceil_div n c] is the least [k] with [n <= k * c]. *)
Lemma ceil_div_bounds n c :
  0 < c -> (ceil_div n c - 1) * c < n <= ceil_div n c * c.
Proof.
  intros Hc. unfold ceil_div.
  pose proof (Z.div_mod (n + c - 1) c ltac:(lia)) as Hdm.
  pose proof (Z.mod_pos_bound (n + c - 1) c Hc) as Hm.
  nia.
Qed.

Lemma ceil_div_nonneg n c : 0 < c -> 0 <= n -> 0 <= ceil_div n c.
Proof. intros Hc Hn. unfold ceil_div. apply Z.div_pos; lia. Qed.

Lemma range_up_closed_form fuel i stop step :
  0 < step ->
  stop - i <= Z.of_nat fuel ->
  range_up fuel i stop step =
  map (fun k => i + Z.of_nat k * step)
      (seq 0 (Z.to_nat (ceil_div (stop - i) step))).
Proof.
  intros Hstep. revert i.
  induction fuel as [|fuel IH]; intros i Hfuel; cbn [range_up].
  - pose proof (ceil_div_nonpos (stop - i) step Hstep ltac:(lia)).
    replace (Z.to_nat (ceil_div (stop - i) step)) with O by lia.
    reflexivity.
  - destruct (Z.ltb_spec i stop) as [Hlt|Hge].
    + rewrite IH by lia.
      rewrite (ceil_div_step (stop - i) step) by lia.
      replace (stop - i - step) with (stop - (i + step)) by lia.
      pose proof (ceil_div_nonneg (stop - (i + step) + step) step Hstep
                    ltac:(lia)) as Hnn.
      assert (0 <= ceil_div (stop - (i + step)) step).
      { pose proof (ceil_div_bounds (stop - (i + step)) step Hstep). nia. }
      replace (Z.to_nat (1 + ceil_div (stop - (i + step)) step))
        with (S (Z.to_nat (ceil_div (stop - (i + step)) step))) by lia.
      cbn [seq map]. f_equal; [lia|].
      rewrite <- seq_shift, map_map.
      apply map_ext. intros k. lia.
    + pose proof (ceil_div_nonpos (stop - i) step Hstep ltac:(lia)).
      replace (Z.to_nat (ceil_div (stop - i) step)) with O by lia.
      reflexivity.
Qed.

(** A slice that starts at a non-negative index and spans [C] places. *)
Lemma py_slice_window l a C :
  0 <= a -> 0 <= C ->
  py_slice l a (a + C) = take (Z.to_nat C) (drop (Z.to_nat a) l).
Proof.
  intros Ha HC. unfold py_slice, clamp_index.
  destruct (Z.ltb_spec a 0); [lia|].
  destruct (Z.ltb_spec (a + C) 0); [lia|].
  destruct (Z.le_gt_cases a (Z.of_nat (length l))) as [Hin|Hout].
  - rewrite (Z.min_l a) by lia.
    destruct (Z.le_gt_cases (a + C) (Z.of_nat (length l))).
    + rewrite Z.min_l by lia. f_equal. lia.
    + rewrite Z.min_r by lia.
      rewrite !take_ge; [reflexivity| |]; rewrite length_drop; lia.
  - rewrite !Z.min_r by lia.
    rewrite Z.sub_diag. cbn [Z.to_nat take].
    rewrite (drop_ge l (Z.to_nat a)) by lia.
    destruct (Z.to_nat C); reflexivity.
Qed.

Lemma chunk_data_windows l C :
  0 < C ->
  chunk_data l C =
  inr (windows (Z.to_nat C)
         (Z.to_nat (ceil_div (Z.of_nat (length l)) C)) l).
Proof.
  intros HC. unfold chunk_data, py_range.
  destruct (Z.eqb_spec C 0); [lia|].
  destruct (Z.ltb_spec 0 C); [|lia].
  rewrite range_up_closed_form by lia.
  rewrite Z.sub_0_r. f_equal. unfold windows.
  rewrite map_map. apply map_ext. intros k.
  rewrite py_slice_window by lia.
  do 2 f_equal. nia.
Qed.

Lemma concat_windows c n l : concat (windows c n l) = take (n * c) l.
Proof.
  unfold windows. induction n as [|n IH].
  - reflexivity.
  - rewrite seq_S, map_app, concat_app, IH. cbn [map concat Nat.add].
    rewrite app_nil_r, take_take_drop. f_equal. lia.
Qed.

Lemma length_windows c n l : length (windows c n l) = n.
Proof. unfold windows. rewrite length_map, length_seq. reflexivity. Qed.

Lemma lookup_windows c n l k :
  (k < n)%nat -> windows c n l !! k = Some (take c (drop (k * c) l)).
Proof.
  intros Hk. unfold windows.
  change (map ?f ?x) with (f <$> x).
  rewrite list_lookup_fmap, lookup_seq_lt by lia. reflexivity.
Qed.

End ChunkingFacts.

(** C1.  For a chunk size [C > 0] and a row sequence of length [N],
    [chunk_data] returns ceil(N/C) chunks, every chunk but the last has
    exactly [C] rows, the last one has [N mod C] rows (or [C] when [C]
    divides [N]), and the chunks concatenated in order are the original
    sequence. *)
Theorem chunk_data_partition {A : Type} (l : list A) (C : Z) :
  0 < C ->
  exists chunks : list (list A),
    chunk_data l C = inr chunks
    /\ Z.of_nat (length chunks) = ceil_div (Z.of_nat (length l)) C
    /\ (forall (i : nat) (c : list A),
          chunks !! i = Some c -> (S i < length chunks)%nat ->
          Z.of_nat (length c) = C)
    /\ (forall c : list A,
          last chunks = Some c ->
          Z.of_nat (length c) =
          if Z.of_nat (length l) mod C =? 0 then C
          else Z.of_nat (length l) mod C)
    /\ concat chunks = l.
Proof.
  intros HC.
  set (N := Z.of_nat (length l)).
  pose proof (ceil_div_bounds N C HC) as [Hlo Hhi].
  pose proof (ceil_div_nonneg N C HC ltac:(lia)) as Hnn.
  set (n := Z.to_nat (ceil_div N C)).
  set (c := Z.to_nat C).
  assert (Hn : Z.of_nat n = ceil_div N C) by lia.
  assert (Hc : Z.of_nat c = C) by lia.
  exists (windows c n l).
  split; [apply chunk_data_windows; exact HC|].
  split; [rewrite length_windows; exact Hn|].
  split; [|split].
  - intros i w Hw Hi. rewrite length_windows in Hi.
    rewrite lookup_windows in Hw by lia. injection Hw as <-.
    rewrite length_take, length_drop.
    assert (Z.of_nat (S i) * C < N) by nia.
    assert (Z.of_nat (i * c) + C < Z.of_nat (length l)) by (fold N; nia).
    lia.
  - intros w Hw. rewrite last_lookup, length_windows in Hw.
    destruct n as [|n']; [discriminate Hw|].
    cbn [pred] in Hw. rewrite lookup_windows in Hw by lia.
    injection Hw as <-.
    rewrite length_take, length_drop.
    pose proof (Z.div_mod N C ltac:(lia)) as Hdm.
    pose proof (Z.mod_pos_bound N C HC) as Hm.
    assert (Hk : Z.of_nat (n' * c) = Z.of_nat n' * C) by nia.
    destruct (Z.eqb_spec (N mod C) 0) as [H0|H0].
    + assert (Z.of_nat (S n') = N / C) by nia.
      nia.
    + assert (Z.of_nat n' = N / C) by nia.
      nia.
  - rewrite concat_windows. apply take_ge. nia.
Qed.

Lemma chunk_data_partition_witness :
  0 < 3 /\
  exists chunks : list (list Z),
    chunk_data [1; 2; 3; 4; 5; 6; 7] 3 = inr chunks
    /\ Z.of_nat (length chunks) = 3
    /\ concat chunks = [1; 2; 3; 4; 5; 6; 7].
Proof.
  split; [lia|].
  destruct (chunk_data_partition [1; 2; 3; 4; 5; 6; 7] 3 ltac:(lia))
    as (chunks & Hrun & Hlen & _ & _ & Hcat).
  exists chunks. split; [exact Hrun|]. split; [exact Hlen|exact Hcat].
Defined.

(** ** The value normaliser *)

Section NormalizerFacts.

(** Induction over values that reaches the members of lists and dicts. *)
Lemma pyvalue_nested_ind (P : pyvalue -> Prop) :
  P PNone ->
  (forall b, P (PBool b)) ->
  (forall z, P (PInt z)) ->
  (forall f, P (PFloat f)) ->
  (forall s, P (PStr s)) ->
  (forall items, Forall P items -> P (PList items)) ->
  (forall fields, Forall (fun kv => P (snd kv)) fields -> P (PDict fields)) ->
  (forall d, P (PDecimal d)) ->
  (forall d, P (PDate d)) ->
  (forall t, P (PDateTime t)) ->
  (forall cls, P (PObject cls)) ->
  forall v, P v.
Proof.
  intros HNone HBool HInt HFloat HStr HList HDict HDec HDate HDT HObj.
  fix IH 1. intros [|b|z|f|s|items|fields|d|d|t|cls].
  - exact HNone.
  - apply HBool.
  - apply HInt.
  - apply HFloat.
  - apply HStr.
  - apply HList.
    induction items as [|x rest IHl]; constructor; [apply IH|exact IHl].
  - apply HDict.
    induction fields as [|[k x] rest IHl]; constructor;
      [cbn [snd]; apply IH|exact IHl].
  - apply HDec.
  - apply HDate.
  - apply HDT.
  - apply HObj.
Qed.

Lemma normalize_PList items :
  normalize (PList items) =
  match normalize_items items with
  | inl e => inl e
  | inr items' => inr (PList items')
  end.
Proof.
  cbn [normalize].
  assert (Heq : forall l,
             (fix go (l : list pyvalue) : exn + list pyvalue :=
                match l with
                | [] => inr []
                | x :: rest =>
                    match normalize x with
                    | inl e => inl e
                    | inr x' =>
                        match go rest with
                        | inl e => inl e
                        | inr rest' => inr (x' :: rest')
                        end
                    end
                end) l = normalize_items l).
  { induction l as [|x rest IHl]; [reflexivity|].
    cbn [normalize_items]. rewrite <- IHl. reflexivity. }
  rewrite Heq. reflexivity.
Qed.

Lemma normalize_PDict fields :
  normalize (PDict fields) =
  match normalize_fields fields with
  | inl e => inl e
  | inr fields' => inr (PDict fields')
  end.
Proof.
  cbn [normalize].
  assert (Heq : forall l,
             (fix go (l : list (string * pyvalue))
                : exn + list (string * pyvalue) :=
                match l with
                | [] => inr []
                | (k, x) :: rest =>
                    match normalize x with
                    | inl e => inl e
                    | inr x' =>
                        match go rest with
                        | inl e => inl e
                        | inr rest' => inr ((k, x') :: rest')
                        end
                    end
                end) l = normalize_fields l).
  { induction l as [|[k x] rest IHl]; [reflexivity|].
    cbn [normalize_fields]. rewrite <- IHl. reflexivity. }
  rewrite Heq. reflexivity.
Qed.

(** What [default] returns is a scalar that the encoder writes itself. *)
Lemma default_returns_scalar v v' :
  default v = inr v' -> json_scalar v' = true.
Proof.
  destruct v as [| | | | | | |d| | |]; cbn; try destruct (is_snan d);
    intros H; try discriminate H; injection H as <-; reflexivity.
Qed.

Lemma normalize_scalar v : json_scalar v = true -> normalize v = inr v.
Proof. destruct v; cbn; intros H; try discriminate H; reflexivity. Qed.

Lemma normalize_idempotent v :
  forall v', normalize v = inr v' -> normalize v' = inr v'.
Proof.
  induction v as [| | | | |items IH|fields IH|d| | |]
    using pyvalue_nested_ind; intros v' Hv;
    try (cbn in Hv; try destruct (is_snan d); try discriminate Hv;
         injection Hv as <-; reflexivity).
  - rewrite normalize_PList in Hv.
    destruct (normalize_items items) as [e|items'] eqn:Hitems;
      [discriminate Hv|]. injection Hv as <-.
    rewrite normalize_PList.
    enough (normalize_items items' = inr items') as -> by reflexivity.
    revert items' Hitems.
    induction IH as [|x rest Hx _ IHrest]; intros items' Hitems.
    + cbn in Hitems. injection Hitems as <-. reflexivity.
    + cbn [normalize_items] in Hitems.
      destruct (normalize x) as [e|x'] eqn:Hnx; [discriminate Hitems|].
      destruct (normalize_items rest) as [e|rest'] eqn:Hnr;
        [discriminate Hitems|].
      injection Hitems as <-. cbn [normalize_items].
      rewrite (Hx x' eq_refl), (IHrest rest' eq_refl). reflexivity.
  - rewrite normalize_PDict in Hv.
    destruct (normalize_fields fields) as [e|fields'] eqn:Hfields;
      [discriminate Hv|]. injection Hv as <-.
    rewrite normalize_PDict.
    enough (normalize_fields fields' = inr fields') as -> by reflexivity.
    revert fields' Hfields.
    induction IH as [|[k x] rest Hx _ IHrest]; intros fields' Hfields.
    + cbn in Hfields. injection Hfields as <-. reflexivity.
    + cbn [normalize_fields] in Hfields. cbn [snd] in Hx.
      destruct (normalize x) as [e|x'] eqn:Hnx; [discriminate Hfields|].
      destruct (normalize_fields rest) as [e|rest'] eqn:Hnr;
        [discriminate Hfields|].
      injection Hfields as <-. cbn [normalize_fields].
      rewrite (Hx x' eq_refl), (IHrest rest' eq_refl). reflexivity.
Qed.

End NormalizerFacts.

(** ** [float] of a decimal is the nearest binary64 number *)

Lemma scaled_pos (num den ex : Z) :
  0 < num -> 0 < den ->
  0 < fst (scaled num den ex) /\ 0 < snd (scaled num den ex).
Proof.
  intros Hn Hd. unfold scaled.
  destruct (0 <=? ex) eqn:He; cbn [fst snd]; split; try assumption.
  - apply Z.leb_le in He. apply Z.mul_pos_pos; [assumption|].
    apply Z.pow_pos_nonneg; lia.
  - apply Z.leb_gt in He. apply Z.mul_pos_pos; [assumption|].
    apply Z.pow_pos_nonneg; lia.
Qed.

(** x / 2^e1 = (x / 2^e2) * 2^(e2 - e1) *)
Lemma scaled_shift (num den e1 e2 : Z) :
  e1 <= e2 ->
  fst (scaled num den e1) * snd (scaled num den e2)
  = fst (scaled num den e2) * snd (scaled num den e1) * 2 ^ (e2 - e1).
Proof.
  intros Hle. unfold scaled.
  destruct (0 <=? e1) eqn:H1; destruct (0 <=? e2) eqn:H2; cbn [fst snd];
    try apply Z.leb_le in H1; try apply Z.leb_le in H2;
    try apply Z.leb_gt in H1; try apply Z.leb_gt in H2.
  - replace e2 with (e1 + (e2 - e1)) at 1 by lia.
    rewrite Z.pow_add_r by lia. ring.
  - lia.
  - replace (e2 - e1) with (e2 + - e1) by lia.
    rewrite Z.pow_add_r by lia. ring.
  - replace (- e1) with (- e2 + (e2 - e1)) by lia.
    rewrite Z.pow_add_r by lia. ring.
Qed.

Lemma binade_spec (num den : Z) :
  0 < num -> 0 < den ->
  snd (scaled num den (binade num den)) <= fst (scaled num den (binade num den))
    < 2 * snd (scaled num den (binade num den)).
Proof.
  intros Hn Hd.
  destruct (Z.log2_spec num Hn) as [Hn1 Hn2].
  destruct (Z.log2_spec den Hd) as [Hd1 Hd2].
  pose proof (Z.log2_nonneg num) as Ha.
  pose proof (Z.log2_nonneg den) as Hb.
  rewrite Z.pow_succ_r in Hn2, Hd2 by assumption.
  unfold binade.
  set (l := Z.log2 num - Z.log2 den).
  destruct (scaled num den l) as [a b] eqn:Hs.
  assert (Hl : l <= l) by lia.
  pose proof (scaled_shift num den (l - 1) l ltac:(lia)) as Hsh.
  rewrite Hs in Hsh. cbn [fst snd] in Hsh.
  replace (l - (l - 1)) with 1 in Hsh by lia. change (2 ^ 1) with 2 in Hsh.
  destruct (scaled_pos num den (l - 1) Hn Hd) as [Hp1 Hp2].
  assert (Hab : 0 < a /\ 0 < b).
  { pose proof (scaled_pos num den l Hn Hd) as H. rewrite Hs in H. exact H. }
  (* 2^(log2 den + l) = 2^(log2 num), hence b <= 2a and a < 2b *)
  assert (Hbounds : b < 2 * a /\ a < 2 * b).
  { unfold scaled in Hs. destruct (0 <=? l) eqn:H0.
    - apply Z.leb_le in H0. injection Hs as <- <-.
      assert (E : 2 ^ Z.log2 num = 2 ^ Z.log2 den * 2 ^ l).
      { rewrite <- Z.pow_add_r by lia. f_equal. unfold l. lia. }
      assert (0 < 2 ^ l) by (apply Z.pow_pos_nonneg; lia).
      split; nia.
    - apply Z.leb_gt in H0. injection Hs as <- <-.
      assert (E : 2 ^ Z.log2 den = 2 ^ Z.log2 num * 2 ^ (- l)).
      { rewrite <- Z.pow_add_r by lia. f_equal. unfold l. lia. }
      assert (0 < 2 ^ (- l)) by (apply Z.pow_pos_nonneg; lia).
      split; nia. }
  destruct (b <=? a) eqn:Hc.
  - apply Z.leb_le in Hc. rewrite Hs. cbn [fst snd]. lia.
  - apply Z.leb_gt in Hc.
    destruct (scaled num den (l - 1)) as [a' b'] eqn:Hs'.
    cbn [fst snd] in *. nia.
Qed.

Lemma round_half_even_spec (a b : Z) :
  0 <= a -> 0 < b ->
  let n := round_half_even a b in
  0 <= n /\ 2 * Z.abs (a - n * b) <= b /\
  (2 * Z.abs (a - n * b) = b -> Z.even n = true) /\
  (forall K, a < K * b -> n <= K) /\
  (forall K, K * b <= a -> K <= n).
Proof.
  intros Ha Hb. unfold round_half_even.
  pose proof (Z.div_mod a b ltac:(lia)) as Hdm.
  pose proof (Z.mod_pos_bound a b Hb) as Hr.
  pose proof (Z.div_pos a b Ha Hb) as Hq.
  set (q := a / b) in *. set (r := a mod b) in *.
  assert (HK1 : forall K, a < K * b -> q < K) by (intros K HK; nia).
  assert (HK2 : forall K, K * b <= a -> K <= q) by (intros K HK; nia).
  destruct (2 * r ?= b) eqn:Hc.
  - apply Z.compare_eq in Hc.
    destruct (Z.even q) eqn:He; cbv zeta.
    + split; [lia|]. split; [lia|]. split; [intros _; exact He|].
      split; intros K HK.
      * specialize (HK1 K HK). lia.
      * exact (HK2 K HK).
    + assert (Ho : Z.even (q + 1) = true).
      { rewrite Z.even_add, He. reflexivity. }
      split; [lia|]. split; [lia|]. split; [intros _; exact Ho|].
      split; intros K HK.
      * specialize (HK1 K HK). lia.
      * specialize (HK2 K HK). lia.
  - rewrite Z.compare_lt_iff in Hc. cbv zeta.
    split; [lia|]. split; [lia|]. split; [lia|].
    split; intros K HK.
    + specialize (HK1 K HK). lia.
    + exact (HK2 K HK).
  - rewrite Z.compare_gt_iff in Hc. cbv zeta.
    split; [lia|]. split; [lia|]. split; [lia|].
    split; intros K HK.
    + specialize (HK1 K HK). lia.
    + specialize (HK2 K HK). lia.
Qed.

Lemma digits2_pos_size (m : positive) : digits2_pos m = Pos.size m.
Proof. induction m; cbn; congruence. Qed.

Lemma digits2_bounds (m : positive) (d : Z) :
  0 < d -> 2 ^ (d - 1) <= Zpos m < 2 ^ d -> Zpos (digits2_pos m) = d.
Proof.
  intros Hd [Hlo Hhi]. rewrite digits2_pos_size.
  pose proof (Pos.size_gt m) as Hgt. pose proof (Pos.size_le m) as Hle.
  apply Pos2Z.pos_lt_pos in Hgt. apply Pos2Z.pos_le_pos in Hle.
  rewrite Pos2Z.inj_pow in Hgt, Hle.
  change (Z.pos m~0) with (2 * Z.pos m) in Hle.
  set (k := Z.pos (Pos.size m)) in *.
  assert (Hk : 0 < k) by (unfold k; lia).
  destruct (Z.lt_trichotomy k d) as [Hlt | [Heq | Hgt']]; [|assumption|].
  - assert (2 ^ k <= 2 ^ (d - 1)) by (apply Z.pow_le_mono_r; lia). lia.
  - assert (2 ^ d <= 2 ^ (k - 1)) by (apply Z.pow_le_mono_r; lia).
    replace k with (Z.succ (k - 1)) in Hle by lia.
    rewrite Z.pow_succ_r in Hle by lia. lia.
Qed.

Lemma digits2_small (m : positive) (d : Z) :
  0 <= d -> Zpos m < 2 ^ d -> Zpos (digits2_pos m) <= d.
Proof.
  intros Hd Hhi. rewrite digits2_pos_size.
  pose proof (Pos.size_le m) as Hle. apply Pos2Z.pos_le_pos in Hle.
  rewrite Pos2Z.inj_pow in Hle.
  change (Z.pos m~0) with (2 * Z.pos m) in Hle.
  set (k := Z.pos (Pos.size m)) in *.
  destruct (Z.le_gt_cases k d) as [|Hgt]; [assumption|].
  assert (2 ^ d <= 2 ^ (k - 1)) by (apply Z.pow_le_mono_r; lia).
  replace k with (Z.succ (k - 1)) in Hle by lia.
  rewrite Z.pow_succ_r in Hle by lia. lia.
Qed.

Lemma bounded_normal (m : positive) (e : Z) :
  2 ^ 52 <= Zpos m < 2 ^ 53 -> -1074 <= e <= 971 ->
  bounded prec emax m e = true.
Proof.
  intros Hm He. unfold bounded, canonical_mantissa, fexp, emin, prec, emax.
  rewrite (digits2_bounds m 53) by (change (53 - 1) with 52; lia).
  apply andb_true_intro. split; [apply Z.eqb_eq | apply Z.leb_le]; lia.
Qed.

Lemma bounded_subnormal (m : positive) :
  Zpos m < 2 ^ 52 -> bounded prec emax m (-1074) = true.
Proof.
  intros Hm. unfold bounded, canonical_mantissa, fexp, emin, prec, emax.
  pose proof (digits2_small m 52 ltac:(lia) Hm).
  apply andb_true_intro. split; [apply Z.eqb_eq | apply Z.leb_le]; lia.
Qed.

Lemma float_of_fraction_rounds (s : bool) (num den : Z) :
  0 < num -> 0 < den -> rounds_to s num den (float_of_fraction s num den).
Proof.
  intros Hn Hd. unfold rounds_to, float_of_fraction.
  exists (binade num den).
  pose proof (binade_spec num den Hn Hd) as HL.
  set (L := binade num den) in *.
  change (emin prec emax) with (-1074). change (prec - 1) with 52.
  change (emax - prec) with 971. change (2 ^ prec) with (2 ^ 53).
  set (ex := Z.max (L - 52) (-1074)).
  destruct (scaled_pos num den ex Hn Hd) as [Hpa Hpb].
  destruct (scaled_pos num den L Hn Hd) as [HpaL HpbL].
  destruct (scaled num den ex) as [a b] eqn:Hs. cbn [fst snd] in Hpa, Hpb.
  destruct (round_half_even_spec a b ltac:(lia) Hpb)
    as (Hn0 & Hnear & Heven & Hup & Hdown).
  set (n := round_half_even a b) in *.
  exists n. cbv zeta. cbn [fst snd].
  split; [exact HL|]. split; [split; assumption|].
  (* the position of x / 2^ex *)
  assert (Hrange : n <= 2 ^ 53 /\ (ex = L - 52 -> 2 ^ 52 <= n) /\
                   (ex <> L - 52 -> n <= 2 ^ 52)).
  { destruct (Z.le_gt_cases ex L) as [HexL | HexL].
    - pose proof (scaled_shift num den ex L HexL) as Hsh.
      rewrite Hs in Hsh. cbn [fst snd] in Hsh.
      assert (Hp : 0 < 2 ^ (L - ex)) by (apply Z.pow_pos_nonneg; lia).
      assert (Hp52 : 2 ^ (L - ex) <= 2 ^ 52) by (apply Z.pow_le_mono_r; lia).
      set (aL := fst (scaled num den L)) in *.
      set (bL := snd (scaled num den L)) in *.
      set (p := 2 ^ (L - ex)) in *.
      assert (Hlt : a < (2 * p) * b) by nia.
      assert (Hge : p * b <= a) by nia.
      split; [|split].
      + apply Hup. nia.
      + intros E. apply Hdown. unfold p in Hge.
        replace (L - ex) with 52 in Hge by lia. exact Hge.
      + intros E. apply Hup.
        assert (p <= 2 ^ 51) by (apply Z.pow_le_mono_r; lia). nia.
    - pose proof (scaled_shift num den L ex ltac:(lia)) as Hsh.
      rewrite Hs in Hsh. cbn [fst snd] in Hsh.
      assert (Hp : 2 ^ 1 <= 2 ^ (ex - L)) by (apply Z.pow_le_mono_r; lia).
      change (2 ^ 1) with 2 in Hp.
      set (aL := fst (scaled num den L)) in *.
      set (bL := snd (scaled num den L)) in *.
      set (p := 2 ^ (ex - L)) in *.
      assert (Hlt : a < 1 * b).
      { assert (H1 : a * bL * 2 <= a * bL * p)
          by (apply Z.mul_le_mono_nonneg_l; [apply Z.mul_nonneg_nonneg|]; lia).
        assert (H2 : aL * b < 2 * bL * b)
          by (apply Z.mul_lt_mono_pos_r; lia).
        apply (Z.mul_lt_mono_pos_r bL); lia. }
      split; [|split].
      + apply Hup. lia.
      + intros E. lia.
      + intros _. apply Hup. lia. }
  destruct Hrange as (Hle53 & Hnormal & Hsub).
  assert (Hex : -1074 <= ex) by (unfold ex; lia).
  destruct (n =? 0) eqn:Hz.
  { apply Z.eqb_eq in Hz. split; [reflexivity | exact Hz]. }
  apply Z.eqb_neq in Hz.
  destruct (n =? 2 ^ 53) eqn:Htop.
  - apply Z.eqb_eq in Htop.
    destruct (ex + 1 <=? 971) eqn:Hov.
    + apply Z.leb_le in Hov. split; [reflexivity|]. split; [|split].
      * apply bounded_normal; [|lia]. cbn. lia.
      * lia.
      * replace (ex + 1 - ex) with 1 by lia. rewrite Htop. reflexivity.
    + apply Z.leb_gt in Hov. split; [reflexivity|]. split; [lia|].
      rewrite Htop.
      assert (2 ^ 971 <= 2 ^ ex) by (apply Z.pow_le_mono_r; lia).
      change (2 ^ 1024) with (2 ^ 53 * 2 ^ 971).
      apply Z.mul_le_mono_nonneg_l; [lia | assumption].
  - apply Z.eqb_neq in Htop.
    destruct (ex <=? 971) eqn:Hov.
    + apply Z.leb_le in Hov. split; [reflexivity|].
      assert (Hm : Zpos (Z.to_pos n) = n) by (apply Z2Pos.id; lia).
      split; [|split].
      * destruct (Z.eq_dec ex (L - 52)) as [E | E].
        -- apply bounded_normal; [|lia]. rewrite Hm.
           specialize (Hnormal E). lia.
        -- assert (ex = -1074) by (unfold ex in *; lia).
           specialize (Hsub E).
           destruct (Z.eq_dec n (2 ^ 52)) as [E52 | E52].
           ++ apply bounded_normal; [|lia]. rewrite Hm. lia.
           ++ subst ex. rewrite H. apply bounded_subnormal. rewrite Hm. lia.
      * lia.
      * rewrite Z.sub_diag, Hm. lia.
    + apply Z.leb_gt in Hov. split; [reflexivity|]. split; [lia|].
      assert (E : ex = L - 52) by (unfold ex in *; lia).
      specialize (Hnormal E).
      assert (2 ^ 972 <= 2 ^ ex) by (apply Z.pow_le_mono_r; lia).
      change (2 ^ 1024) with (2 ^ 52 * 2 ^ 972).
      apply Z.mul_le_mono_nonneg; lia.
Qed.

Lemma fraction_of_pos (c : positive) (k : Z) :
  0 < fst (fraction_of c k) /\ 0 < snd (fraction_of c k).
Proof.
  unfold fraction_of. destruct (0 <=? k) eqn:Hk; cbn [fst snd].
  - apply Z.leb_le in Hk. split; [|lia].
    apply Z.mul_pos_pos; [lia | apply Z.pow_pos_nonneg; lia].
  - apply Z.leb_gt in Hk. split; [lia | apply Z.pow_pos_nonneg; lia].
Qed.

Lemma float_of_decimal_rounds (s : bool) (c : positive) (k : Z) :
  rounds_to s (fst (fraction_of c k)) (snd (fraction_of c k))
    (float_of_decimal (Decimal s (Npos c) k)).
Proof.
  cbn [float_of_decimal]. destruct (fraction_of_pos c k) as [Hn Hd].
  destruct (fraction_of c k) as [num den]. cbn [fst snd] in *.
  apply float_of_fraction_rounds; assumption.
Qed.

(** The binade of a fraction is unique. *)
Lemma binade_unique (num den L L' : Z) :
  0 < num -> 0 < den ->
  snd (scaled num den L) <= fst (scaled num den L) < 2 * snd (scaled num den L) ->
  snd (scaled num den L') <= fst (scaled num den L')
    < 2 * snd (scaled num den L') ->
  L = L'.
Proof.
  intros Hn Hd.
  assert (Hlt : forall l l',
             l < l' ->
             snd (scaled num den l) <= fst (scaled num den l)
               < 2 * snd (scaled num den l) ->
             snd (scaled num den l') <= fst (scaled num den l')
               < 2 * snd (scaled num den l') ->
             False).
  { intros l l' Hll Hl Hl'.
    pose proof (scaled_shift num den l l' ltac:(lia)) as Hsh.
    destruct (scaled_pos num den l Hn Hd) as [Ha Hb].
    destruct (scaled_pos num den l' Hn Hd) as [Ha' Hb'].
    assert (Hp : 2 ^ 1 <= 2 ^ (l' - l)) by (apply Z.pow_le_mono_r; lia).
    change (2 ^ 1) with 2 in Hp.
    set (a := fst (scaled num den l)) in *.
    set (b := snd (scaled num den l)) in *.
    set (a' := fst (scaled num den l')) in *.
    set (b' := snd (scaled num den l')) in *.
    set (p := 2 ^ (l' - l)) in *.
    assert (H0 : b' * b <= a' * b)
      by (apply Z.mul_le_mono_nonneg_r; lia).
    assert (H1 : a' * b * 2 <= a' * b * p)
      by (apply Z.mul_le_mono_nonneg_l; [apply Z.mul_nonneg_nonneg|]; lia).
    assert (H2 : a * b' < 2 * b * b')
      by (apply Z.mul_lt_mono_pos_r; lia).
    lia. }
  intros HL HL'.
  destruct (Z.lt_trichotomy L L') as [H | [H | H]]; [|exact H|].
  - destruct (Hlt L L' H HL HL').
  - destruct (Hlt L' L H HL' HL).
Qed.

(** The nearest integer, even at a tie, is unique. *)
Lemma nearest_even_unique (a b n n' : Z) :
  0 < b ->
  2 * Z.abs (a - n * b) <= b -> (2 * Z.abs (a - n * b) = b -> Z.even n = true) ->
  2 * Z.abs (a - n' * b) <= b ->
  (2 * Z.abs (a - n' * b) = b -> Z.even n' = true) ->
  n = n'.
Proof.
  intros Hb Hn He Hn' He'.
  assert (Hclose : Z.abs (n - n') <= 1).
  { assert (Z.abs (n - n') * b <= 1 * b); [|nia].
    replace (Z.abs (n - n') * b) with (Z.abs ((a - n' * b) - (a - n * b)))
      by (rewrite <- (Z.abs_eq b) at 3 by lia; rewrite <- Z.abs_mul;
          f_equal; ring).
    lia. }
  destruct (Z.eq_dec n n') as [|Hne]; [assumption|exfalso].
  assert (Hcase : n' = n + 1 \/ n = n' + 1) by lia.
  assert (Hodd : forall k, Z.even k = true -> Z.even (k + 1) = true -> False).
  { intros k Hk Hk1. rewrite Z.even_add, Hk in Hk1. discriminate Hk1. }
  destruct Hcase as [-> | ->].
  - assert (2 * Z.abs (a - n * b) = b) by lia.
    assert (2 * Z.abs (a - (n + 1) * b) = b) by lia.
    exact (Hodd n (He ltac:(assumption)) (He' ltac:(assumption))).
  - assert (2 * Z.abs (a - n' * b) = b) by lia.
    assert (2 * Z.abs (a - (n' + 1) * b) = b) by lia.
    exact (Hodd n' (He' ltac:(assumption)) (He ltac:(assumption))).
Qed.

Lemma digits2_log2 (m : positive) :
  Zpos (digits2_pos m) = Z.log2 (Zpos m) + 1.
Proof.
  pose proof (Z.log2_nonneg (Zpos m)) as Hnn.
  apply digits2_bounds; [lia|].
  replace (Z.log2 (Z.pos m) + 1 - 1) with (Z.log2 (Z.pos m)) by lia.
  replace (Z.log2 (Z.pos m) + 1) with (Z.succ (Z.log2 (Z.pos m))) by lia.
  apply Z.log2_spec. lia.
Qed.

Lemma bounded_inv (m : positive) (e : Z) :
  bounded prec emax m e = true ->
  Z.max (Z.log2 (Zpos m) + 1 + e - 53) (-1074) = e /\ e <= 971.
Proof.
  unfold bounded, canonical_mantissa, fexp, emin, prec, emax.
  intros H. apply andb_prop in H as [H1 H2].
  apply Z.eqb_eq in H1. apply Z.leb_le in H2.
  rewrite digits2_log2 in H1. split; lia.
Qed.

(** The numbers of the format have one representation each. *)
Lemma bounded_unique (m m' : positive) (e e' ex : Z) :
  bounded prec emax m e = true -> bounded prec emax m' e' = true ->
  ex <= e -> ex <= e' ->
  Zpos m * 2 ^ (e - ex) = Zpos m' * 2 ^ (e' - ex) ->
  m = m' /\ e = e'.
Proof.
  assert (Hle : forall m m' e e',
             bounded prec emax m e = true -> bounded prec emax m' e' = true ->
             ex <= e -> e <= e' ->
             Zpos m * 2 ^ (e - ex) = Zpos m' * 2 ^ (e' - ex) ->
             m = m' /\ e = e').
  { clear. intros m m' e e' Hb Hb' Hex Hee Heq.
    destruct (bounded_inv _ _ Hb) as [Hc _].
    destruct (bounded_inv _ _ Hb') as [Hc' _].
    assert (Hm : Zpos m = Zpos m' * 2 ^ (e' - e)).
    { replace (e' - ex) with ((e' - e) + (e - ex)) in Heq by lia.
      rewrite Z.pow_add_r, Z.mul_assoc in Heq by lia.
      apply Z.mul_cancel_r in Heq; [exact Heq|].
      apply Z.pow_nonzero; lia. }
    assert (Hlog : Z.log2 (Zpos m) = (e' - e) + Z.log2 (Zpos m')).
    { rewrite Hm. apply Z.log2_mul_pow2; lia. }
    assert (e = e') by lia. subst e'.
    split; [|reflexivity].
    rewrite Z.sub_diag in Hm. change (2 ^ 0) with 1 in Hm. lia. }
  intros Hb Hb' Hex Hex' Heq.
  destruct (Z.le_gt_cases e e') as [H | H].
  - exact (Hle m m' e e' Hb Hb' Hex H Heq).
  - destruct (Hle m' m e' e Hb' Hb Hex' ltac:(lia) (eq_sym Heq)) as [-> ->].
    split; reflexivity.
Qed.

Lemma bounded_below_overflow (m : positive) (e ex : Z) :
  bounded prec emax m e = true -> 0 <= ex <= e ->
  Zpos m * 2 ^ (e - ex) * 2 ^ ex < 2 ^ 1024.
Proof.
  intros Hb Hex. destruct (bounded_inv _ _ Hb) as [Hc He].
  rewrite <- Z.mul_assoc, <- Z.pow_add_r by lia.
  replace (e - ex + ex) with e by lia.
  assert (Hm : Zpos m < 2 ^ 53).
  { pose proof (Z.log2_spec (Zpos m) ltac:(lia)) as [_ Hhi].
    assert (2 ^ Z.succ (Z.log2 (Zpos m)) <= 2 ^ 53)
      by (apply Z.pow_le_mono_r; lia).
    lia. }
  assert (Hp : 2 ^ e <= 2 ^ 971) by (apply Z.pow_le_mono_r; lia).
  assert (Hpos : 0 < 2 ^ e) by (apply Z.pow_pos_nonneg; lia).
  assert (H1 : Zpos m * 2 ^ e < 2 ^ 53 * 2 ^ e)
    by (apply Z.mul_lt_mono_pos_r; assumption).
  assert (H2 : 2 ^ 53 * 2 ^ e <= 2 ^ 53 * 2 ^ 971)
    by (apply Z.mul_le_mono_nonneg_l; [lia|assumption]).
  change (2 ^ 1024) with (2 ^ 53 * 2 ^ 971).
  eapply Z.lt_le_trans; [exact H1|exact H2].
Qed.

(** [rounds_to] names one float. *)
Lemma rounds_to_unique (s : bool) (num den : Z) (f g : spec_float) :
  0 < num -> 0 < den ->
  rounds_to s num den f -> rounds_to s num den g -> f = g.
Proof.
  intros Hn Hd (L & n & HL & [Hnear Heven] & Hf)
    (L' & n' & HL' & [Hnear' Heven'] & Hg).
  assert (L' = L) as -> by (symmetry; exact (binade_unique _ _ _ _ Hn Hd HL HL')).
  set (ex := Z.max (L - 52) (-1074)) in *.
  destruct (scaled_pos num den ex Hn Hd) as [_ Hb].
  assert (n' = n) as ->
    by (symmetry;
        exact (nearest_even_unique _ _ _ _ Hb Hnear Heven Hnear' Heven')).
  destruct f as [sf|sf| |sf m e]; destruct g as [sg|sg| |sg m' e'];
    try contradiction.
  - destruct Hf as [-> _]. destruct Hg as [-> _]. reflexivity.
  - destruct Hf as [_ ->]. destruct Hg as (_ & _ & Hov).
    rewrite Z.mul_0_l in Hov.
    pose proof (Z.pow_pos_nonneg 2 1024 ltac:(lia) ltac:(lia)). lia.
  - destruct Hf as [_ ->]. destruct Hg as (_ & _ & Hle & Hv).
    pose proof (Z.pow_pos_nonneg 2 (e' - ex) ltac:(lia) ltac:(lia)). lia.
  - destruct Hg as [_ ->]. destruct Hf as (_ & _ & Hov).
    rewrite Z.mul_0_l in Hov.
    pose proof (Z.pow_pos_nonneg 2 1024 ltac:(lia) ltac:(lia)). lia.
  - destruct Hf as [-> _]. destruct Hg as [-> _]. reflexivity.
  - destruct Hf as (_ & Hex & Hov). destruct Hg as (_ & Hbd & Hle & Hv).
    pose proof (bounded_below_overflow _ _ ex Hbd ltac:(lia)) as Hlt.
    rewrite Hv in Hlt. lia.
  - destruct Hg as [_ ->]. destruct Hf as (_ & _ & Hle & Hv).
    pose proof (Z.pow_pos_nonneg 2 (e - ex) ltac:(lia) ltac:(lia)). lia.
  - destruct Hg as (_ & Hex & Hov). destruct Hf as (_ & Hbd & Hle & Hv).
    pose proof (bounded_below_overflow _ _ ex Hbd ltac:(lia)) as Hlt.
    rewrite Hv in Hlt. lia.
  - destruct Hf as (-> & Hbd & Hle & Hv).
    destruct Hg as (-> & Hbd' & Hle' & Hv').
    destruct (bounded_unique _ _ _ _ ex Hbd Hbd' Hle Hle'
                ltac:(rewrite Hv, Hv'; reflexivity)) as [-> ->].
    reflexivity.
Qed.

(** ** [isoformat] writes what an ISO-8601 reader reads back *)

Lemma digit_value_digit_char (n : Z) :
  digit_value (digit_char n) = Some (n mod 10).
Proof.
  unfold digit_value, digit_char.
  pose proof (Z.mod_pos_bound n 10 ltac:(lia)) as Hb.
  rewrite nat_ascii_embedding by lia.
  replace (Z.of_nat (48 + Z.to_nat (n mod 10))) with (48 + n mod 10) by lia.
  destruct (48 <=? 48 + n mod 10) eqn:H1; [|apply Z.leb_gt in H1; lia].
  destruct (48 + n mod 10 <=? 57) eqn:H2; [|apply Z.leb_gt in H2; lia].
  cbn [andb]. f_equal. lia.
Qed.

Lemma string_app_assoc (a b c : string) :
  ((a ++ b) ++ c = a ++ (b ++ c))%string.
Proof.
  induction a as [|x a IH]; [reflexivity|].
  change (String x ((a ++ b) ++ c) = String x (a ++ (b ++ c)))%string.
  f_equal. exact IH.
Qed.

Lemma read_digits_split (w1 w2 : nat) (acc : Z) (s : string) :
  read_digits (w1 + w2) acc s =
  match read_digits w1 acc s with
  | Some (a, rest) => read_digits w2 a rest
  | None => None
  end.
Proof.
  revert acc s. induction w1 as [|w1 IH]; intros acc s; [reflexivity|].
  cbn [Nat.add read_digits]. destruct s as [|c rest]; [reflexivity|].
  destruct (digit_value c); [apply IH|reflexivity].
Qed.

Lemma read_digits_zero_padded (w : nat) (n acc : Z) (rest : string) :
  0 <= n < 10 ^ Z.of_nat w ->
  read_digits w acc (zero_padded w n ++ rest)
  = Some (acc * 10 ^ Z.of_nat w + n, rest).
Proof.
  revert n rest. induction w as [|w IH]; intros n rest Hn.
  - cbn in *. do 2 f_equal. lia.
  - assert (Hpow : 10 ^ Z.of_nat (S w) = 10 * 10 ^ Z.of_nat w)
      by (rewrite Nat2Z.inj_succ, Z.pow_succ_r; lia).
    rewrite Hpow in *.
    assert (H10 : 0 <= n / 10 < 10 ^ Z.of_nat w).
    { split; [apply Z.div_pos; lia|].
      apply Z.div_lt_upper_bound; lia. }
    cbn [zero_padded]. rewrite string_app_assoc, <- (Nat.add_1_r w).
    rewrite read_digits_split, (IH (n / 10) _ H10).
    change (String (digit_char n) "" ++ rest)%string
      with (String (digit_char n) rest).
    cbn [read_digits]. rewrite digit_value_digit_char.
    do 2 f_equal. pose proof (Z.div_mod n 10 ltac:(lia)). lia.
Qed.

Lemma read_field (w : nat) (n : Z) (rest : string) :
  0 <= n < 10 ^ Z.of_nat w ->
  read_digits w 0 (zero_padded w n ++ rest) = Some (n, rest).
Proof.
  intros Hn. rewrite read_digits_zero_padded by exact Hn.
  do 2 f_equal.
Qed.

Lemma expect_head (c : ascii) (rest : string) :
  expect c (String c "" ++ rest) = Some rest.
Proof.
  change (String c "" ++ rest)%string with (String c rest).
  cbn [expect]. rewrite Ascii.eqb_refl. reflexivity.
Qed.

Lemma string_app_nil_r (s : string) : (s ++ "")%string = s.
Proof.
  induction s as [|c s IH]; [reflexivity|].
  change (String c (s ++ "") = String c s)%string. f_equal. exact IH.
Qed.

Ltac width :=
  first [ change (10 ^ Z.of_nat 2) with 100
        | change (10 ^ Z.of_nat 4) with 10000
        | change (10 ^ Z.of_nat 6) with 1000000 ]; lia.

Ltac read_one :=
  first [ rewrite read_field by width | rewrite expect_head ];
  cbn [mbind option_bind].

Lemma read_date_isoformat (d : date) (rest : string) :
  valid_date d -> read_date (date_isoformat d ++ rest) = Some (d, rest).
Proof.
  intros (Hy & Hm & Hd). destruct d as [y m dd]. cbn [year month day] in *.
  unfold read_date, date_isoformat. cbn [year month day].
  rewrite !string_app_assoc. do 5 read_one. reflexivity.
Qed.

Lemma parse_date_isoformat (d : date) :
  valid_date d -> parse_date (date_isoformat d) = Some d.
Proof.
  intros Hd. unfold parse_date.
  rewrite <- (string_app_nil_r (date_isoformat d)).
  rewrite (read_date_isoformat d "" Hd). reflexivity.
Qed.

Lemma parse_datetime_isoformat (t : datetime) :
  valid_datetime t -> parse_datetime (datetime_isoformat t) = Some t.
Proof.
  intros (Hd & Hh & Hm & Hs & Hu). destruct t as [d h mi sec us].
  cbn [dt_date hour minute second microsecond] in *.
  unfold parse_datetime, datetime_isoformat.
  cbn [dt_date hour minute second microsecond].
  rewrite (read_date_isoformat d _ Hd). cbn [mbind option_bind].
  do 5 read_one.
  destruct (us =? 0) eqn:Hz.
  - apply Z.eqb_eq in Hz. subst us. read_one. reflexivity.
  - apply Z.eqb_neq in Hz.
    rewrite <- (string_app_nil_r (zero_padded 6 us)).
    read_one.
    change (String.eqb (String "." "" ++ zero_padded 6 us ++ "") "")%string
      with false.
    cbn match. do 2 read_one.
    destruct (us =? 0) eqn:Hz'; [apply Z.eqb_eq in Hz'; contradiction|].
    reflexivity.
Qed.



(** ** The batch transfer engine *)

Lemma count_requests_app (a b : list event) :
  count_requests (a ++ b) = (count_requests a + count_requests b)%nat.
Proof. unfold count_requests. rewrite List.filter_app, length_app. reflexivity. Qed.

Section EngineFacts.

Variable srv : server.
Variable sync_endpoint : string.

Ltac run_step :=
  unfold attempt, attempt_body, try_except, bind, lift, request,
    response_json, emit, ret, raise, post_request in *;
  cbn [handle] in *.

Ltac close_shape H :=
  cbn in H; injection H as <- <-; rewrite <- ?app_assoc;
  eexists; (split; [reflexivity|reflexivity]).

(** A successful attempt: one request, and the [break]. *)
Lemma attempt_success payload body retry tr r d v :
  normalize payload = inr body ->
  srv (tr ++ [post_request sync_endpoint body]) = Responded r ->
  status_code r = 200 ->
  json_body r = Some d ->
  py_get d "success" (PBool false) = inr v ->
  py_truthy v = true ->
  attempt srv sync_endpoint payload retry tr
  = (inr true, tr ++ [post_request sync_endpoint body]).
Proof.
  intros Hn Hsrv Hst Hj Hget Hv. run_step.
  rewrite Hn, Hsrv, Hst, Hj, Hget, Hv. reflexivity.
Qed.

(** Every attempt whose payload serialises sends exactly one request, and
    it sends it first. *)
Lemma attempt_shape payload body retry tr res tr' :
  normalize payload = inr body ->
  attempt srv sync_endpoint payload retry tr = (res, tr') ->
  exists evs,
    tr' = tr ++ post_request sync_endpoint body :: evs
    /\ List.filter is_request evs = [].
Proof.
  intros Hn Hrun. run_step. rewrite Hn in Hrun.
  destruct (srv _) as [r|e].
  - destruct (status_code r =? 200).
    + destruct (json_body r) as [d|]; [|close_shape Hrun].
      destruct (py_get d "success" (PBool false)) as [e|v].
      { destruct (isinstance_Exception e); close_shape Hrun. }
      destruct (py_truthy v).
      { injection Hrun as <- <-. exists []. split; reflexivity. }
      destruct (py_get d "error" (PStr "Unknown error")) as [e|err].
      { destruct (isinstance_Exception e); close_shape Hrun. }
      destruct (py_dict_contains d "validation_errors");
        [|close_shape Hrun].
      destruct (py_get d "validation_errors" PNone) as [e|errs].
      { destruct (isinstance_Exception e); close_shape Hrun. }
      destruct (py_first_two errs) as [e|shown]; [|close_shape Hrun].
      destruct (isinstance_Exception e); close_shape Hrun.
    + destruct (json_body r) as [d|]; close_shape Hrun.
  - destruct (isinstance_Exception e); close_shape Hrun.
Qed.

Lemma attempt_counts payload body retry tr res tr' :
  normalize payload = inr body ->
  attempt srv sync_endpoint payload retry tr = (res, tr') ->
  count_requests tr' = S (count_requests tr).
Proof.
  intros Hn Hrun.
  destruct (attempt_shape _ _ _ _ _ _ Hn Hrun) as (evs & -> & Hevs).
  rewrite count_requests_app. unfold count_requests at 2.
  cbn [List.filter post_request is_request]. rewrite Hevs. cbn. lia.
Qed.

(** The attempts of a prefix that all failed leave the loop where the rest
    of the list starts. *)
Lemma retry_loop_app payload pre rest tr tr' :
  retry_loop srv sync_endpoint payload pre tr = (inr false, tr') ->
  retry_loop srv sync_endpoint payload (pre ++ rest) tr
  = retry_loop srv sync_endpoint payload rest tr'.
Proof.
  revert tr. induction pre as [|retry pre IH]; intros tr Hpre.
  - cbn in Hpre. injection Hpre as <-. reflexivity.
  - cbn [retry_loop app] in *. unfold bind in *.
    destruct (attempt srv sync_endpoint payload retry tr) as [[e|[|]] tr1];
      try discriminate Hpre.
    apply IH. exact Hpre.
Qed.

Lemma retry_loop_counts payload body rs tr tr' :
  normalize payload = inr body ->
  retry_loop srv sync_endpoint payload rs tr = (inr false, tr') ->
  count_requests tr' = (count_requests tr + length rs)%nat.
Proof.
  intros Hn. revert tr. induction rs as [|retry rs IH]; intros tr Hrun.
  - cbn in Hrun. injection Hrun as <-. cbn. lia.
  - cbn [retry_loop] in Hrun. unfold bind in Hrun.
    destruct (attempt srv sync_endpoint payload retry tr)
      as [[e|[|]] tr1] eqn:Hatt; try discriminate Hrun.
    rewrite (IH _ Hrun), (attempt_counts _ _ _ _ _ _ Hn Hatt).
    cbn [length]. lia.
Qed.

(** C4.  As soon as an attempt receives HTTP 200 with a body whose
    [success] is true, the retry loop ends with success and nothing is sent
    after that request; the requests sent are one per failed attempt before
    it, plus this one (three when the first two attempts failed). *)
Theorem success_ends_retry_loop payload body pre retry post tr tr' r d v :
  retries = pre ++ retry :: post ->
  normalize payload = inr body ->
  retry_loop srv sync_endpoint payload pre tr = (inr false, tr') ->
  srv (tr' ++ [post_request sync_endpoint body]) = Responded r ->
  status_code r = 200 ->
  json_body r = Some d ->
  py_get d "success" (PBool false) = inr v ->
  py_truthy v = true ->
  retry_loop srv sync_endpoint payload retries tr
  = (inr true, tr' ++ [post_request sync_endpoint body])
  /\ count_requests (tr' ++ [post_request sync_endpoint body])
     = (count_requests tr + length pre + 1)%nat.
Proof.
  intros Hrs Hn Hpre Hsrv Hst Hj Hget Hv. split.
  - rewrite Hrs, (retry_loop_app _ _ _ _ _ Hpre).
    cbn [retry_loop]. unfold bind.
    rewrite (attempt_success _ _ _ _ _ _ _ Hn Hsrv Hst Hj Hget Hv).
    reflexivity.
  - rewrite count_requests_app, (retry_loop_counts _ _ _ _ _ Hn Hpre).
    reflexivity.
Qed.

(** C10.  An attempt that receives HTTP 200 with a body that is not JSON
    does not end the run and does not succeed: the decoding error is caught
    by the [except Exception] clause, which prints the retry line and sleeps
    for two seconds, and the loop goes on with the next attempt. *)
Theorem unparseable_body_is_failed_attempt payload body retry rest tr r :
  normalize payload = inr body ->
  srv (tr ++ [post_request sync_endpoint body]) = Responded r ->
  status_code r = 200 ->
  json_body r = None ->
  attempt srv sync_endpoint payload retry tr
  = (inr false,
     tr ++ [post_request sync_endpoint body;
            EPrintRetryError (retry + 1) (Exn JSONDecodeError "Expecting value");
            ESleep 2])
  /\ retry_loop srv sync_endpoint payload (retry :: rest) tr
     = retry_loop srv sync_endpoint payload rest
         (tr ++ [post_request sync_endpoint body;
                 EPrintRetryError (retry + 1)
                   (Exn JSONDecodeError "Expecting value");
                 ESleep 2]).
Proof.
  intros Hn Hsrv Hst Hj.
  assert (Hatt : attempt srv sync_endpoint payload retry tr
                 = (inr false,
                    tr ++ [post_request sync_endpoint body;
                           EPrintRetryError (retry + 1)
                             (Exn JSONDecodeError "Expecting value");
                           ESleep 2])).
  { run_step. rewrite Hn, Hsrv, Hst, Hj. cbn.
    rewrite <- !app_assoc. reflexivity. }
  split; [exact Hatt|].
  cbn [retry_loop]. unfold bind. rewrite Hatt. reflexivity.
Qed.

(** An attempt answered with a status other than 200 fails after the
    retry line, the details of the answer and the sleep. *)
Lemma attempt_http_error payload body retry tr r :
  normalize payload = inr body ->
  srv (tr ++ [post_request sync_endpoint body]) = Responded r ->
  status_code r <> 200 ->
  attempt srv sync_endpoint payload retry tr
  = (inr false,
     tr ++ [post_request sync_endpoint body;
            EPrintRetryStatus (retry + 1) (status_code r);
            match json_body r with
            | Some error_data => EPrintErrorDetails error_data
            | None => EPrintResponseText (str_take 200 (text r))
            end;
            ESleep 2]).
Proof.
  intros Hn Hsrv Hst. run_step. rewrite Hn, Hsrv.
  destruct (Z.eqb_spec (status_code r) 200) as [Heq|_]; [contradiction|].
  destruct (json_body r); cbn; rewrite <- !app_assoc; reflexivity.
Qed.

(** When every answer has a status other than 200, the retry loop ends
    with [success] still [False]. *)
Lemma retry_loop_http_errors payload body :
  normalize payload = inr body ->
  (forall t, exists r, srv t = Responded r /\ status_code r <> 200) ->
  forall rs tr, exists tr',
    retry_loop srv sync_endpoint payload rs tr = (inr false, tr').
Proof.
  intros Hn Hsrv rs.
  induction rs as [|retry rs IH]; intros tr.
  - exists tr. reflexivity.
  - cbn [retry_loop]. unfold bind.
    destruct (Hsrv (tr ++ [post_request sync_endpoint body]))
      as (r & Hans & Hst).
    rewrite (attempt_http_error _ _ _ _ _ Hn Hans Hst). apply IH.
Qed.

(** An attempt answered with HTTP 200 and a dict whose [success] is not
    true fails after the error line and, when the dict has a list of
    validation errors, its first two entries: no sleep follows. *)
Lemma attempt_rejected payload body retry tr r fields v err :
  normalize payload = inr body ->
  srv (tr ++ [post_request sync_endpoint body]) = Responded r ->
  status_code r = 200 ->
  json_body r = Some (PDict fields) ->
  py_get (PDict fields) "success" (PBool false) = inr v ->
  py_truthy v = false ->
  py_get (PDict fields) "error" (PStr "Unknown error") = inr err ->
  attempt srv sync_endpoint payload retry tr
  = match assoc_lookup "validation_errors" fields with
    | None =>
        (inr false,
         tr ++ [post_request sync_endpoint body; EPrintApiError err])
    | Some (PList items) =>
        (inr false,
         tr ++ [post_request sync_endpoint body; EPrintApiError err;
                EPrintValidationErrors (PList (py_slice items 0 2))])
    | Some (PStr s) =>
        (inr false,
         tr ++ [post_request sync_endpoint body; EPrintApiError err;
                EPrintValidationErrors (PStr (str_take 2 s))])
    | Some _ =>
        (inr false,
         tr ++ [post_request sync_endpoint body; EPrintApiError err;
                EPrintRetryError (retry + 1)
                  (Exn TypeError "object is not subscriptable");
                ESleep 2])
    end.
Proof.
  intros Hn Hsrv Hst Hj Hget Hv Herr. run_step.
  rewrite Hn, Hsrv, Hst, Hj, Hget, Hv, Herr.
  unfold py_dict_contains, py_get.
  destruct (assoc_lookup "validation_errors" fields) as [errs|];
    [|cbn; rewrite <- !app_assoc; reflexivity].
  destruct errs; cbn; rewrite <- !app_assoc; reflexivity.
Qed.

(** *** What the loops send *)

Lemma requests_are_nil Q : requests_are Q [].
Proof. constructor. Qed.

Lemma requests_are_app Q a b :
  requests_are Q a -> requests_are Q b -> requests_are Q (a ++ b).
Proof. unfold requests_are. intros Ha Hb. apply Forall_app. split; assumption. Qed.

Lemma requests_are_weaken (Q Q' : event -> Prop) evs :
  (forall ev, Q ev -> Q' ev) -> requests_are Q evs -> requests_are Q' evs.
Proof.
  unfold requests_are. intros HQ H.
  eapply Forall_impl; [exact H|]. cbn. intros ev Hev Hreq. auto.
Qed.

Lemma requests_are_no_request Q evs :
  List.filter is_request evs = [] -> requests_are Q evs.
Proof.
  unfold requests_are. induction evs as [|ev evs IH]; intros Hf.
  - constructor.
  - cbn [List.filter] in Hf. destruct (is_request ev) eqn:Hev;
      [discriminate Hf|].
    constructor; [intros Habs; congruence|apply IH; exact Hf].
Qed.

(** The events of one attempt: at most one request, and it carries the
    serialised payload. *)
Lemma attempt_trace payload retry tr res tr' :
  attempt srv sync_endpoint payload retry tr = (res, tr') ->
  exists evs,
    tr' = tr ++ evs
    /\ requests_are
         (fun ev => exists body,
              normalize payload = inr body
              /\ ev = post_request sync_endpoint body) evs
    /\ (count_requests evs <= 1)%nat.
Proof.
  intros Hrun. destruct (normalize payload) as [e|body] eqn:Hn.
  - run_step. rewrite Hn in Hrun.
    destruct (isinstance_Exception e); cbn in Hrun;
      injection Hrun as <- <-.
    + rewrite <- ?app_assoc. eexists. split; [reflexivity|].
      split; [apply requests_are_no_request; reflexivity|cbn; lia].
    + exists []. rewrite app_nil_r. split; [reflexivity|].
      split; [apply requests_are_nil|cbn; lia].
  - destruct (attempt_shape _ _ _ _ _ _ Hn Hrun) as (evs & -> & Hevs).
    exists (post_request sync_endpoint body :: evs).
    split; [reflexivity|]. split.
    + constructor; [intros _; exists body; split; reflexivity|].
      apply requests_are_no_request. exact Hevs.
    + unfold count_requests. cbn [List.filter post_request is_request].
      rewrite Hevs. cbn. lia.
Qed.

Lemma retry_loop_trace payload rs tr res tr' :
  retry_loop srv sync_endpoint payload rs tr = (res, tr') ->
  exists evs,
    tr' = tr ++ evs
    /\ requests_are
         (fun ev => exists body,
              normalize payload = inr body
              /\ ev = post_request sync_endpoint body) evs
    /\ (count_requests evs <= length rs)%nat.
Proof.
  revert tr. induction rs as [|retry rs IH]; intros tr Hrun.
  - cbn in Hrun. injection Hrun as <- <-. exists [].
    rewrite app_nil_r. split; [reflexivity|].
    split; [apply requests_are_nil|cbn; lia].
  - cbn [retry_loop] in Hrun. unfold bind in Hrun.
    destruct (attempt srv sync_endpoint payload retry tr)
      as [[e|b] tr1] eqn:Hatt;
      destruct (attempt_trace _ _ _ _ _ Hatt) as (evs1 & -> & Hq1 & Hc1).
    + injection Hrun as <- <-. exists evs1.
      split; [reflexivity|]. split; [exact Hq1|cbn [length]; lia].
    + destruct b.
      * injection Hrun as <- <-. exists evs1.
        split; [reflexivity|]. split; [exact Hq1|cbn [length]; lia].
      * destruct (IH _ Hrun) as (evs2 & -> & Hq2 & Hc2).
        exists (evs1 ++ evs2). rewrite app_assoc.
        split; [reflexivity|].
        split; [apply requests_are_app; assumption|].
        rewrite count_requests_app. cbn [length]. lia.
Qed.

(** *** Fail-fast: the loops over chunks and tables *)

Variable cfg : config.

(** The serialised payload of a chunk names the table of the chunk. *)
Lemma payload_names_table table_name chunk body :
  normalize (build_payload cfg table_name chunk) = inr body ->
  request_table (post_request sync_endpoint body) = Some table_name.
Proof.
  unfold build_payload. rewrite normalize_PDict. cbn [normalize_fields].
  destruct (normalize _) as [e|db]; [discriminate|].
  destruct (normalize (PList chunk)) as [e|items]; [discriminate|].
  intros H. injection H as <-. reflexivity.
Qed.

Lemma transfer_chunk_trace table_name total chunk_index chunk tr res tr' :
  transfer_chunk srv cfg sync_endpoint table_name total chunk_index chunk tr
  = (res, tr') ->
  exists evs,
    tr' = tr ++ evs
    /\ requests_are (fun ev => request_table ev = Some table_name) evs
    /\ (count_requests evs <= 3)%nat.
Proof.
  unfold transfer_chunk, bind, emit, ret. intros Hrun.
  destruct (retry_loop _ _ _ _ _) as [[e|b] tr1] eqn:Hloop;
    destruct (retry_loop_trace _ _ _ _ _ Hloop) as (evs & -> & Hq & Hc);
    cbn [length retries] in Hc;
    assert (Hq' : requests_are
                    (fun ev => request_table ev = Some table_name) evs)
      by (eapply requests_are_weaken; [|exact Hq];
          intros ev (body & Hn & ->);
          eapply payload_names_table; exact Hn).
  - injection Hrun as <- <-. rewrite <- app_assoc.
    eexists. split; [reflexivity|].
    split; [apply requests_are_app;
            [apply requests_are_no_request; reflexivity|exact Hq']|].
    rewrite count_requests_app. cbn. exact Hc.
  - destruct b; injection Hrun as <- <-; rewrite <- !app_assoc;
      (eexists; split; [reflexivity|]);
      (split;
       [apply requests_are_app;
        [apply requests_are_no_request; reflexivity|];
        apply requests_are_app;
        [exact Hq'|apply requests_are_no_request; reflexivity]|]);
      rewrite !count_requests_app; cbn; lia.
Qed.

Lemma chunk_loop_trace table_name total indexed tr res tr' :
  chunk_loop srv cfg sync_endpoint table_name total indexed tr = (res, tr') ->
  exists evs,
    tr' = tr ++ evs
    /\ requests_are (fun ev => request_table ev = Some table_name) evs
    /\ (count_requests evs <= 3 * length indexed)%nat.
Proof.
  revert tr. induction indexed as [|[idx chunk] rest IH]; intros tr Hrun.
  - cbn in Hrun. injection Hrun as <- <-. exists [].
    rewrite app_nil_r. split; [reflexivity|].
    split; [apply requests_are_nil|cbn; lia].
  - cbn [chunk_loop] in Hrun. unfold bind in Hrun.
    destruct (transfer_chunk _ _ _ _ _ _ _ _) as [[e|b] tr1] eqn:Hc;
      destruct (transfer_chunk_trace _ _ _ _ _ _ _ Hc)
        as (evs1 & -> & Hq1 & Hc1).
    + injection Hrun as <- <-. exists evs1.
      split; [reflexivity|]. split; [exact Hq1|cbn [length]; lia].
    + destruct b.
      * destruct (IH _ Hrun) as (evs2 & -> & Hq2 & Hc2).
        exists (evs1 ++ evs2). rewrite app_assoc.
        split; [reflexivity|].
        split; [apply requests_are_app; assumption|].
        rewrite count_requests_app. cbn [length]. lia.
      * injection Hrun as <- <-. exists evs1.
        split; [reflexivity|]. split; [exact Hq1|cbn [length]; lia].
Qed.

Lemma transfer_table_trace data table_index table_name tr res tr' :
  transfer_table srv cfg sync_endpoint data table_index table_name tr
  = (res, tr') ->
  exists evs,
    tr' = tr ++ evs
    /\ requests_are (fun ev => request_table ev = Some table_name) evs.
Proof.
  unfold transfer_table. intros Hrun.
  destruct (data !! table_name) as [rows|].
  - destruct rows as [|row0 rows].
    + unfold bind, emit, ret in Hrun. injection Hrun as <- <-.
      eexists. split; [reflexivity|].
      apply requests_are_no_request. reflexivity.
    + unfold bind, emit, lift in Hrun.
      destruct (chunk_data _ _) as [e|chunks].
      * injection Hrun as <- <-. eexists. split; [reflexivity|].
        apply requests_are_no_request. reflexivity.
      * destruct (chunk_loop _ _ _ _ _ _ _) as [[e|b] tr1] eqn:Hloop;
          destruct (chunk_loop_trace _ _ _ _ _ _ Hloop)
            as (evs & -> & Hq & _).
        -- injection Hrun as <- <-. rewrite <- app_assoc.
           eexists. split; [reflexivity|].
           apply requests_are_app;
             [apply requests_are_no_request; reflexivity|exact Hq].
        -- destruct b; unfold ret in Hrun; injection Hrun as <- <-;
             rewrite <- !app_assoc; (eexists; split; [reflexivity|]);
             apply requests_are_app;
             try (apply requests_are_no_request; reflexivity);
             try exact Hq.
           apply requests_are_app;
             [exact Hq|apply requests_are_no_request; reflexivity].
  - unfold ret in Hrun. injection Hrun as <- <-. exists [].
    rewrite app_nil_r. split; [reflexivity|apply requests_are_nil].
Qed.

Lemma table_loop_trace data indexed tr res tr' :
  table_loop srv cfg sync_endpoint data indexed tr = (res, tr') ->
  exists evs,
    tr' = tr ++ evs
    /\ requests_are
         (fun ev => exists t, In t (map snd indexed)
                              /\ request_table ev = Some t) evs.
Proof.
  revert tr. induction indexed as [|[idx name] rest IH]; intros tr Hrun.
  - cbn in Hrun. injection Hrun as <- <-. exists [].
    rewrite app_nil_r. split; [reflexivity|apply requests_are_nil].
  - cbn [table_loop] in Hrun. unfold bind in Hrun.
    destruct (transfer_table _ _ _ _ _ _ _) as [[e|b] tr1] eqn:Ht;
      destruct (transfer_table_trace _ _ _ _ _ _ Ht) as (evs1 & -> & Hq1);
      assert (Hq1' : requests_are
                       (fun ev => exists t,
                            In t (map snd ((idx, name) :: rest))
                            /\ request_table ev = Some t) evs1)
        by (eapply requests_are_weaken; [|exact Hq1];
            intros ev Hev; exists name; split; [left; reflexivity|exact Hev]).
    + injection Hrun as <- <-. exists evs1. split; [reflexivity|exact Hq1'].
    + destruct b.
      * destruct (IH _ Hrun) as (evs2 & -> & Hq2).
        exists (evs1 ++ evs2). rewrite app_assoc. split; [reflexivity|].
        apply requests_are_app; [exact Hq1'|].
        eapply requests_are_weaken; [|exact Hq2].
        intros ev (t0 & Hin & Hev). exists t0. split; [right; exact Hin|exact Hev].
      * injection Hrun as <- <-. exists evs1.
        split; [reflexivity|exact Hq1'].
Qed.

Lemma transfer_chunk_failure table_name total chunk_index chunk tr tr' :
  retry_loop srv sync_endpoint (build_payload cfg table_name chunk) retries
    (tr ++ [EProgress (chunk_index - 1) total]) = (inr false, tr') ->
  transfer_chunk srv cfg sync_endpoint table_name total chunk_index chunk tr
  = (inr false, tr' ++ [EProgress chunk_index total; EPrintFailed table_name]).
Proof.
  intros Hrun. unfold transfer_chunk, bind, emit, ret.
  rewrite Hrun. rewrite <- app_assoc. reflexivity.
Qed.

Lemma chunk_loop_app table_name total pre rest tr tr' :
  chunk_loop srv cfg sync_endpoint table_name total pre tr = (inr true, tr') ->
  chunk_loop srv cfg sync_endpoint table_name total (pre ++ rest) tr
  = chunk_loop srv cfg sync_endpoint table_name total rest tr'.
Proof.
  revert tr. induction pre as [|[idx chunk] pre IH]; intros tr Hpre.
  - cbn in Hpre. injection Hpre as <-. reflexivity.
  - cbn [chunk_loop app] in *. unfold bind in *.
    destruct (transfer_chunk srv cfg sync_endpoint table_name total idx
                chunk tr) as [[e|[|]] tr1]; try discriminate Hpre.
    apply IH. exact Hpre.
Qed.

(** A chunk whose three attempts fail ends the loop over the chunks: the
    chunks after it are not looked at. *)
Lemma chunk_loop_fail_fast table_name total pre idx chunk post tr tr1 tr2 :
  chunk_loop srv cfg sync_endpoint table_name total pre tr = (inr true, tr1) ->
  retry_loop srv sync_endpoint (build_payload cfg table_name chunk) retries
    (tr1 ++ [EProgress (idx - 1) total]) = (inr false, tr2) ->
  chunk_loop srv cfg sync_endpoint table_name total
    (pre ++ (idx, chunk) :: post) tr
  = (inr false, tr2 ++ [EProgress idx total; EPrintFailed table_name]).
Proof.
  intros Hpre Hrun.
  rewrite (chunk_loop_app _ _ _ _ _ _ Hpre).
  cbn [chunk_loop]. unfold bind.
  rewrite (transfer_chunk_failure _ _ _ _ _ _ Hrun). reflexivity.
Qed.

Lemma transfer_table_fail_fast data table_index table_name rows chunks
      pre idx chunk post tr tr1 tr2 :
  data !! table_name = Some rows ->
  rows <> [] ->
  chunk_data rows default_chunk_size = inr chunks ->
  enumerate1 chunks = pre ++ (idx, chunk) :: post ->
  chunk_loop srv cfg sync_endpoint table_name (length chunks) pre
    (tr ++ [EPrintSyncing table_index (length rows) table_name])
  = (inr true, tr1) ->
  retry_loop srv sync_endpoint (build_payload cfg table_name chunk) retries
    (tr1 ++ [EProgress (idx - 1) (length chunks)]) = (inr false, tr2) ->
  transfer_table srv cfg sync_endpoint data table_index table_name tr
  = (inr false,
     tr2 ++ [EProgress idx (length chunks); EPrintFailed table_name]).
Proof.
  intros Hdata Hrows Hchunks Henum Hpre Hrun.
  unfold transfer_table. rewrite Hdata.
  destruct rows as [|row0 rows']; [contradiction|].
  unfold bind, emit, lift. rewrite Hchunks, Henum.
  rewrite (chunk_loop_fail_fast _ _ _ _ _ _ _ _ _ Hpre Hrun). reflexivity.
Qed.

Lemma table_loop_app data pre rest tr tr' :
  table_loop srv cfg sync_endpoint data pre tr = (inr true, tr') ->
  table_loop srv cfg sync_endpoint data (pre ++ rest) tr
  = table_loop srv cfg sync_endpoint data rest tr'.
Proof.
  revert tr. induction pre as [|[idx name] pre IH]; intros tr Hpre.
  - cbn in Hpre. injection Hpre as <-. reflexivity.
  - cbn [table_loop app] in *. unfold bind in *.
    destruct (transfer_table srv cfg sync_endpoint data idx name tr)
      as [[e|[|]] tr1]; try discriminate Hpre.
    apply IH. exact Hpre.
Qed.

(** C2.  When a chunk of a table fails all three attempts, the transfer of
    that chunk reports failure and the transfer of the table ends there with
    failure: the trace closes with the failed chunk, whatever chunks follow
    it; the failed chunk was sent three times; and the trace holds at most
    three requests for each chunk up to the failed one, so no later chunk
    is sent. *)
Theorem failed_chunk_aborts_table data table_index table_name rows chunks
        pre idx chunk post tr tr1 tr2 :
  data !! table_name = Some rows ->
  rows <> [] ->
  chunk_data rows default_chunk_size = inr chunks ->
  enumerate1 chunks = pre ++ (idx, chunk) :: post ->
  chunk_loop srv cfg sync_endpoint table_name (length chunks) pre
    (tr ++ [EPrintSyncing table_index (length rows) table_name])
  = (inr true, tr1) ->
  retry_loop srv sync_endpoint (build_payload cfg table_name chunk) retries
    (tr1 ++ [EProgress (idx - 1) (length chunks)]) = (inr false, tr2) ->
  transfer_chunk srv cfg sync_endpoint table_name (length chunks) idx chunk
    tr1
  = (inr false,
     tr2 ++ [EProgress idx (length chunks); EPrintFailed table_name])
  /\ transfer_table srv cfg sync_endpoint data table_index table_name tr
     = (inr false,
        tr2 ++ [EProgress idx (length chunks); EPrintFailed table_name])
  /\ (forall body,
         normalize (build_payload cfg table_name chunk) = inr body ->
         count_requests tr2 = (count_requests tr1 + 3)%nat)
  /\ exists evs,
       tr2 ++ [EProgress idx (length chunks); EPrintFailed table_name]
       = tr ++ evs
       /\ (count_requests evs <= 3 * (length pre + 1))%nat.
Proof.
  intros Hdata Hrows Hchunks Henum Hpre Hrun.
  split; [apply transfer_chunk_failure; exact Hrun|].
  split; [|split].
  - eapply transfer_table_fail_fast; eassumption.
  - intros body Hn.
    rewrite (retry_loop_counts _ _ _ _ _ Hn Hrun), count_requests_app.
    cbn. lia.
  - pose proof (chunk_loop_fail_fast _ _ _ _ _ [] _ _ _ Hpre Hrun) as Hloop.
    destruct (chunk_loop_trace _ _ _ _ _ _ Hloop) as (evs & Heq & _ & Hc).
    exists (EPrintSyncing table_index (length rows) table_name :: evs).
    split.
    + rewrite Heq, <- app_assoc. reflexivity.
    + rewrite length_app in Hc. cbn [length] in Hc.
      change (count_requests (EPrintSyncing table_index (length rows)
                                table_name :: evs))
        with (count_requests evs).
      exact Hc.
Qed.

End EngineFacts.

Lemma tables_to_sync_NoDup : NoDup (map snd (enumerate1 tables_to_sync)).
Proof. apply (bool_decide_unpack _). vm_compute. exact I. Qed.

(** C9.  A chunk that fails all three attempts ends the whole run: when the
    tables before it were transferred and a chunk of this table fails,
    [sync_data_to_api] returns [False] with a trace that closes with the
    failed chunk, and no request of the run is about a table that comes
    later in the fixed order. *)
Theorem failed_chunk_aborts_run srv cfg base data tpre table_index table_name
        tpost rows chunks pre idx chunk post tr tr0 tr1 tr2 :
  cfg_api_url cfg = Some base ->
  enumerate1 tables_to_sync = tpre ++ (table_index, table_name) :: tpost ->
  table_loop srv cfg (base ++ "/api/sync") data tpre tr = (inr true, tr0) ->
  data !! table_name = Some rows ->
  rows <> [] ->
  chunk_data rows default_chunk_size = inr chunks ->
  enumerate1 chunks = pre ++ (idx, chunk) :: post ->
  chunk_loop srv cfg (base ++ "/api/sync") table_name (length chunks) pre
    (tr0 ++ [EPrintSyncing table_index (length rows) table_name])
  = (inr true, tr1) ->
  retry_loop srv (base ++ "/api/sync") (build_payload cfg table_name chunk)
    retries (tr1 ++ [EProgress (idx - 1) (length chunks)]) = (inr false, tr2) ->
  sync_data_to_api srv data cfg tr
  = (inr false,
     tr2 ++ [EProgress idx (length chunks); EPrintFailed table_name])
  /\ exists evs,
       tr2 ++ [EProgress idx (length chunks); EPrintFailed table_name]
       = tr ++ evs
       /\ forall ev later,
           In ev evs -> is_request ev = true ->
           In later (map snd tpost) ->
           request_table ev <> Some later.
Proof.
  intros Hurl Htables Htpre Hdata Hrows Hchunks Henum Hpre Hrun.
  pose proof (transfer_table_fail_fast _ _ _ _ _ _ _ _ _ _ _ _ _ _ _
                Hdata Hrows Hchunks Henum Hpre Hrun) as Htable.
  split.
  - unfold sync_data_to_api, try_except, bind, config_key.
    rewrite Hurl. unfold ret at 1.
    rewrite Htables, (table_loop_app _ _ _ _ _ _ _ _ Htpre).
    cbn [table_loop]. unfold bind. rewrite Htable. reflexivity.
  - assert (Hloop : table_loop srv cfg (base ++ "/api/sync") data
                      (tpre ++ [(table_index, table_name)]) tr
                    = (inr false,
                       tr2 ++ [EProgress idx (length chunks);
                               EPrintFailed table_name])).
    { rewrite (table_loop_app _ _ _ _ _ _ _ _ Htpre).
      cbn [table_loop]. unfold bind. rewrite Htable. reflexivity. }
    destruct (table_loop_trace _ _ _ _ _ _ _ _ Hloop) as (evs & Heq & Hq).
    exists evs. split; [exact Heq|].
    intros ev later Hin Hreq Hlater Habs.
    unfold requests_are in Hq. rewrite Forall_forall in Hq.
    destruct (Hq ev (proj2 (list_elem_of_In _ _) Hin) Hreq) as (t & Ht & Hev).
    assert (t = later) by congruence. subst t.
    pose proof tables_to_sync_NoDup as Hnd.
    rewrite Htables in Hnd.
    replace (tpre ++ (table_index, table_name) :: tpost)
      with ((tpre ++ [(table_index, table_name)]) ++ tpost) in Hnd
      by (rewrite <- app_assoc; reflexivity).
    rewrite map_app in Hnd.
    apply NoDup_app in Hnd as (_ & Hdisj & _).
    apply (Hdisj later); apply list_elem_of_In; assumption.
Qed.

(** *** The engine on concrete remote sides *)

Import Scenario.

Lemma success_ends_retry_loop_witness :
  retry_loop server_third_time sync_url payload_one_row retries []
  = (inr true,
     [post_request sync_url payload_one_row;
      EPrintRetryError 1 (Exn ConnectionError "connection refused");
      ESleep 2;
      post_request sync_url payload_one_row;
      EPrintRetryError 2 (Exn ConnectionError "connection refused");
      ESleep 2;
      post_request sync_url payload_one_row])
  /\ count_requests
       [post_request sync_url payload_one_row;
        EPrintRetryError 1 (Exn ConnectionError "connection refused");
        ESleep 2;
        post_request sync_url payload_one_row;
        EPrintRetryError 2 (Exn ConnectionError "connection refused");
        ESleep 2;
        post_request sync_url payload_one_row] = 3%nat.
Proof.
  apply (success_ends_retry_loop server_third_time sync_url payload_one_row
           payload_one_row [0; 1] 2 [] []
           [post_request sync_url payload_one_row;
            EPrintRetryError 1 (Exn ConnectionError "connection refused");
            ESleep 2;
            post_request sync_url payload_one_row;
            EPrintRetryError 2 (Exn ConnectionError "connection refused");
            ESleep 2]
           (Response 200 (Some success_body) "") success_body (PBool true));
    reflexivity.
Defined.

Lemma unparseable_body_is_failed_attempt_witness :
  attempt server_html sync_url payload_one_row 0 []
  = (inr false,
     [post_request sync_url payload_one_row;
      EPrintRetryError 1 (Exn JSONDecodeError "Expecting value");
      ESleep 2])
  /\ fst (retry_loop server_html sync_url payload_one_row retries [])
     = inr false.
Proof.
  destruct (unparseable_body_is_failed_attempt server_html sync_url
              payload_one_row payload_one_row 0 [1; 2] []
              (Response 200 None "<html>OK</html>")
              eq_refl eq_refl eq_refl eq_refl) as [Hatt Hloop].
  split; [exact Hatt|].
  change retries with (0 :: [1; 2]). rewrite Hloop. reflexivity.
Defined.

Lemma failed_chunk_aborts_table_witness :
  transfer_table server_500 cfg sync_url data_two_chunks 1 "acc_product" []
  = (inr false,
     snd (retry_loop server_500 sync_url
            (build_payload cfg "acc_product" chunk_a) retries
            [EPrintSyncing 1 1001 "acc_product"; EProgress 0 2])
       ++ [EProgress 1 2; EPrintFailed "acc_product"])
  /\ count_requests
       (snd (transfer_table server_500 cfg sync_url data_two_chunks 1
               "acc_product" [])) = 3%nat.
Proof.
  destruct (failed_chunk_aborts_table server_500 sync_url cfg data_two_chunks
              1%nat "acc_product"%string rows_1001 [chunk_a; chunk_b]
              [] 1%nat chunk_a [(2%nat, chunk_b)] []
              [EPrintSyncing 1 1001 "acc_product"]
              (snd (retry_loop server_500 sync_url
                      (build_payload cfg "acc_product" chunk_a) retries
                      [EPrintSyncing 1 1001 "acc_product"; EProgress 0 2])))
    as (_ & Htable & _ & _).
  - vm_compute. reflexivity.
  - discriminate.
  - vm_compute. reflexivity.
  - reflexivity.
  - reflexivity.
  - vm_compute. reflexivity.
  - split; [exact Htable|]. rewrite Htable. vm_compute. reflexivity.
Defined.

Lemma failed_chunk_aborts_run_witness :
  fst (sync_data_to_api server_ok_then_500 data_one_row cfg []) = inr false
  /\ map request_table
       (List.filter is_request
          (snd (sync_data_to_api server_ok_then_500 data_one_row cfg [])))
     = [Some "acc_product"; Some "acc_invmast"; Some "acc_invmast";
        Some "acc_invmast"]%string.
Proof.
  destruct (failed_chunk_aborts_run server_ok_then_500 cfg "http://api"
              data_one_row [(1%nat, "acc_product"%string)]
              2%nat "acc_invmast"%string
              [(3%nat, "acc_invdetails"%string);
               (4%nat, "acc_purchasemaster"%string);
               (5%nat, "acc_purchasedetails"%string);
               (6%nat, "acc_production"%string);
               (7%nat, "acc_productiondetails"%string)]
              [row 2] [[row 2]] [] 1%nat [row 2] [] []
              (snd (table_loop server_ok_then_500 cfg sync_url data_one_row
                      [(1%nat, "acc_product"%string)] []))
              (snd (table_loop server_ok_then_500 cfg sync_url data_one_row
                      [(1%nat, "acc_product"%string)] [])
                 ++ [EPrintSyncing 2 1 "acc_invmast"])
              (snd (retry_loop server_ok_then_500 sync_url
                      (build_payload cfg "acc_invmast" [row 2]) retries
                      (snd (table_loop server_ok_then_500 cfg sync_url
                              data_one_row
                              [(1%nat, "acc_product"%string)] [])
                         ++ [EPrintSyncing 2 1 "acc_invmast";
                             EProgress 0 1]))))
    as (Hrun & _).
  - reflexivity.
  - reflexivity.
  - vm_compute. reflexivity.
  - vm_compute. reflexivity.
  - discriminate.
  - vm_compute. reflexivity.
  - reflexivity.
  - reflexivity.
  - vm_compute. reflexivity.
  - rewrite Hrun. split; [reflexivity|]. vm_compute. reflexivity.
Defined.

(** C3 (the code against the claim).  A payload that the remote side
    rejects with HTTP 200 and [success: false] is logged, with the first two
    validation errors, and uses up one attempt, but no sleep precedes the
    next attempt: the three requests follow each other at once.  The
    attempts that end in HTTP 500 do sleep two seconds each. *)
Theorem rejected_payload_is_retried_without_backoff :
  retry_loop server_rejecting sync_url payload_one_row retries []
  = (inr false,
     [post_request sync_url payload_one_row;
      EPrintApiError (PStr "invalid rows");
      EPrintValidationErrors (PList [PStr "row 1"; PStr "row 2"]);
      post_request sync_url payload_one_row;
      EPrintApiError (PStr "invalid rows");
      EPrintValidationErrors (PList [PStr "row 1"; PStr "row 2"]);
      post_request sync_url payload_one_row;
      EPrintApiError (PStr "invalid rows");
      EPrintValidationErrors (PList [PStr "row 1"; PStr "row 2"])])
  /\ List.filter is_sleep
       (snd (retry_loop server_rejecting sync_url payload_one_row retries []))
     = []
  /\ List.filter is_sleep
       (snd (retry_loop server_500 sync_url payload_one_row retries []))
     = [ESleep 2; ESleep 2; ESleep 2].
Proof. repeat split; vm_compute; reflexivity. Qed.

(** ** The diagnostics probe *)

Import Diagnostics.

Section ProbeFacts.

Variable srv : server.
Variable base key : string.

Ltac close_probe :=
  eexists; split; [rewrite <- ?app_assoc; cbn [app]; reflexivity|reflexivity].

Ltac probe_step :=
  unfold probe_endpoint, requests_options, try_except, bind, request, emit,
    ret, raise in *.

(** What one pass of the loop does, by the answer to its request. *)
Lemma probe_endpoint_cases endpoint method description results tr :
  let tr1 :=
    tr ++ [ELog ("Testing " ++ method_name method ++ " " ++ (base ++ endpoint))%string;
           probe_request base key endpoint] in
  match srv tr1 with
  | Responded r =>
      exists logs,
        probe_endpoint srv base (probe_headers key)
          (endpoint, method, description) results tr
        = (inr (results ++
                  [ProbeResult endpoint (method_name method)
                     (Some (status_code r))
                     (if status_code r <? 500 then "AVAILABLE" else "ERROR")
                     (str_contains debug_marker (text r))]),
           tr1 ++ logs)
        /\ List.filter is_request logs = []
  | Raised e =>
      if isinstance_Timeout e then
        exists logs,
          probe_endpoint srv base (probe_headers key)
            (endpoint, method, description) results tr
          = (inr (results ++
                    [ProbeResult endpoint (method_name method) None
                       "TIMEOUT" false]),
             tr1 ++ logs)
          /\ List.filter is_request logs = []
      else if isinstance_ConnectionError e then
        exists logs,
          probe_endpoint srv base (probe_headers key)
            (endpoint, method, description) results tr
          = (inr (results ++
                    [ProbeResult endpoint (method_name method) None
                       "CONNECTION ERROR" false]),
             tr1 ++ logs)
          /\ List.filter is_request logs = []
      else if isinstance_Exception e then
        exists logs,
          probe_endpoint srv base (probe_headers key)
            (endpoint, method, description) results tr
          = (inr (results ++
                    [ProbeResult endpoint (method_name method) None
                       ("ERROR: " ++ exn_msg e) false]),
             tr1 ++ logs)
          /\ List.filter is_request logs = []
      else
        probe_endpoint srv base (probe_headers key)
          (endpoint, method, description) results tr
        = (inl e, tr1)
  end.
Proof.
  intros tr1. subst tr1. unfold probe_request. probe_step.
  destruct method; cbn [method_name]; cbv beta;
    rewrite <- !app_assoc; cbn [app];
    (destruct (srv _) as [r|e]; cbn [handle];
     [ unfold classify;
       destruct (str_contains debug_marker (text r)); close_probe
     | destruct (isinstance_Timeout e); [close_probe|];
       destruct (isinstance_ConnectionError e); [close_probe|];
       destruct (isinstance_Exception e); [close_probe|reflexivity] ]).
Qed.

Lemma filter_request_app (a b : list event) :
  List.filter is_request (a ++ b)
  = List.filter is_request a ++ List.filter is_request b.
Proof. apply List.filter_app. Qed.

(** One pass of the loop sends exactly one request, the OPTIONS request of
    its endpoint, and either adds the record of that endpoint or lets an
    exception pass that is not an [Exception]. *)
Lemma probe_endpoint_trace endpoint method description results tr res tr' :
  probe_endpoint srv base (probe_headers key) (endpoint, method, description)
    results tr = (res, tr') ->
  exists evs,
    tr' = tr ++ evs
    /\ List.filter is_request evs = [probe_request base key endpoint]
    /\ match res with
       | inr results' =>
           exists record,
             results' = results ++ [record] /\ pr_endpoint record = endpoint
       | inl e => isinstance_Exception e = false
       end.
Proof.
  intros Hrun.
  pose proof (probe_endpoint_cases endpoint method description results tr)
    as Hcases.
  cbv zeta in Hcases.
  assert (Hshape : forall logs,
             List.filter is_request logs = [] ->
             List.filter is_request
               ([ELog ("Testing " ++ method_name method ++ " "
                          ++ (base ++ endpoint))%string;
                 probe_request base key endpoint] ++ logs)
             = [probe_request base key endpoint]).
  { intros logs Hlogs. rewrite filter_request_app, Hlogs. reflexivity. }
  destruct (srv _) as [r|e].
  - destruct Hcases as (logs & Heq & Hlogs).
    rewrite Heq in Hrun. injection Hrun as <- <-.
    eexists. split; [rewrite <- app_assoc; reflexivity|].
    split; [apply Hshape; exact Hlogs|].
    eexists. split; reflexivity.
  - destruct (isinstance_Timeout e);
      [|destruct (isinstance_ConnectionError e);
        [|destruct (isinstance_Exception e) eqn:Hexc]];
      try (destruct Hcases as (logs & Heq & Hlogs);
           rewrite Heq in Hrun; injection Hrun as <- <-;
           eexists; (split; [rewrite <- app_assoc; reflexivity|]);
           (split; [apply Hshape; exact Hlogs|]);
           eexists; split; reflexivity).
    rewrite Hcases in Hrun. injection Hrun as <- <-.
    eexists. split; [reflexivity|]. split; [reflexivity|exact Hexc].
Qed.

(** The loop sends the requests of its endpoints in order; it ends early
    only on an exception that is not an [Exception]. *)
Lemma probe_loop_trace entries results tr res tr' :
  probe_loop srv base (probe_headers key) entries results tr = (res, tr') ->
  exists evs (n : nat),
    tr' = tr ++ evs
    /\ List.filter is_request evs
       = map (fun entry => probe_request base key (entry_endpoint entry))
           (take n entries)
    /\ match res with
       | inr results' =>
           n = length entries
           /\ map pr_endpoint results'
              = map pr_endpoint results ++ map entry_endpoint entries
       | inl e => isinstance_Exception e = false
       end.
Proof.
  revert results tr.
  induction entries as [|[[endpoint method] description] rest IH];
    intros results tr Hrun.
  - cbn in Hrun. injection Hrun as <- <-. exists [], 0%nat.
    rewrite !app_nil_r. repeat split; reflexivity.
  - cbn [probe_loop] in Hrun. unfold bind in Hrun.
    destruct (probe_endpoint _ _ _ _ _ _) as [[e|results1] tr1] eqn:Hone;
      destruct (probe_endpoint_trace _ _ _ _ _ _ _ Hone)
        as (evs1 & -> & Hreq1 & Hres1).
    + injection Hrun as <- <-. exists evs1, 1%nat.
      split; [reflexivity|]. split; [exact Hreq1|exact Hres1].
    + destruct Hres1 as (record & -> & Hrec).
      destruct (IH _ _ Hrun) as (evs2 & n & -> & Hreq2 & Hres2).
      exists (evs1 ++ evs2), (S n). rewrite app_assoc.
      split; [reflexivity|].
      split; [rewrite filter_request_app, Hreq1, Hreq2; reflexivity|].
      destruct res as [e|results']; [exact Hres2|].
      destruct Hres2 as [-> Hmap]. split; [reflexivity|].
      rewrite Hmap, map_app. cbn [map entry_endpoint fst].
      rewrite Hrec, <- app_assoc. reflexivity.
Qed.

End ProbeFacts.

Lemma log_issues_total errors tr :
  exists logs,
    log_issues errors tr = (inr tt, tr ++ logs)
    /\ List.filter is_request logs = [].
Proof.
  revert tr. induction errors as [|error rest IH]; intros tr.
  - exists []. rewrite app_nil_r. split; reflexivity.
  - cbn [log_issues]. unfold bind, emit.
    destruct (IH (tr ++ [ELog ("  - " ++ pr_method error ++ " "
                                 ++ pr_endpoint error ++ ": "
                                 ++ pr_status error)%string]))
      as (logs & -> & Hlogs).
    eexists. split; [rewrite <- app_assoc; reflexivity|].
    cbn [app List.filter is_request]. exact Hlogs.
Qed.

Lemma no_issue_iff_all_available results :
  Nat.eqb (length (List.filter is_issue results)) 0
  = forallb is_available results.
Proof.
  induction results as [|r rest IH]; [reflexivity|].
  cbn [List.filter forallb]. unfold is_issue at 1, is_available at 1.
  destruct (String.eqb (pr_status r) "AVAILABLE"); cbn; [exact IH|reflexivity].
Qed.

(** The summary always returns, with the verdict that every record is
    AVAILABLE, and sends nothing. *)
Lemma summarize_total results tr :
  exists logs,
    summarize results tr = (inr (forallb is_available results), tr ++ logs)
    /\ List.filter is_request logs = [].
Proof.
  unfold summarize, bind, emit, ret.
  rewrite no_issue_iff_all_available.
  destruct (List.filter is_issue results) as [|error errors] eqn:Herr.
  - destruct (existsb pr_debug_mode results);
      eexists; (split; [rewrite <- ?app_assoc; reflexivity|reflexivity]).
  - destruct (log_issues_total (error :: errors)
                ((tr ++ [ELog "===== DIAGNOSTICS SUMMARY ====="])
                   ++ [ELog "Found endpoint issues:"]))
      as (logs & -> & Hlogs).
    destruct (existsb pr_debug_mode results);
      eexists; (split; [rewrite <- ?app_assoc; reflexivity|]);
      cbn [app List.filter is_request];
      rewrite ?filter_request_app, Hlogs; reflexivity.
Qed.

Lemma probe_endpoint_classified srv base key endpoint method description
      results tr status :
  spec_classification
    (srv (tr ++ [ELog ("Testing " ++ method_name method ++ " "
                         ++ (base ++ endpoint))%string;
                 probe_request base key endpoint])) = Some status ->
  exists record logs,
    probe_endpoint srv base (probe_headers key)
      (endpoint, method, description) results tr
    = (inr (results ++ [record]),
       tr ++ [ELog ("Testing " ++ method_name method ++ " "
                      ++ (base ++ endpoint))%string;
              probe_request base key endpoint] ++ logs)
    /\ pr_endpoint record = endpoint
    /\ pr_method record = method_name method
    /\ pr_status record = status.
Proof.
  intros Hcls.
  pose proof (probe_endpoint_cases srv base key endpoint method description
                results tr) as Hcases.
  cbv zeta in Hcases. unfold spec_classification in Hcls.
  destruct (srv _) as [r|e].
  - injection Hcls as <-. destruct Hcases as (logs & Heq & _).
    eexists; exists logs. rewrite Heq, <- app_assoc.
    repeat split; reflexivity.
  - destruct (isinstance_Timeout e);
      [|destruct (isinstance_ConnectionError e);
        [|destruct (isinstance_Exception e); [|discriminate Hcls]]];
      injection Hcls as <-; destruct Hcases as (logs & Heq & _);
      eexists; exists logs; rewrite Heq, <- app_assoc;
      repeat split; reflexivity.
Qed.

Lemma probe_loop_returns srv base key :
  (forall t e, srv t = Raised e -> isinstance_Exception e = true) ->
  forall entries results tr,
  exists results' tr',
    probe_loop srv base (probe_headers key) entries results tr
    = (inr results', tr').
Proof.
  intros Hsrv entries.
  induction entries as [|[[endpoint method] description] rest IH];
    intros results tr.
  - exists results, tr. reflexivity.
  - cbn [probe_loop]. unfold bind.
    destruct (spec_classification
                (srv (tr ++ [ELog ("Testing " ++ method_name method ++ " "
                                     ++ (base ++ endpoint))%string;
                             probe_request base key endpoint])))
      as [status|] eqn:Hcls.
    + destruct (probe_endpoint_classified _ _ _ _ _ description results _ _
                  Hcls) as (record & logs & -> & _).
      apply IH.
    + unfold spec_classification in Hcls.
      destruct (srv _) as [r|e] eqn:Hans; [discriminate Hcls|].
      rewrite (Hsrv _ _ Hans) in Hcls.
      destruct (isinstance_Timeout e); [discriminate Hcls|].
      destruct (isinstance_ConnectionError e); discriminate Hcls.
Qed.

(** One pass of the loop that returns has added the record of its endpoint,
    classified by the answer to its request. *)
Lemma probe_endpoint_inv srv base key endpoint method description results tr
      results1 tr1 :
  probe_endpoint srv base (probe_headers key) (endpoint, method, description)
    results tr = (inr results1, tr1) ->
  exists record logs,
    results1 = results ++ [record]
    /\ tr1 = tr ++ [ELog ("Testing " ++ method_name method ++ " "
                            ++ (base ++ endpoint))%string]
                ++ probe_request base key endpoint :: logs
    /\ List.filter is_request logs = []
    /\ pr_endpoint record = endpoint
    /\ spec_classification
         (srv (tr ++ [ELog ("Testing " ++ method_name method ++ " "
                              ++ (base ++ endpoint))%string]
                  ++ [probe_request base key endpoint]))
       = Some (pr_status record).
Proof.
  intros Hrun.
  pose proof (probe_endpoint_cases srv base key endpoint method description
                results tr) as Hcases.
  cbv zeta in Hcases. unfold spec_classification. cbn [app] in *.
  destruct (srv _) as [r|e].
  - destruct Hcases as (logs & Heq & Hlogs).
    rewrite Heq in Hrun. injection Hrun as <- <-.
    eexists; exists logs. rewrite <- app_assoc.
    repeat split; try reflexivity. exact Hlogs.
  - destruct (isinstance_Timeout e);
      [|destruct (isinstance_ConnectionError e);
        [|destruct (isinstance_Exception e)]];
      try (destruct Hcases as (logs & Heq & Hlogs);
           rewrite Heq in Hrun; injection Hrun as <- <-;
           eexists; exists logs; rewrite <- app_assoc;
           repeat split; try reflexivity; exact Hlogs).
    rewrite Hcases in Hrun. discriminate Hrun.
Qed.

(** A loop that returns has added one record for each entry, in order, and
    the record of the [i]-th entry holds the classification of the answer
    to the [i]-th request of the loop. *)
Lemma probe_loop_classifies srv base key entries :
  forall results tr results' tr',
  probe_loop srv base (probe_headers key) entries results tr
  = (inr results', tr') ->
  exists news,
    results' = results ++ news
    /\ length news = length entries
    /\ (exists evs, tr' = tr ++ evs)
    /\ forall i record entry,
        news !! i = Some record ->
        entries !! i = Some entry ->
        pr_endpoint record = entry_endpoint entry
        /\ exists o,
            nth_answer srv tr tr' i
              (probe_request base key (entry_endpoint entry)) o
            /\ spec_classification o = Some (pr_status record).
Proof.
  induction entries as [|[[endpoint method] description] rest IH];
    intros results tr results' tr' Hrun.
  - cbn in Hrun. injection Hrun as <- <-. exists [].
    rewrite !app_nil_r. split; [reflexivity|]. split; [reflexivity|].
    split; [exists []; rewrite app_nil_r; reflexivity|].
    intros i record entry Hrec. rewrite lookup_nil in Hrec.
    discriminate Hrec.
  - cbn [probe_loop] in Hrun. unfold bind in Hrun.
    destruct (probe_endpoint _ _ _ _ _ _) as [[e|results1] tr1] eqn:Hone;
      [discriminate Hrun|].
    destruct (probe_endpoint_inv _ _ _ _ _ _ _ _ _ _ Hone)
      as (record & logs & -> & -> & Hlogs & Hend & Hcls).
    destruct (IH _ _ _ _ Hrun) as (news & -> & Hlen & [evs ->] & Hall).
    exists (record :: news).
    split; [rewrite <- app_assoc; reflexivity|].
    split; [cbn [length]; rewrite Hlen; reflexivity|].
    split; [eexists; rewrite <- !app_assoc; reflexivity|].
    intros [|i] record' entry Hrec Hent.
    + cbn in Hrec, Hent. injection Hrec as <-. injection Hent as <-.
      cbn [entry_endpoint fst]. split; [exact Hend|].
      eexists. split; [|exact Hcls].
      exists [ELog ("Testing " ++ method_name method ++ " "
                      ++ (base ++ endpoint))%string], (logs ++ evs).
      split; [rewrite <- !app_assoc; reflexivity|].
      split; reflexivity.
    + cbn in Hrec, Hent.
      destruct (Hall i record' entry Hrec Hent)
        as (Hend' & o & (mid & after & Htr & Hcount & Hans) & Hcls').
      split; [exact Hend'|]. exists o. split; [|exact Hcls'].
      exists ([ELog ("Testing " ++ method_name method ++ " "
                       ++ (base ++ endpoint))%string]
                ++ probe_request base key endpoint :: logs ++ mid), after.
      split; [|split].
      * rewrite Htr, <- !app_assoc. cbn [app]. rewrite <- !app_assoc.
        reflexivity.
      * rewrite count_requests_app.
        change (probe_request base key endpoint :: logs ++ mid)
          with ([probe_request base key endpoint] ++ logs ++ mid).
        rewrite !count_requests_app, <- Hcount.
        unfold count_requests at 3. rewrite Hlogs. reflexivity.
      * rewrite <- Hans, <- !app_assoc. cbn [app]. rewrite <- !app_assoc.
        reflexivity.
Qed.

(** C6.  In every run of the probe over the eight endpoints, the record of
    each endpoint holds the classification of the answer that the remote
    side gave to the request of that endpoint: AVAILABLE for a status below
    500, ERROR from 500 on, TIMEOUT for a transport timeout, CONNECTION
    ERROR for a connection failure; the probe returns true exactly when
    every one of the eight records is AVAILABLE; and it does return
    whenever the transport raises nothing but [Exception]s. *)
Theorem probe_classification_and_verdict srv cfg base key :
  cfg_api_url cfg = Some base ->
  cfg_api_key cfg = Some key ->
  (forall endpoint method description results tr status,
      spec_classification
        (srv (tr ++ [ELog ("Testing " ++ method_name method ++ " "
                             ++ (base ++ endpoint))%string;
                     probe_request base key endpoint])) = Some status ->
      exists record tr',
        probe_endpoint srv base (probe_headers key)
          (endpoint, method, description) results tr
        = (inr (results ++ [record]), tr')
        /\ pr_endpoint record = endpoint
        /\ pr_status record = status)
  /\ (forall tr results tr1,
        probe_loop srv base (probe_headers key) endpoints []
          (tr ++ [ELog ("Testing API connection to " ++ base)%string])
        = (inr results, tr1) ->
        map pr_endpoint results = map entry_endpoint endpoints
        /\ (forall i record entry,
               results !! i = Some record ->
               endpoints !! i = Some entry ->
               pr_endpoint record = entry_endpoint entry
               /\ exists o,
                   nth_answer srv tr tr1 i
                     (probe_request base key (entry_endpoint entry)) o
                   /\ spec_classification o = Some (pr_status record)
                   /\ (is_available record = true <->
                       exists r, o = Responded r /\ status_code r < 500))
        /\ exists logs,
            test_api_endpoints srv cfg tr
            = (inr (forallb is_available results), tr1 ++ logs))
  /\ ((forall t e, srv t = Raised e -> isinstance_Exception e = true) ->
      forall tr, exists results tr1 logs,
        probe_loop srv base (probe_headers key) endpoints []
          (tr ++ [ELog ("Testing API connection to " ++ base)%string])
        = (inr results, tr1)
        /\ test_api_endpoints srv cfg tr
           = (inr (forallb is_available results), tr1 ++ logs)).
Proof.
  intros Hurl Hkey. split; [|split].
  - intros endpoint method description results tr status Hcls.
    destruct (probe_endpoint_classified _ _ _ _ _ description results _ _
                Hcls) as (record & logs & Heq & Hend & _ & Hst).
    exists record. eexists. split; [exact Heq|]. split; assumption.
  - intros tr results tr1 Hloop. split; [|split].
    + destruct (probe_loop_trace _ _ _ _ _ _ _ _ Hloop)
        as (evs & n & _ & _ & _ & Hmap).
      exact Hmap.
    + intros i record entry Hrec Hent.
      destruct (probe_loop_classifies _ _ _ _ _ _ _ _ Hloop)
        as (news & Hnews & _ & _ & Hall).
      cbn [app] in Hnews. subst news.
      destruct (Hall i record entry Hrec Hent)
        as (Hend & o & (mid & after & Htr & Hcount & Hans) & Hcls).
      split; [exact Hend|]. exists o. split; [|split; [exact Hcls|]].
      * exists (ELog ("Testing API connection to " ++ base)%string :: mid),
          after.
        split; [rewrite Htr, <- !app_assoc; reflexivity|].
        split; [exact Hcount|].
        rewrite <- Hans, <- !app_assoc. reflexivity.
      * unfold is_available. unfold spec_classification in Hcls.
        destruct o as [r|e].
        -- injection Hcls as Hst. rewrite <- Hst.
           destruct (Z.ltb_spec (status_code r) 500) as [Hlt|Hge].
           ++ split; [intros _; exists r; split; [reflexivity|exact Hlt]
                     |reflexivity].
           ++ split; [discriminate|].
              intros (r' & Hr & Hlt). injection Hr as <-. lia.
        -- assert (Hno : String.eqb (pr_status record) "AVAILABLE" = false).
           { destruct (isinstance_Timeout e);
               [|destruct (isinstance_ConnectionError e);
                 [|destruct (isinstance_Exception e); [|discriminate Hcls]]];
               injection Hcls as <-; reflexivity. }
           rewrite Hno. split; [discriminate|].
           intros (r & Hr & _). discriminate Hr.
    + destruct (summarize_total results tr1) as (logs & Hsum & _).
      exists logs.
      unfold test_api_endpoints, try_except, bind, config_key, emit.
      rewrite Hurl, Hkey. unfold ret at 1 2.
      rewrite Hloop, Hsum. reflexivity.
  - intros Hsrv tr.
    destruct (probe_loop_returns srv base key Hsrv endpoints []
                (tr ++ [ELog ("Testing API connection to " ++ base)%string]))
      as (results & tr1 & Hloop).
    destruct (summarize_total results tr1) as (logs & Hsum & _).
    exists results, tr1, logs. split; [exact Hloop|].
    unfold test_api_endpoints, try_except, bind, config_key, emit.
    rewrite Hurl, Hkey. unfold ret at 1 2.
    rewrite Hloop, Hsum. reflexivity.
Qed.

Lemma requests_are_of_filter (Q : event -> Prop) evs sent :
  List.filter is_request evs = sent ->
  Forall Q sent ->
  requests_are Q evs.
Proof.
  intros Hf HQ. unfold requests_are. apply Forall_forall. intros ev Hin Hreq.
  rewrite Forall_forall in HQ. apply HQ. subst sent.
  apply list_elem_of_In, List.filter_In. split; [|exact Hreq].
  apply list_elem_of_In. exact Hin.
Qed.

(** C7.  Whatever the remote side does, every request that the probe sends
    is an OPTIONS request without a body, never the DELETE or POST of the
    endpoint table; and a probe that returns has sent exactly the eight
    OPTIONS requests of the table, in order. *)
Theorem probe_sends_only_options srv cfg tr :
  exists res evs,
    test_api_endpoints srv cfg tr = (res, tr ++ evs)
    /\ requests_are
         (fun ev => exists url hdrs,
              ev = ERequest OPTIONS url hdrs None probe_timeout) evs
    /\ (forall base key b,
           cfg_api_url cfg = Some base ->
           cfg_api_key cfg = Some key ->
           res = inr b ->
           List.filter is_request evs
           = map (fun entry => probe_request base key (entry_endpoint entry))
               endpoints).
Proof.
  unfold test_api_endpoints, try_except, bind, config_key, emit.
  destruct (cfg_api_url cfg) as [base|];
    [|unfold raise; cbn; eexists; eexists; split; [reflexivity|];
      split; [apply requests_are_no_request; reflexivity|];
      intros base key b Hb; discriminate Hb].
  destruct (cfg_api_key cfg) as [key|];
    [|unfold raise, ret; cbn; eexists; eexists; split; [reflexivity|];
      split; [apply requests_are_no_request; reflexivity|];
      intros base' key b _ Hk; discriminate Hk].
  unfold ret at 1 2.
  destruct (probe_loop _ _ _ _ _ _) as [[e|results] tr1] eqn:Hloop;
    destruct (probe_loop_trace _ _ _ _ _ _ _ _ Hloop)
      as (evs & n & -> & Hreq & Hres).
  - cbn [handle]. rewrite Hres. unfold raise.
    exists (inl e), (ELog ("Testing API connection to " ++ base)%string :: evs).
    split; [rewrite <- app_assoc; reflexivity|]. split.
    + constructor; [intros Habs; discriminate Habs|].
      eapply requests_are_of_filter; [exact Hreq|].
      apply Forall_forall. intros ev Hin.
      apply list_elem_of_In, in_map_iff in Hin as (entry & <- & _).
      eexists; eexists; reflexivity.
    + intros base' key' b _ _ Hb. discriminate Hb.
  - destruct Hres as [-> _]. rewrite firstn_all in Hreq.
    destruct (summarize_total results
                ((tr ++ [ELog ("Testing API connection to " ++ base)%string])
                   ++ evs)) as (logs & -> & Hlogs).
    exists (inr (forallb is_available results)),
      (ELog ("Testing API connection to " ++ base)%string :: evs ++ logs).
    split; [rewrite <- !app_assoc; reflexivity|]. split.
    + constructor; [intros Habs; discriminate Habs|].
      apply requests_are_app;
        [|apply requests_are_no_request; exact Hlogs].
      eapply requests_are_of_filter; [exact Hreq|].
      apply Forall_forall. intros ev Hin.
      apply list_elem_of_In, in_map_iff in Hin as (entry & <- & _).
      eexists; eexists; reflexivity.
    + intros base' key' b Hb Hk _.
      injection Hb as <-. injection Hk as <-.
      cbn [List.filter is_request].
      rewrite filter_request_app, Hlogs, app_nil_r. exact Hreq.
Qed.

Lemma probe_classification_and_verdict_witness :
  test_api_endpoints server_users_down Scenario.cfg []
  = (inr false,
     snd (test_api_endpoints server_users_down Scenario.cfg []))
  /\ map pr_status
       (match probe_loop server_users_down "http://api" (probe_headers "key")
                endpoints [] [ELog "Testing API connection to http://api"]
        with
        | (inr results, _) => results
        | _ => []
        end)
     = ["AVAILABLE"; "AVAILABLE"; "AVAILABLE"; "AVAILABLE"; "AVAILABLE";
        "AVAILABLE"; "TIMEOUT"; "TIMEOUT"]%string.
Proof.
  destruct (probe_classification_and_verdict server_users_down Scenario.cfg
              "http://api" "key" eq_refl eq_refl) as (_ & Hverdict & _).
  destruct (probe_loop server_users_down "http://api" (probe_headers "key")
              endpoints [] ([] ++ [ELog "Testing API connection to http://api"]))
    as [[e|results] tr1] eqn:Hloop; [vm_compute in Hloop; discriminate Hloop|].
  destruct (Hverdict [] results tr1 Hloop) as (_ & _ & logs & Hrun).
  cbn [app] in Hloop. rewrite Hloop, Hrun. cbn [snd].
  vm_compute in Hloop. injection Hloop as <- <-.
  split; vm_compute; reflexivity.
Defined.

(** ** The sync run and the database connection *)

Import SyncMain.

(** When the call of [sync_data_to_api] returns, with either verdict, the
    connection is closed before the process ends. *)
Lemma returning_sync_closes_connection :
  fst (run (world_with Scenario.server_ok)) = 0
  /\ closed (snd (run (world_with Scenario.server_ok))) = true
  /\ fst (run (world_with Scenario.server_500)) = 1
  /\ closed (snd (run (world_with Scenario.server_500))) = true.
Proof. repeat split; vm_compute; reflexivity. Qed.

(** C8 (the code against the claim).  A user interrupt during a request
    leaves [sync_data_to_api] as a [KeyboardInterrupt], which skips the
    [conn.close()] of line 291: the process ends with status 1 after the
    connection was opened and without it being closed. *)
Theorem interrupt_leaves_connection_open :
  fst (run (world_with Scenario.server_interrupted)) = 1
  /\ connected (snd (run (world_with Scenario.server_interrupted))) = true
  /\ closed (snd (run (world_with Scenario.server_interrupted))) = false
  /\ skipn 15 (snd (run (world_with Scenario.server_interrupted)))
     = [EProgress 0 1;
        post_request Scenario.sync_url Scenario.payload_one_row;
        EPrint "Sync cancelled by user";
        EInput "Press Enter to close..."].
Proof. repeat split; vm_compute; reflexivity. Qed.

(** * Part III: further properties of the code *)

(** ** [chunk_data] at its edges *)

(** X1.  A chunk size of zero raises [ValueError]; a negative one yields no chunk
    at all, whatever the rows. *)
Theorem chunk_data_nonpositive_size {A : Type} (l : list A) (C : Z) :
  C <= 0 ->
  chunk_data l C
  = if C =? 0 then inl (Exn ValueError "range() arg 3 must not be zero")
    else inr [].
Proof.
  intros HC. unfold chunk_data, py_range.
  destruct (Z.eqb_spec C 0) as [->|Hne]; [reflexivity|].
  destruct (Z.ltb_spec 0 C) as [Hpos|_]; [lia|].
  replace (Z.to_nat (0 - Z.of_nat (length l))) with O by lia.
  reflexivity.
Qed.

Lemma chunk_data_nonpositive_size_witness :
  chunk_data [1; 2; 3] (-2) = inr [] /\ chunk_data [1; 2; 3] 0
  = inl (Exn ValueError "range() arg 3 must not be zero").
Proof.
  split.
  - apply (chunk_data_nonpositive_size [1; 2; 3] (-2)). lia.
  - apply (chunk_data_nonpositive_size [1; 2; 3] 0). lia.
Defined.

(** X2.  With a positive chunk size, [chunk_data] never raises, no chunk is
    empty, no chunk is longer than the chunk size, and there is no chunk
    exactly when there is no row. *)
Theorem chunk_data_chunks_bounded {A : Type} (l : list A) (C : Z) :
  0 < C ->
  exists chunks : list (list A),
    chunk_data l C = inr chunks
    /\ Forall (fun c => 0 < Z.of_nat (length c) <= C) chunks
    /\ (chunks = [] <-> l = []).
Proof.
  intros HC.
  set (N := Z.of_nat (length l)).
  pose proof (ceil_div_bounds N C HC) as [Hlo Hhi].
  pose proof (ceil_div_nonneg N C HC ltac:(lia)) as Hnn.
  set (n := Z.to_nat (ceil_div N C)).
  set (c := Z.to_nat C).
  exists (windows c n l).
  split; [apply chunk_data_windows; exact HC|]. split.
  - apply Forall_forall. intros w Hw.
    apply list_elem_of_lookup in Hw as [k Hk].
    assert (Hkn : (k < n)%nat).
    { apply lookup_lt_Some in Hk. rewrite length_windows in Hk. exact Hk. }
    rewrite lookup_windows in Hk by exact Hkn. injection Hk as <-.
    rewrite length_take, length_drop.
    assert (Z.of_nat k * C < N) by nia.
    assert (Z.of_nat (k * c) < Z.of_nat (length l)) by (fold N; nia).
    lia.
  - split.
    + intros Hnil.
      assert (Hlen : length (windows c n l) = O) by (rewrite Hnil; reflexivity).
      rewrite length_windows in Hlen.
      assert (N <= 0) by nia.
      destruct l; [reflexivity|]. cbn in N. lia.
    + intros ->. cbn in N. subst N.
      assert (n = O) as -> by (subst n; unfold ceil_div; cbn;
                               rewrite Z.div_small; lia).
      reflexivity.
Qed.

Lemma chunk_data_chunks_bounded_witness :
  0 < default_chunk_size /\
  exists chunks : list (list Z),
    chunk_data [4; 5; 6] default_chunk_size = inr chunks
    /\ (chunks = [] <-> [4; 5; 6] = []).
Proof.
  split; [reflexivity|].
  destruct (chunk_data_chunks_bounded [4; 5; 6] default_chunk_size eq_refl)
    as (chunks & Hrun & _ & Hnil).
  exists chunks. split; assumption.
Defined.

(** ** The normaliser on whole values *)

Lemma normalize_items_spec items :
  Forall (fun x =>
            if serializable x
            then exists x', normalize x = inr x' /\ json_native x' = true
            else exists e,
                normalize x = inl e
                /\ (e = not_serializable \/ e = signalling_nan)) items ->
  if forallb serializable items
  then exists items',
      normalize_items items = inr items'
      /\ forallb json_native items' = true
      /\ length items' = length items
  else exists e,
      normalize_items items = inl e
      /\ (e = not_serializable \/ e = signalling_nan).
Proof.
  induction 1 as [|x rest Hx _ IH]; cbn [forallb normalize_items].
  - exists []. repeat split; reflexivity.
  - destruct (serializable x); cbn [andb].
    + destruct Hx as (x' & -> & Hx').
      destruct (forallb serializable rest).
      * destruct IH as (rest' & -> & Hrest & Hlen).
        exists (x' :: rest'). cbn [forallb length].
        rewrite Hx', Hrest, Hlen. repeat split; reflexivity.
      * destruct IH as (e & -> & He). exists e. split; [reflexivity|exact He].
    + destruct Hx as (e & -> & He). exists e. split; [reflexivity|exact He].
Qed.

Lemma normalize_fields_spec fields :
  Forall (fun kv =>
            if serializable (snd kv)
            then exists x', normalize (snd kv) = inr x'
                            /\ json_native x' = true
            else exists e,
                normalize (snd kv) = inl e
                /\ (e = not_serializable \/ e = signalling_nan)) fields ->
  if forallb (fun kv => serializable (snd kv)) fields
  then exists fields',
      normalize_fields fields = inr fields'
      /\ forallb (fun kv => json_native (snd kv)) fields' = true
      /\ map fst fields' = map fst fields
  else exists e,
      normalize_fields fields = inl e
      /\ (e = not_serializable \/ e = signalling_nan).
Proof.
  induction 1 as [|[k x] rest Hx _ IH]; cbn [forallb normalize_fields snd] in *.
  - exists []. repeat split; reflexivity.
  - destruct (serializable x); cbn [andb].
    + destruct Hx as (x' & -> & Hx').
      destruct (forallb _ rest).
      * destruct IH as (rest' & -> & Hrest & Hkeys).
        exists ((k, x') :: rest'). cbn [forallb map fst snd].
        rewrite Hx', Hrest, Hkeys. repeat split; reflexivity.
      * destruct IH as (e & -> & He). exists e. split; [reflexivity|exact He].
    + destruct Hx as (e & -> & He). exists e. split; [reflexivity|exact He].
Qed.

Lemma normalize_cases v :
  if serializable v
  then exists v', normalize v = inr v' /\ json_native v' = true
  else exists e,
      normalize v = inl e /\ (e = not_serializable \/ e = signalling_nan).
Proof.
  induction v as [|b|z|f|s|items IH|fields IH|d|d|t|cls]
    using pyvalue_nested_ind;
    try (cbn; eexists; split; reflexivity).
  - rewrite normalize_PList. cbn [serializable].
    pose proof (normalize_items_spec items IH) as Hitems.
    destruct (forallb serializable items).
    + destruct Hitems as (items' & -> & Hnat & _).
      exists (PList items'). split; [reflexivity|exact Hnat].
    + destruct Hitems as (e & -> & He). exists e. split; [reflexivity|exact He].
  - rewrite normalize_PDict. cbn [serializable].
    pose proof (normalize_fields_spec fields IH) as Hfields.
    destruct (forallb _ fields).
    + destruct Hfields as (fields' & -> & Hnat & _).
      exists (PDict fields'). split; [reflexivity|exact Hnat].
    + destruct Hfields as (e & -> & He). exists e. split; [reflexivity|exact He].
  - cbn. destruct (is_snan d); cbn.
    + exists signalling_nan. split; [reflexivity|right; reflexivity].
    + eexists. split; reflexivity.
  - cbn. exists not_serializable. split; [reflexivity|left; reflexivity].
Qed.

(** Where an error of the encoder comes from. *)
Lemma normalize_error_origin v e :
  normalize v = inl e ->
  (e = signalling_nan -> holds_signalling_nan v = true)
  /\ (e = not_serializable -> holds_foreign_object v = true).
Proof.
  revert e.
  induction v as [|b|z|f|s|items IH|fields IH|d|d|t|cls]
    using pyvalue_nested_ind; intros e Hv;
    try (cbn in Hv; discriminate Hv).
  - rewrite normalize_PList in Hv.
    destruct (normalize_items items) as [e'|items'] eqn:Hitems;
      [injection Hv as ->|discriminate Hv].
    cbn [holds_signalling_nan holds_foreign_object].
    revert Hitems. induction IH as [|x rest Hx _ IHrest]; intros Hitems.
    + cbn in Hitems. discriminate Hitems.
    + cbn [normalize_items] in Hitems. cbn [existsb].
      destruct (normalize x) as [ex|x'] eqn:Hnx.
      * injection Hitems as ->. destruct (Hx e eq_refl) as [H1 H2].
        split; intros He; [rewrite (H1 He)|rewrite (H2 He)]; reflexivity.
      * destruct (normalize_items rest) as [er|rest'];
          [|discriminate Hitems].
        injection Hitems as ->. destruct (IHrest eq_refl) as [H1 H2].
        split; intros He; [rewrite (H1 He)|rewrite (H2 He)];
          apply orb_true_r.
  - rewrite normalize_PDict in Hv.
    destruct (normalize_fields fields) as [e'|fields'] eqn:Hfields;
      [injection Hv as ->|discriminate Hv].
    cbn [holds_signalling_nan holds_foreign_object].
    revert Hfields. induction IH as [|[k x] rest Hx _ IHrest]; intros Hfields.
    + cbn in Hfields. discriminate Hfields.
    + cbn [normalize_fields] in Hfields. cbn [existsb snd] in *.
      destruct (normalize x) as [ex|x'] eqn:Hnx.
      * injection Hfields as ->. destruct (Hx e eq_refl) as [H1 H2].
        split; intros He; [rewrite (H1 He)|rewrite (H2 He)]; reflexivity.
      * destruct (normalize_fields rest) as [er|rest'];
          [|discriminate Hfields].
        injection Hfields as ->. destruct (IHrest eq_refl) as [H1 H2].
        split; intros He; [rewrite (H1 He)|rewrite (H2 He)];
          apply orb_true_r.
  - cbn in Hv. cbn [holds_signalling_nan holds_foreign_object].
    destruct (is_snan d); [|discriminate Hv].
    injection Hv as <-. split; [reflexivity|discriminate].
  - cbn in Hv. injection Hv as <-. split; [discriminate|reflexivity].
Qed.


(** X4.  Whatever the encoder writes is made of JSON types only: no decimal,
    date, timestamp or foreign object is left anywhere in it. *)
Theorem normalize_output_is_json v v' :
  normalize v = inr v' -> json_native v' = true.
Proof.
  intros Hv. pose proof (normalize_cases v) as H.
  destruct (serializable v).
  - destruct H as (v'' & Hv'' & Hnat). congruence.
  - destruct H as (e & He & _). congruence.
Qed.

Lemma normalize_output_is_json_witness :
  json_native
    (PList [PDict [("price", PFloat float_12_5);
                   ("day", PStr "2024-03-15")]%string]) = true.
Proof.
  apply (normalize_output_is_json
           (PList [PDict [("price", PDecimal (Decimal false 1250 (-2)));
                          ("day", PDate (Date 2024 3 15))]%string])).
  reflexivity.
Defined.

(** ** The engine: what a run emits, and how it can end *)

Lemma count_sleeps_app (a b : list event) :
  count_sleeps (a ++ b) = (count_sleeps a + count_sleeps b)%nat.
Proof. unfold count_sleeps. rewrite List.filter_app, length_app. reflexivity. Qed.

Lemma normalize_error v e :
  normalize v = inl e -> e = not_serializable \/ e = signalling_nan.
Proof.
  intros H. pose proof (normalize_cases v) as Hc.
  destruct (serializable v).
  - destruct Hc as (v' & Hv & _). congruence.
  - destruct Hc as (e' & He' & Hcase). congruence.
Qed.

Lemma py_get_error d k default e :
  py_get d k default = inl e -> isinstance_Exception e = true.
Proof. destruct d; cbn; intros H; try discriminate H; injection H as <-; reflexivity. Qed.

Lemma py_first_two_error v e :
  py_first_two v = inl e -> isinstance_Exception e = true.
Proof. destruct v; cbn; intros H; try discriminate H; injection H as <-; reflexivity. Qed.

Section EngineEvents.

Variable srv : server.
Variable url : string.

Ltac run_step :=
  unfold attempt, attempt_body, try_except, bind, lift, request,
    response_json, emit, ret, raise in *;
  cbn [handle] in *.

Ltac emitted_print := right; right; reflexivity.
Ltac emitted_sleep := right; left; reflexivity.

Ltac solve_emit Hn :=
  first [ left; eexists; split; [exact Hn|reflexivity]
        | emitted_sleep
        | emitted_print ].

Ltac close_attempt Hrun Hn Hsrv :=
  cbn in Hrun; injection Hrun as <- <-; rewrite <- ?app_assoc; cbn [app];
  eexists; split; [reflexivity|];
  split; [repeat (apply List.Forall_cons; [solve_emit Hn|]); apply List.Forall_nil|];
  split; [unfold count_requests, post_request; cbn; lia|];
  split; [unfold count_sleeps, post_request; cbn; lia|];
  let e0 := fresh "e0" in
  let He0 := fresh "He0" in
  intros e0 He0;
  first [ discriminate He0
        | injection He0 as <-; split; [assumption|exact Hsrv] ].

(** One attempt: what it emits and how it can end. *)
Lemma attempt_events payload retry tr res tr' :
  attempt srv url payload retry tr = (res, tr') ->
  attempt_outcome srv url payload tr res tr'.
Proof.
  intros Hrun. unfold attempt_outcome. run_step.
  destruct (normalize payload) as [e|body] eqn:Hn.
  - assert (Hexc : isinstance_Exception e = true)
      by (destruct (normalize_error _ _ Hn) as [-> | ->]; reflexivity).
    rewrite Hexc in Hrun. cbn in Hrun.
    injection Hrun as <- <-. rewrite <- ?app_assoc. cbn [app].
    eexists. split; [reflexivity|].
    split; [repeat (apply List.Forall_cons; [solve_emit Hn|]); apply List.Forall_nil|].
    split; [cbn; lia|]. split; [cbn; lia|]. intros e0 He0. discriminate He0.
  - destruct (srv _) as [r|e] eqn:Hsrv.
    + destruct (status_code r =? 200).
      * destruct (json_body r) as [d|]; [|close_attempt Hrun Hn Hsrv].
        destruct (py_get d "success" (PBool false)) as [e|v] eqn:Hg1.
        { rewrite (py_get_error _ _ _ _ Hg1) in Hrun.
          close_attempt Hrun Hn Hsrv. }
        destruct (py_truthy v); [close_attempt Hrun Hn Hsrv|].
        destruct (py_get d "error" (PStr "Unknown error")) as [e|err] eqn:Hg2.
        { rewrite (py_get_error _ _ _ _ Hg2) in Hrun.
          close_attempt Hrun Hn Hsrv. }
        destruct (py_dict_contains d "validation_errors");
          [|close_attempt Hrun Hn Hsrv].
        destruct (py_get d "validation_errors" PNone) as [e|errs] eqn:Hg3.
        { rewrite (py_get_error _ _ _ _ Hg3) in Hrun.
          close_attempt Hrun Hn Hsrv. }
        destruct (py_first_two errs) as [e|shown] eqn:Hs;
          [|close_attempt Hrun Hn Hsrv].
        rewrite (py_first_two_error _ _ Hs) in Hrun.
        close_attempt Hrun Hn Hsrv.
      * destruct (json_body r) as [d|]; close_attempt Hrun Hn Hsrv.
    + destruct (isinstance_Exception e) eqn:Hexc;
        close_attempt Hrun Hn Hsrv.
Qed.

Lemma run_outcome_of_attempt payload tr res tr' :
  attempt_outcome srv url payload tr res tr' ->
  run_outcome srv (attempt_emits url payload) 1 1 tr res tr'.
Proof.
  intros (evs & Heq & HP & Hr & Hs & He). exists evs.
  repeat (split; [assumption|]).
  intros e Hres. destruct (He e Hres) as [Hexc Hsrv].
  split; [exact Hexc|]. eexists. exact Hsrv.
Qed.

Lemma run_outcome_nothing P tr b : run_outcome srv P 0 0 tr (inr b) tr.
Proof.
  exists []. rewrite app_nil_r. split; [reflexivity|].
  split; [constructor|]. split; [cbn; lia|]. split; [cbn; lia|].
  intros e He. discriminate He.
Qed.

Lemma run_outcome_weaken (P P' : event -> Prop) n n' s s' tr res tr' :
  (forall ev, P ev -> P' ev) ->
  (n <= n')%nat -> (s <= s')%nat ->
  run_outcome srv P n s tr res tr' ->
  run_outcome srv P' n' s' tr res tr'.
Proof.
  intros HP Hn Hs (evs & Heq & Hall & Hr & Hsl & He). exists evs.
  split; [exact Heq|].
  split; [eapply List.Forall_impl; [exact HP|exact Hall]|].
  split; [lia|]. split; [lia|exact He].
Qed.

(** A part that returned, followed by another part. *)
Lemma run_outcome_seq P n1 s1 n2 s2 tr b tr1 res tr2 :
  run_outcome srv P n1 s1 tr (inr b) tr1 ->
  run_outcome srv P n2 s2 tr1 res tr2 ->
  run_outcome srv P (n1 + n2) (s1 + s2) tr res tr2.
Proof.
  intros (evs1 & -> & H1 & Hr1 & Hs1 & _) (evs2 & -> & H2 & Hr2 & Hs2 & He).
  exists (evs1 ++ evs2). rewrite app_assoc. split; [reflexivity|].
  split; [apply Forall_app; split; assumption|].
  rewrite count_requests_app, count_sleeps_app.
  split; [lia|]. split; [lia|exact He].
Qed.

(** An event that is neither a request nor a sleep, before a part. *)
Lemma run_outcome_after_event (P : event -> Prop) n s tr ev res tr' :
  P ev -> is_request ev = false -> is_sleep ev = false ->
  run_outcome srv P n s (tr ++ [ev]) res tr' ->
  run_outcome srv P n s tr res tr'.
Proof.
  intros HP Hreq Hsl (evs & -> & Hall & Hr & Hs & He).
  exists (ev :: evs). rewrite <- app_assoc. split; [reflexivity|].
  split; [constructor; assumption|].
  unfold count_requests, count_sleeps in *. cbn [List.filter].
  rewrite Hreq, Hsl. repeat (split; [assumption|]). exact He.
Qed.

(** The same, after a part that returned. *)
Lemma run_outcome_then_event (P : event -> Prop) n s tr b tr' ev b' :
  P ev -> is_request ev = false -> is_sleep ev = false ->
  run_outcome srv P n s tr (inr b) tr' ->
  run_outcome srv P n s tr (inr b') (tr' ++ [ev]).
Proof.
  intros HP Hreq Hsl (evs & -> & Hall & Hr & Hs & _).
  exists (evs ++ [ev]). rewrite app_assoc. split; [reflexivity|].
  split; [apply Forall_app; split; [exact Hall|constructor; [exact HP|constructor]]|].
  rewrite count_requests_app, count_sleeps_app.
  unfold count_requests, count_sleeps in *. cbn [List.filter].
  rewrite Hreq, Hsl. cbn [length].
  split; [lia|]. split; [lia|]. intros e He. discriminate He.
Qed.

Lemma run_outcome_same_result (P : event -> Prop) n s tr b b' tr' :
  run_outcome srv P n s tr (inr b) tr' ->
  run_outcome srv P n s tr (inr b') tr'.
Proof.
  intros (evs & -> & Hall & Hr & Hs & _). exists evs.
  repeat (split; [first [reflexivity|assumption]|]).
  intros e He. discriminate He.
Qed.

Lemma retry_loop_events payload rs tr res tr' :
  retry_loop srv url payload rs tr = (res, tr') ->
  run_outcome srv (attempt_emits url payload) (length rs) (length rs)
    tr res tr'.
Proof.
  revert tr. induction rs as [|retry rs IH]; intros tr Hrun.
  - cbn in Hrun. injection Hrun as <- <-. apply run_outcome_nothing.
  - cbn [retry_loop] in Hrun. unfold bind in Hrun.
    destruct (attempt srv url payload retry tr) as [[e|b] tr1] eqn:Hatt;
      pose proof (run_outcome_of_attempt _ _ _ _
                    (attempt_events _ _ _ _ _ Hatt)) as H1.
    + injection Hrun as <- <-.
      eapply run_outcome_weaken; [| | |exact H1]; cbn [length]; auto; lia.
    + destruct b.
      * injection Hrun as <- <-.
        eapply run_outcome_weaken; [| | |exact H1]; cbn [length]; auto; lia.
      * exact (run_outcome_seq _ _ _ _ _ _ _ _ _ _ H1 (IH _ Hrun)).
Qed.

Variable cfg : config.

Lemma transfer_chunk_events table_name total idx chunk tr res tr' :
  transfer_chunk srv cfg url table_name total idx chunk tr = (res, tr') ->
  run_outcome srv (chunk_emits url cfg table_name total idx chunk) 3 3
    tr res tr'.
Proof.
  unfold transfer_chunk, bind, emit, ret. intros Hrun.
  assert (Hstart : chunk_emits url cfg table_name total idx chunk
                     (EProgress (idx - 1) total))
    by (right; left; reflexivity).
  assert (Hend : chunk_emits url cfg table_name total idx chunk
                   (EProgress idx total))
    by (right; right; reflexivity).
  assert (Hfailed : chunk_emits url cfg table_name total idx chunk
                      (EPrintFailed table_name))
    by (left; right; right; reflexivity).
  assert (Hweak : forall ev,
             attempt_emits url (build_payload cfg table_name chunk) ev ->
             chunk_emits url cfg table_name total idx chunk ev)
    by (intros ev Hev; left; exact Hev).
  destruct (retry_loop _ _ _ _ _) as [[e|b] tr1] eqn:Hloop.
  - injection Hrun as <- <-.
    apply (run_outcome_after_event _ _ _ _ _ _ _ Hstart eq_refl eq_refl).
    apply (run_outcome_weaken _ _ _ _ _ _ _ _ _ Hweak
             (Nat.le_refl 3) (Nat.le_refl 3)).
    exact (retry_loop_events _ _ _ _ _ Hloop).
  - pose proof (run_outcome_after_event _ _ _ _ _ _ _ Hstart eq_refl eq_refl
                  (run_outcome_weaken _ _ _ _ _ _ _ _ _ Hweak
                     (Nat.le_refl 3) (Nat.le_refl 3)
                     (retry_loop_events _ _ _ _ _ Hloop))) as H1.
    destruct b; injection Hrun as <- <-.
    + exact (run_outcome_then_event _ _ _ _ _ _ _ true Hend eq_refl eq_refl H1).
    + replace (tr1 ++ [EProgress idx total] ++ [EPrintFailed table_name])
        with ((tr1 ++ [EProgress idx total]) ++ [EPrintFailed table_name])
        by (rewrite <- app_assoc; reflexivity).
      apply (run_outcome_then_event _ _ _ _ true _ _ false Hfailed
               eq_refl eq_refl).
      exact (run_outcome_then_event _ _ _ _ _ _ _ true Hend eq_refl eq_refl H1).
Qed.

Lemma chunk_loop_events table_name total indexed tr res tr' :
  chunk_loop srv cfg url table_name total indexed tr = (res, tr') ->
  run_outcome srv
    (fun ev => exists idx chunk,
         In (idx, chunk) indexed
         /\ chunk_emits url cfg table_name total idx chunk ev)
    (3 * length indexed) (3 * length indexed) tr res tr'.
Proof.
  revert tr. induction indexed as [|[idx chunk] rest IH]; intros tr Hrun.
  - cbn in Hrun. injection Hrun as <- <-. apply run_outcome_nothing.
  - cbn [chunk_loop] in Hrun. unfold bind in Hrun.
    destruct (transfer_chunk _ _ _ _ _ _ _ _) as [[e|b] tr1] eqn:Hc;
      pose proof (transfer_chunk_events _ _ _ _ _ _ _ Hc) as H1;
      apply (run_outcome_weaken _
               (fun ev => exists idx0 chunk0,
                    In (idx0, chunk0) ((idx, chunk) :: rest)
                    /\ chunk_emits url cfg table_name total idx0 chunk0 ev)
               _ 3 _ 3) in H1; try lia;
      try (intros ev Hev; exists idx, chunk; split; [left; reflexivity|exact Hev]).
    + injection Hrun as <- <-.
      eapply run_outcome_weaken; [| | |exact H1]; cbn [length]; auto; lia.
    + destruct b.
      * pose proof (IH _ Hrun) as H2.
        apply (run_outcome_weaken _
                 (fun ev => exists idx0 chunk0,
                      In (idx0, chunk0) ((idx, chunk) :: rest)
                      /\ chunk_emits url cfg table_name total idx0 chunk0 ev)
                 _ (3 * length rest) _ (3 * length rest)) in H2; try lia;
          [|intros ev (i0 & c0 & Hin & Hev); exists i0, c0;
            split; [right; exact Hin|exact Hev]].
        pose proof (run_outcome_seq _ _ _ _ _ _ _ _ _ _ H1 H2) as H.
        eapply run_outcome_weaken; [| | |exact H]; cbn [length]; auto; lia.
      * injection Hrun as <- <-.
        eapply run_outcome_weaken; [| | |exact H1]; cbn [length]; auto; lia.
Qed.

Lemma length_enumerate1 {A : Type} (xs : list A) :
  length (enumerate1 xs) = length xs.
Proof.
  unfold enumerate1. rewrite length_zip_with, length_seq. lia.
Qed.

Lemma chunks_of_table_length data table_name rows chunks :
  data !! table_name = Some rows ->
  chunk_data rows default_chunk_size = inr chunks ->
  length chunks = chunks_of_table data table_name.
Proof.
  intros Hdata Hchunks. unfold chunks_of_table. rewrite Hdata.
  rewrite (chunk_data_windows rows default_chunk_size eq_refl) in Hchunks.
  injection Hchunks as <-. apply length_windows.
Qed.

Lemma transfer_table_events data table_index table_name tr res tr' :
  transfer_table srv cfg url data table_index table_name tr = (res, tr') ->
  run_outcome srv (table_emits url cfg data table_name)
    (3 * chunks_of_table data table_name)
    (3 * chunks_of_table data table_name) tr res tr'.
Proof.
  unfold transfer_table. intros Hrun.
  destruct (data !! table_name) as [rows|] eqn:Hdata.
  - destruct rows as [|row0 rows].
    + unfold bind, emit, ret in Hrun. injection Hrun as <- <-.
      eapply run_outcome_weaken;
        [intros ev Hev; exact Hev| | |
         apply (run_outcome_then_event _ 0 0 tr true tr _ true)];
        try lia; try reflexivity;
        [left; reflexivity|apply run_outcome_nothing].
    + unfold bind, emit, lift in Hrun.
      destruct (chunk_data (row0 :: rows) default_chunk_size)
        as [e|chunks] eqn:Hchunks.
      { rewrite (chunk_data_windows (row0 :: rows) default_chunk_size eq_refl)
          in Hchunks. discriminate Hchunks. }
      rewrite <- (chunks_of_table_length _ _ _ _ Hdata Hchunks).
      assert (Hsyncing : table_emits url cfg data table_name
                           (EPrintSyncing table_index
                              (length (row0 :: rows)) table_name))
        by (left; reflexivity).
      assert (Hsynced : table_emits url cfg data table_name
                          (EPrintSynced table_name))
        by (left; reflexivity).
      destruct (chunk_loop _ _ _ _ _ _ _) as [[e|b] tr1] eqn:Hloop;
        pose proof (chunk_loop_events _ _ _ _ _ _ Hloop) as H0;
        rewrite length_enumerate1 in H0;
        apply (run_outcome_weaken _ (table_emits url cfg data table_name)
                 _ _ _ _ _ _ _
                 (fun ev '(ex_intro _ idx (ex_intro _ chunk (conj Hin Hev))) =>
                    or_intror
                      (ex_intro _ (row0 :: rows)
                         (ex_intro _ chunks
                            (ex_intro _ idx
                               (ex_intro _ chunk
                                  (conj Hdata
                                     (conj Hchunks (conj Hin Hev))))))))
                 (Nat.le_refl _) (Nat.le_refl _)) in H0;
        apply (run_outcome_after_event _ _ _ _ _ _ _ Hsyncing
                 eq_refl eq_refl) in H0.
      * injection Hrun as <- <-. exact H0.
      * destruct b; unfold ret in Hrun; injection Hrun as <- <-.
        -- exact (run_outcome_then_event _ _ _ _ _ _ _ true Hsynced
                    eq_refl eq_refl H0).
        -- exact H0.
  - unfold ret in Hrun. injection Hrun as <- <-.
    eapply run_outcome_weaken; [| | |apply run_outcome_nothing];
      [intros ev Hev; exact Hev|lia|lia].
Qed.

Lemma table_loop_events data indexed tr res tr' :
  table_loop srv cfg url data indexed tr = (res, tr') ->
  run_outcome srv (tables_emit url cfg data (map snd indexed))
    (3 * list_sum (map (chunks_of_table data) (map snd indexed)))
    (3 * list_sum (map (chunks_of_table data) (map snd indexed)))
    tr res tr'.
Proof.
  revert tr. induction indexed as [|[idx name] rest IH]; intros tr Hrun.
  - cbn in Hrun. injection Hrun as <- <-. apply run_outcome_nothing.
  - cbn [table_loop] in Hrun. unfold bind in Hrun.
    cbn [map snd].
    change (list_sum (chunks_of_table data name
                        :: map (chunks_of_table data) (map snd rest)))
      with (chunks_of_table data name
            + list_sum (map (chunks_of_table data) (map snd rest)))%nat.
    assert (Hhead : forall ev,
               table_emits url cfg data name ev ->
               tables_emit url cfg data (name :: map snd rest) ev)
      by (intros ev Hev; exists name; split; [left; reflexivity|exact Hev]).
    assert (Htail : forall ev,
               tables_emit url cfg data (map snd rest) ev ->
               tables_emit url cfg data (name :: map snd rest) ev)
      by (intros ev (t0 & Hin & Hev); exists t0;
          split; [right; exact Hin|exact Hev]).
    destruct (transfer_table _ _ _ _ _ _ _) as [[e|b] tr1] eqn:Ht;
      pose proof (run_outcome_weaken _ _ _ _ _ _ _ _ _ Hhead
                    (Nat.le_refl _) (Nat.le_refl _)
                    (transfer_table_events _ _ _ _ _ _ Ht)) as H1.
    + injection Hrun as <- <-.
      eapply run_outcome_weaken; [| | |exact H1]; auto; lia.
    + destruct b.
      * pose proof (run_outcome_weaken _ _ _ _ _ _ _ _ _ Htail
                      (Nat.le_refl _) (Nat.le_refl _) (IH _ Hrun)) as H2.
        pose proof (run_outcome_seq _ _ _ _ _ _ _ _ _ _ H1 H2) as H.
        eapply run_outcome_weaken; [| | |exact H]; auto; lia.
      * injection Hrun as <- <-.
        eapply run_outcome_weaken; [| | |exact H1]; auto; lia.
Qed.

End EngineEvents.

(** The whole of [sync_data_to_api], when the configuration has the URL. *)
Lemma sync_data_to_api_events srv data cfg base tr res tr' :
  cfg_api_url cfg = Some base ->
  sync_data_to_api srv data cfg tr = (res, tr') ->
  run_outcome srv
    (tables_emit (base ++ "/api/sync") cfg data tables_to_sync)
    (3 * chunks_to_send data) (3 * chunks_to_send data) tr res tr'.
Proof.
  intros Hurl Hrun.
  unfold sync_data_to_api, try_except, bind, config_key in Hrun.
  rewrite Hurl in Hrun. unfold ret at 1 in Hrun.
  destruct (table_loop _ _ _ _ _ _) as [[e|b] tr1] eqn:Hloop;
    pose proof (table_loop_events _ _ _ _ _ _ _ _ Hloop) as H;
    change (map snd (enumerate1 tables_to_sync)) with tables_to_sync in H;
    fold (chunks_to_send data) in H.
  - destruct H as (evs & Heq & Hall & Hr & Hs & He).
    destruct (He e eq_refl) as [Hexc Hsrv].
    cbn [handle] in Hrun. rewrite Hexc in Hrun. unfold raise in Hrun.
    injection Hrun as <- <-. exists evs.
    repeat (split; [assumption|]). exact He.
  - injection Hrun as <- <-. exact H.
Qed.

Lemma In_zip_seq {A : Type} (l : list A) (k i : nat) (x : A) :
  In (i, x) (zip_with pair (seq k (length l)) l) ->
  (k <= i < k + length l)%nat /\ l !! (i - k)%nat = Some x.
Proof.
  revert k. induction l as [|y l IH]; intros k Hin; [destruct Hin|].
  cbn [length seq zip_with] in Hin. destruct Hin as [Heq|Hin].
  - injection Heq as <- <-. cbn [length]. split; [lia|].
    replace (k - k)%nat with O by lia. reflexivity.
  - destruct (IH _ Hin) as [Hrange Hlook]. cbn [length]. split; [lia|].
    replace (i - k)%nat with (S (i - S k)) by lia. exact Hlook.
Qed.

(** The numbers of [enumerate(xs, 1)] run from 1 to [len(xs)], each with
    its element. *)
Lemma In_enumerate1 {A : Type} (l : list A) (i : nat) (x : A) :
  In (i, x) (enumerate1 l) ->
  (1 <= i <= length l)%nat /\ In x l.
Proof.
  intros Hin. destruct (In_zip_seq l 1 i x Hin) as [Hrange Hlook].
  split; [lia|].
  apply list_elem_of_In. eapply list_elem_of_lookup_2. exact Hlook.
Qed.

Lemma is_print_not_request ev : is_print ev = true -> is_request ev = false.
Proof. destruct ev; cbn; intros H; first [reflexivity|discriminate H]. Qed.

Lemma is_print_not_sleep ev : is_print ev = true -> is_sleep ev = false.
Proof. destruct ev; cbn; intros H; first [reflexivity|discriminate H]. Qed.

Lemma is_print_not_progress ev : is_print ev = true -> is_progress ev = false.
Proof. destruct ev; cbn; intros H; first [reflexivity|discriminate H]. Qed.

(** X6.  Nothing but the data is ever sent: every request of a run is a POST to
    [<api url>/api/sync] whose body is the serialised payload of one chunk
    of the rows that [data] holds for one of the seven listed tables. *)
Theorem sync_sends_only_chunks_of_data srv data cfg base tr res tr' :
  cfg_api_url cfg = Some base ->
  sync_data_to_api srv data cfg tr = (res, tr') ->
  exists evs,
    tr' = tr ++ evs
    /\ Forall
         (fun ev =>
            is_request ev = true ->
            exists table_name rows chunks chunk body,
              In table_name tables_to_sync
              /\ data !! table_name = Some rows
              /\ chunk_data rows default_chunk_size = inr chunks
              /\ In chunk chunks
              /\ normalize (build_payload cfg table_name chunk) = inr body
              /\ ev = post_request (base ++ "/api/sync") body) evs.
Proof.
  intros Hurl Hrun.
  destruct (sync_data_to_api_events _ _ _ _ _ _ _ Hurl Hrun)
    as (evs & Heq & Hall & _).
  exists evs. split; [exact Heq|].
  eapply List.Forall_impl; [|exact Hall]. cbn beta.
  intros ev (table_name & Hin & Hev) Hreq.
  destruct Hev as [Hprint|(rows & chunks & idx & chunk & Hdata & Hchunks
                           & Hidx & Hev)].
  { rewrite (is_print_not_request _ Hprint) in Hreq. discriminate Hreq. }
  destruct Hev as [[(body & Hn & ->)|[->|Hprint]]|[->| ->]];
    try discriminate Hreq.
  - exists table_name, rows, chunks, chunk, body.
    split; [exact Hin|]. split; [exact Hdata|]. split; [exact Hchunks|].
    split; [apply (In_enumerate1 _ _ _ Hidx)|].
    split; [exact Hn|reflexivity].
  - rewrite (is_print_not_request _ Hprint) in Hreq. discriminate Hreq.
Qed.

Lemma sync_sends_only_chunks_of_data_witness :
  exists evs,
    snd (sync_data_to_api server_ok_then_500 data_one_row Scenario.cfg [])
    = [] ++ evs
    /\ Forall
         (fun ev =>
            is_request ev = true ->
            exists table_name rows chunks chunk body,
              In table_name tables_to_sync
              /\ data_one_row !! table_name = Some rows
              /\ chunk_data rows default_chunk_size = inr chunks
              /\ In chunk chunks
              /\ normalize (build_payload Scenario.cfg table_name chunk)
                 = inr body
              /\ ev = post_request ("http://api" ++ "/api/sync") body) evs.
Proof.
  apply (sync_sends_only_chunks_of_data server_ok_then_500 data_one_row
           Scenario.cfg "http://api" []
           (fst (sync_data_to_api server_ok_then_500 data_one_row
                   Scenario.cfg []))
           _ eq_refl).
  apply surjective_pairing.
Defined.

Lemma chunk_segment_of_events url cfg table_name total idx chunk evs :
  Forall (chunk_emits url cfg table_name total idx chunk) evs ->
  (count_requests evs <= 3)%nat ->
  (count_sleeps evs <= 3)%nat ->
  chunk_segment url cfg table_name (idx, chunk) evs.
Proof.
  intros Hall Hreq Hsl. split; [exact Hreq|]. split; [exact Hsl|].
  eapply List.Forall_impl; [|exact Hall]. cbn beta. cbn [snd].
  intros ev [[(body & Hn & ->)|[->|Hprint]]|[->| ->]];
    split; intros H; try discriminate H; try reflexivity.
  - exists body. split; [exact Hn|reflexivity].
  - rewrite (is_print_not_request _ Hprint) in H. discriminate H.
  - rewrite (is_print_not_sleep _ Hprint) in H. discriminate H.
Qed.

(** X8.  Retries are bounded for each chunk: what the loop over the chunks of
    a table adds to the trace is one segment for each chunk that it
    handled, in the order of the chunks; the segment of a chunk holds at
    most three requests, each carrying the payload of that chunk, and at
    most three sleeps, each the two-second backoff; a loop that ends
    normally has handled every chunk.  Over a whole run this makes at most
    three requests and three sleeps for each chunk that the data holds. *)
Theorem chunk_retries_are_bounded srv cfg :
  (forall url table_name total indexed tr res tr',
      chunk_loop srv cfg url table_name total indexed tr = (res, tr') ->
      exists segments,
        tr' = tr ++ concat segments
        /\ (length segments <= length indexed)%nat
        /\ Forall2 (chunk_segment url cfg table_name)
             (take (length segments) indexed) segments
        /\ (res = inr true -> length segments = length indexed))
  /\ (forall data base tr res tr',
         cfg_api_url cfg = Some base ->
         sync_data_to_api srv data cfg tr = (res, tr') ->
         exists evs,
           tr' = tr ++ evs
           /\ (count_requests evs <= 3 * chunks_to_send data)%nat
           /\ (count_sleeps evs <= 3 * chunks_to_send data)%nat
           /\ Forall (fun ev => is_sleep ev = true -> ev = ESleep 2) evs).
Proof.
  split.
  - intros url table_name total indexed.
    induction indexed as [|[idx chunk] rest IH]; intros tr res tr' Hrun.
    + cbn in Hrun. injection Hrun as <- <-. exists [].
      cbn [concat length take]. rewrite app_nil_r.
      split; [reflexivity|]. split; [lia|].
      split; [constructor|reflexivity].
    + cbn [chunk_loop] in Hrun. unfold bind in Hrun.
      destruct (transfer_chunk _ _ _ _ _ _ _ _) as [[e|b] tr1] eqn:Hc;
        destruct (transfer_chunk_events _ _ _ _ _ _ _ _ _ _ Hc)
          as (evs1 & -> & Hall1 & Hreq1 & Hsl1 & _);
        pose proof (chunk_segment_of_events _ _ _ _ _ _ _ Hall1 Hreq1 Hsl1)
          as Hseg.
      * injection Hrun as <- <-. exists [evs1].
        cbn [concat length take]. rewrite app_nil_r.
        split; [reflexivity|]. split; [lia|].
        split; [|discriminate].
        constructor; [exact Hseg|constructor].
      * destruct b.
        -- destruct (IH _ _ _ Hrun) as (segments & -> & Hlen & Hsegs & Hok).
           exists (evs1 :: segments). cbn [concat length take].
           split; [rewrite <- app_assoc; reflexivity|].
           split; [lia|]. split.
           ++ constructor; [exact Hseg|exact Hsegs].
           ++ intros Hres. rewrite (Hok Hres). reflexivity.
        -- injection Hrun as <- <-. exists [evs1].
           cbn [concat length take]. rewrite app_nil_r.
           split; [reflexivity|]. split; [lia|].
           split; [|discriminate].
           constructor; [exact Hseg|constructor].
  - intros data base tr res tr' Hurl Hrun.
    destruct (sync_data_to_api_events _ _ _ _ _ _ _ Hurl Hrun)
      as (evs & Heq & Hall & Hr & Hs & _).
    exists evs. repeat (split; [assumption|]).
    eapply List.Forall_impl; [|exact Hall]. cbn beta.
    intros ev (table_name & _ & Hev) Hsl.
    destruct Hev as [Hprint|(rows & chunks & idx & chunk & _ & _ & _ & Hev)].
    { rewrite (is_print_not_sleep _ Hprint) in Hsl. discriminate Hsl. }
    destruct Hev as [[(body & _ & ->)|[->|Hprint]]|[->| ->]];
      try discriminate Hsl; [reflexivity|].
    rewrite (is_print_not_sleep _ Hprint) in Hsl. discriminate Hsl.
Qed.

Lemma chunk_retries_are_bounded_witness :
  exists segments,
    snd (chunk_loop server_500 Scenario.cfg sync_url "acc_product" 2
           (enumerate1 [chunk_a; chunk_b]) [])
    = [] ++ concat segments
    /\ (length segments <= 2)%nat
    /\ Forall2 (chunk_segment sync_url Scenario.cfg "acc_product")
         (take (length segments) (enumerate1 [chunk_a; chunk_b])) segments.
Proof.
  destruct (proj1 (chunk_retries_are_bounded server_500 Scenario.cfg)
              sync_url "acc_product"%string 2%nat
              (enumerate1 [chunk_a; chunk_b]) []
              (fst (chunk_loop server_500 Scenario.cfg sync_url "acc_product"
                      2 (enumerate1 [chunk_a; chunk_b]) []))
              (snd (chunk_loop server_500 Scenario.cfg sync_url "acc_product"
                      2 (enumerate1 [chunk_a; chunk_b]) []))
              (surjective_pairing _))
    as (segments & Htr & Hlen & Hsegs & _).
  exists segments. split; [exact Htr|]. split; [exact Hlen|exact Hsegs].
Defined.

(** X9.  The progress bar is always drawn for a position inside a non-empty
    range: every progress mark of a run has a total of at least one, which
    is the number of chunks of a table of the data, and a current position
    between zero and that total. *)
Theorem sync_progress_marks_in_range srv data cfg base tr res tr' :
  cfg_api_url cfg = Some base ->
  sync_data_to_api srv data cfg tr = (res, tr') ->
  exists evs,
    tr' = tr ++ evs
    /\ Forall
         (fun ev =>
            forall current total,
              ev = EProgress current total ->
              (0 < total)%nat /\ (current <= total)%nat
              /\ exists table_name,
                  In table_name tables_to_sync
                  /\ total = chunks_of_table data table_name) evs.
Proof.
  intros Hurl Hrun.
  destruct (sync_data_to_api_events _ _ _ _ _ _ _ Hurl Hrun)
    as (evs & Heq & Hall & _).
  exists evs. split; [exact Heq|].
  eapply List.Forall_impl; [|exact Hall]. cbn beta.
  intros ev (table_name & Hin & Hev) current total ->.
  destruct Hev as [Hprint|(rows & chunks & idx & chunk & Hdata & Hchunks
                           & Hidx & Hev)]; [discriminate Hprint|].
  destruct (In_enumerate1 _ _ _ Hidx) as [Hrange _].
  pose proof (chunks_of_table_length _ _ _ _ Hdata Hchunks) as Hlen.
  destruct Hev as [[(body & _ & Heq')|[Heq'|Hprint]]|[Heq'|Heq']];
    try discriminate Heq'; try discriminate Hprint;
    injection Heq' as -> ->;
    (split; [lia|]); (split; [lia|]);
    exists table_name; (split; [exact Hin|exact Hlen]).
Qed.

Lemma sync_progress_marks_in_range_witness :
  exists evs,
    snd (sync_data_to_api server_ok data_two_chunks Scenario.cfg [])
    = [] ++ evs
    /\ Forall
         (fun ev =>
            forall current total,
              ev = EProgress current total ->
              (0 < total)%nat /\ (current <= total)%nat
              /\ exists table_name,
                  In table_name tables_to_sync
                  /\ total = chunks_of_table data_two_chunks table_name) evs.
Proof.
  apply (sync_progress_marks_in_range server_ok data_two_chunks Scenario.cfg
           "http://api" []
           (fst (sync_data_to_api server_ok data_two_chunks Scenario.cfg []))
           _ eq_refl).
  apply surjective_pairing.
Defined.

(** ** Payloads that cannot be serialised, tables without rows, and a
    remote side that accepts everything *)

Lemma serializable_payload cfg table_name chunk :
  serializable (build_payload cfg table_name chunk)
  = serializable (match cfg_target_database cfg with
                  | Some v => v
                  | None => PStr "OMEGA"
                  end)
    && forallb serializable chunk.
Proof.
  unfold build_payload. cbn [serializable forallb snd].
  rewrite andb_true_r. reflexivity.
Qed.

Lemma retry_loop_unserializable srv url payload e tr :
  normalize payload = inl e ->
  retry_loop srv url payload retries tr
  = (inr false,
     tr ++ [EPrintRetryError 1 e; ESleep 2;
            EPrintRetryError 2 e; ESleep 2;
            EPrintRetryError 3 e; ESleep 2]).
Proof.
  intros Hn.
  assert (Hexc : isinstance_Exception e = true)
    by (destruct (normalize_error _ _ Hn) as [-> | ->]; reflexivity).
  assert (Hatt : forall retry t,
             attempt srv url payload retry t
             = (inr false,
                t ++ [EPrintRetryError (retry + 1) e; ESleep 2])).
  { intros retry t.
    unfold attempt, attempt_body, try_except, bind, lift, emit, ret.
    rewrite Hn. cbn [handle]. rewrite Hexc, <- app_assoc. reflexivity. }
  unfold retries. cbn [retry_loop]. unfold bind, ret.
  rewrite !Hatt, <- !app_assoc. reflexivity.
Qed.



Lemma table_loop_no_rows srv cfg url data indexed tr :
  (forall table_name,
      In table_name (map snd indexed) ->
      data !! table_name = None \/ data !! table_name = Some []) ->
  exists evs,
    table_loop srv cfg url data indexed tr = (inr true, tr ++ evs)
    /\ Forall (fun ev => is_print ev = true) evs.
Proof.
  revert tr. induction indexed as [|[idx name] rest IH]; intros tr Hdata.
  - exists []. rewrite app_nil_r. split; [reflexivity|constructor].
  - cbn [table_loop]. unfold bind, transfer_table.
    destruct (IH (tr ++ [EPrintNoData idx name])) as (evs1 & Hrun1 & Hall1);
      [intros t Ht; apply Hdata; right; exact Ht|].
    destruct (IH tr) as (evs2 & Hrun2 & Hall2);
      [intros t Ht; apply Hdata; right; exact Ht|].
    destruct (Hdata name (or_introl eq_refl)) as [-> | ->].
    + unfold ret at 1. exists evs2. split; assumption.
    + unfold bind, emit, ret at 1. cbv beta iota. rewrite Hrun1.
      exists (EPrintNoData idx name :: evs1). rewrite <- app_assoc.
      split; [reflexivity|]. constructor; [reflexivity|exact Hall1].
Qed.

(** X11.  When none of the seven tables has a row (each is missing from [data] or
    empty), the run succeeds at once: it returns [True], sends no request
    and never sleeps, whatever the remote side is. *)
Theorem sync_without_rows_sends_nothing srv data cfg base tr :
  cfg_api_url cfg = Some base ->
  (forall table_name,
      In table_name tables_to_sync ->
      data !! table_name = None \/ data !! table_name = Some []) ->
  exists evs,
    sync_data_to_api srv data cfg tr = (inr true, tr ++ evs)
    /\ count_requests evs = 0%nat
    /\ count_sleeps evs = 0%nat
    /\ Forall (fun ev => is_print ev = true) evs.
Proof.
  intros Hurl Hdata.
  destruct (table_loop_no_rows srv cfg (base ++ "/api/sync") data
              (enumerate1 tables_to_sync) tr Hdata) as (evs & Hrun & Hall).
  exists evs.
  unfold sync_data_to_api, try_except, bind, config_key.
  rewrite Hurl. unfold ret at 1. rewrite Hrun.
  split; [reflexivity|].
  assert (Hnone : List.filter is_request evs = []
                  /\ List.filter is_sleep evs = []).
  { clear Hrun. induction Hall as [|ev evs Hev _ [IH1 IH2]];
      [split; reflexivity|].
    cbn [List.filter].
    rewrite (is_print_not_request _ Hev), (is_print_not_sleep _ Hev).
    split; assumption. }
  unfold count_requests, count_sleeps.
  destruct Hnone as [-> ->]. repeat split; [reflexivity..|exact Hall].
Qed.

Lemma sync_without_rows_sends_nothing_witness :
  exists evs,
    sync_data_to_api server_500 ∅ Scenario.cfg [] = (inr true, [] ++ evs)
    /\ count_requests evs = 0%nat
    /\ count_sleeps evs = 0%nat
    /\ Forall (fun ev => is_print ev = true) evs.
Proof.
  apply (sync_without_rows_sends_nothing server_500 ∅ Scenario.cfg
           "http://api" [] eq_refl).
  intros table_name _. left. apply lookup_empty.
Defined.

Lemma serializable_chunks rows chunks :
  forallb serializable rows = true ->
  chunk_data rows default_chunk_size = inr chunks ->
  Forall (fun c => forallb serializable c = true) chunks.
Proof.
  intros Hrows Hchunks.
  rewrite (chunk_data_windows rows default_chunk_size eq_refl) in Hchunks.
  injection Hchunks as <-. unfold windows.
  apply Forall_forall. intros c Hc.
  apply list_elem_of_In, in_map_iff in Hc as (k & <- & _).
  apply forallb_forall. intros x Hx.
  rewrite forallb_forall in Hrows. apply Hrows.
  apply list_elem_of_In. apply list_elem_of_In in Hx.
  eapply subseteq_drop, subseteq_take. exact Hx.
Qed.

Section Accepted.

Variable srv : server.
Variable url : string.
Variable cfg : config.

Hypothesis Haccepts : always_accepts srv.
Hypothesis Hlabel :
  match cfg_target_database cfg with
  | Some v => serializable v = true
  | None => True
  end.

Lemma transfer_chunk_accepted table_name total idx chunk tr :
  forallb serializable chunk = true ->
  exists body,
    transfer_chunk srv cfg url table_name total idx chunk tr
    = (inr true,
       tr ++ [EProgress (idx - 1) total; post_request url body;
              EProgress idx total]).
Proof.
  intros Hchunk.
  assert (Hser : serializable (build_payload cfg table_name chunk) = true).
  { rewrite serializable_payload, Hchunk, andb_true_r.
    destruct (cfg_target_database cfg); [exact Hlabel|reflexivity]. }
  pose proof (normalize_cases (build_payload cfg table_name chunk)) as Hn.
  rewrite Hser in Hn. destruct Hn as (body & Hn & _).
  exists body.
  destruct (Haccepts ((tr ++ [EProgress (idx - 1) total])
                        ++ [post_request url body]))
    as (r & d & v & Hsrv & Hst & Hj & Hget & Hv).
  unfold transfer_chunk, bind, emit, ret, retries. cbn [retry_loop].
  unfold bind.
  rewrite (attempt_success _ _ _ _ _ _ _ _ _ Hn Hsrv Hst Hj Hget Hv).
  unfold ret. rewrite <- !app_assoc. reflexivity.
Qed.

Lemma chunk_loop_accepted table_name total indexed tr :
  Forall (fun ic => forallb serializable (snd ic) = true) indexed ->
  exists evs,
    chunk_loop srv cfg url table_name total indexed tr = (inr true, tr ++ evs)
    /\ count_requests evs = length indexed
    /\ count_sleeps evs = 0%nat.
Proof.
  intros Hall. revert tr.
  induction Hall as [|[idx chunk] rest Hchunk _ IH]; intros tr.
  - exists []. rewrite app_nil_r. repeat split; reflexivity.
  - cbn [chunk_loop]. unfold bind. cbn [snd] in Hchunk.
    destruct (transfer_chunk_accepted table_name total idx chunk tr Hchunk)
      as (body & ->).
    destruct (IH (tr ++ [EProgress (idx - 1) total; post_request url body;
                         EProgress idx total]))
      as (evs & -> & Hr & Hs).
    eexists. split; [rewrite <- app_assoc; reflexivity|].
    rewrite count_requests_app, count_sleeps_app, Hr, Hs.
    split; reflexivity.
Qed.

Lemma transfer_table_accepted data table_index table_name tr :
  (forall t rows, data !! t = Some rows -> forallb serializable rows = true) ->
  exists evs,
    transfer_table srv cfg url data table_index table_name tr
    = (inr true, tr ++ evs)
    /\ count_requests evs = chunks_of_table data table_name
    /\ count_sleeps evs = 0%nat.
Proof.
  intros Hrows. unfold transfer_table.
  destruct (data !! table_name) as [rows|] eqn:Hdata.
  - destruct rows as [|row0 rows].
    + unfold bind, emit, ret. eexists. split; [reflexivity|].
      unfold chunks_of_table. rewrite Hdata. split; reflexivity.
    + unfold bind, emit, lift.
      destruct (chunk_data (row0 :: rows) default_chunk_size)
        as [e|chunks] eqn:Hchunks.
      { rewrite (chunk_data_windows (row0 :: rows) default_chunk_size eq_refl)
          in Hchunks. discriminate Hchunks. }
      assert (Hall : Forall (fun ic => forallb serializable (snd ic) = true)
                       (enumerate1 chunks)).
      { pose proof (serializable_chunks _ _ (Hrows _ _ Hdata) Hchunks) as Hc.
        rewrite Forall_forall in Hc.
        apply Forall_forall. intros [idx chunk] Hin. cbn [snd].
        apply Hc, list_elem_of_In.
        apply list_elem_of_In in Hin. apply (In_enumerate1 _ _ _ Hin). }
      destruct (chunk_loop_accepted table_name (length chunks)
                  (enumerate1 chunks)
                  (tr ++ [EPrintSyncing table_index (length (row0 :: rows))
                            table_name]) Hall)
        as (evs & -> & Hr & Hs).
      unfold ret. eexists. split; [rewrite <- !app_assoc; reflexivity|].
      cbn [app]. unfold count_requests, count_sleeps in *.
      cbn [List.filter is_request is_sleep].
      rewrite !List.filter_app, !length_app, Hr, Hs, length_enumerate1.
      rewrite (chunks_of_table_length _ _ _ _ Hdata Hchunks).
      cbn. split; lia.
  - unfold ret. exists []. rewrite app_nil_r. split; [reflexivity|].
    unfold chunks_of_table. rewrite Hdata. split; reflexivity.
Qed.

Lemma table_loop_accepted data indexed tr :
  (forall t rows, data !! t = Some rows -> forallb serializable rows = true) ->
  exists evs,
    table_loop srv cfg url data indexed tr = (inr true, tr ++ evs)
    /\ count_requests evs
       = list_sum (map (chunks_of_table data) (map snd indexed))
    /\ count_sleeps evs = 0%nat.
Proof.
  intros Hrows. revert tr.
  induction indexed as [|[idx name] rest IH]; intros tr.
  - exists []. rewrite app_nil_r. repeat split; reflexivity.
  - cbn [table_loop]. unfold bind.
    destruct (transfer_table_accepted data idx name tr Hrows)
      as (evs1 & -> & Hr1 & Hs1).
    destruct (IH (tr ++ evs1)) as (evs2 & -> & Hr2 & Hs2).
    exists (evs1 ++ evs2). rewrite app_assoc. split; [reflexivity|].
    rewrite count_requests_app, count_sleeps_app, Hr1, Hr2, Hs1, Hs2.
    split; reflexivity.
Qed.

End Accepted.

(** X12.  With a remote side that accepts every request and rows that can all be
    serialised, the run returns [True] after exactly one request for each
    chunk of the listed tables and without a single sleep. *)
Theorem sync_all_accepted srv data cfg base tr :
  cfg_api_url cfg = Some base ->
  always_accepts srv ->
  all_serializable cfg data ->
  exists evs,
    sync_data_to_api srv data cfg tr = (inr true, tr ++ evs)
    /\ count_requests evs = chunks_to_send data
    /\ count_sleeps evs = 0%nat.
Proof.
  intros Hurl Hsrv [Hrows Hlabel].
  destruct (table_loop_accepted srv (base ++ "/api/sync") cfg Hsrv Hlabel
              data (enumerate1 tables_to_sync) tr Hrows)
    as (evs & Hrun & Hr & Hs).
  exists evs.
  unfold sync_data_to_api, try_except, bind, config_key.
  rewrite Hurl. unfold ret at 1. rewrite Hrun.
  split; [reflexivity|]. split; [exact Hr|exact Hs].
Qed.

Lemma sync_all_accepted_witness :
  exists evs,
    sync_data_to_api server_ok data_two_chunks Scenario.cfg []
    = (inr true, [] ++ evs)
    /\ count_requests evs = chunks_to_send data_two_chunks
    /\ count_sleeps evs = 0%nat.
Proof.
  apply (sync_all_accepted server_ok data_two_chunks Scenario.cfg
           "http://api" [] eq_refl).
  - intros t. exists (Response 200 (Some success_body) ""), success_body,
      (PBool true). repeat split; reflexivity.
  - split; [|exact I].
    intros table_name rows Hrows.
    unfold data_two_chunks in Hrows.
    destruct (decide (table_name = "acc_product"%string)) as [->|Hne1].
    + rewrite lookup_insert_eq in Hrows. injection Hrows as <-.
      vm_compute. reflexivity.
    + rewrite lookup_insert_ne in Hrows by congruence.
      destruct (decide (table_name = "acc_invmast"%string)) as [->|Hne2].
      * rewrite lookup_singleton_eq in Hrows. injection Hrows as <-.
        reflexivity.
      * rewrite lookup_singleton_ne in Hrows by congruence.
        discriminate Hrows.
Defined.

(** X13.  A run whose configuration has no API URL fails at once: the [KeyError]
    is caught by the outer handler, [False] is returned, and nothing is
    sent, whatever the data and the remote side. *)
Theorem sync_without_url_fails_at_once srv data cfg tr :
  cfg_api_url cfg = None ->
  exists e,
    sync_data_to_api srv data cfg tr = (inr false, tr ++ [EPrintSyncError e])
    /\ exn_cls e = KeyError.
Proof.
  intros Hurl. eexists.
  unfold sync_data_to_api, try_except, bind, config_key.
  rewrite Hurl. cbn. split; reflexivity.
Qed.

Lemma sync_without_url_fails_at_once_witness :
  exists e,
    sync_data_to_api server_ok data_one_row
      (Config None None None None None None) []
    = (inr false, [] ++ [EPrintSyncError e])
    /\ exn_cls e = KeyError.
Proof.
  apply (sync_without_url_fails_at_once server_ok data_one_row
           (Config None None None None None None) [] eq_refl).
Defined.

(** ** The progress bar *)

Lemma length_cells c n : Z.of_nat (length (cells c n)) = Z.max n 0.
Proof. unfold cells. rewrite repeat_length. lia. Qed.




(** ** The sync run: start-up failures *)

(** X16.  A configuration file that is missing or is not JSON ends the run with
    status 1 after the error line and the prompt: no connection is opened,
    no query is run, nothing is sent. *)
Theorem config_error_stops_the_run (w : world) (e : exn) :
  w_config w = inl e ->
  isinstance_FileNotFoundError e || isinstance_JSONDecodeError e = true ->
  exists line,
    run w
    = (1, [EPrint "OMEGA DATABASE SYNC TOOL";
           EPrint "Loading configuration file...";
           EPrint line;
           EInput "Press Enter to exit..."]).
Proof.
  intros Hcfg Hcls.
  unfold run, main, load_config, try_except, bind, emit, lift, sys_exit, raise.
  rewrite Hcfg. destruct e as [cls msg].
  destruct cls; cbn in Hcls; try discriminate Hcls;
    cbn; eexists; reflexivity.
Qed.

Lemma config_error_stops_the_run_witness :
  exists line,
    run (World (inl (Exn FileNotFoundError "config.json")) None
           (fun _ => inr []) server_ok)
    = (1, [EPrint "OMEGA DATABASE SYNC TOOL";
           EPrint "Loading configuration file...";
           EPrint line;
           EInput "Press Enter to exit..."]).
Proof.
  apply (config_error_stops_the_run
           (World (inl (Exn FileNotFoundError "config.json")) None
              (fun _ => inr []) server_ok)
           (Exn FileNotFoundError "config.json")); reflexivity.
Defined.

(** X17.  When the database section of the configuration lacks a key, or when
    connecting raises anything but [SystemExit], the run ends with status 1
    and has neither opened a connection, nor run a query, nor sent a
    request. *)
Theorem no_connection_stops_the_run (w : world) (cfg : config) :
  w_config w = inr cfg ->
  (cfg_dsn cfg = None \/ cfg_username cfg = None \/ cfg_password cfg = None
   \/ exists e, w_connect w = Some e
                /\ forall code, exn_cls e <> SystemExit code) ->
  fst (run w) = 1
  /\ connected (snd (run w)) = false
  /\ List.filter is_query (snd (run w)) = []
  /\ count_requests (snd (run w)) = 0%nat.
Proof.
  intros Hcfg Hfail.
  unfold run, main, load_config, connect_to_database, try_except, bind, emit,
    lift, sys_exit, raise, config_key, ret.
  rewrite Hcfg. cbn [handle].
  destruct (cfg_dsn cfg) as [dsn|]; [|cbn; repeat split; reflexivity].
  destruct (cfg_username cfg) as [user|]; [|cbn; repeat split; reflexivity].
  destruct (cfg_password cfg) as [pw|]; [|cbn; repeat split; reflexivity].
  destruct Hfail as [H|[H|[H|(e & Hconn & Hcls)]]]; try discriminate H.
  rewrite Hconn. destruct e as [cls msg]. cbn [exn_cls] in Hcls.
  destruct cls; cbn; try (repeat split; reflexivity).
  exfalso. exact (Hcls code eq_refl).
Qed.

Lemma no_connection_stops_the_run_witness :
  fst (run (World (inr Scenario.cfg)
              (Some (Exn PyodbcError "login failed"))
              (fun _ => inr []) server_ok)) = 1
  /\ connected (snd (run (World (inr Scenario.cfg)
                            (Some (Exn PyodbcError "login failed"))
                            (fun _ => inr []) server_ok))) = false
  /\ List.filter is_query
       (snd (run (World (inr Scenario.cfg)
                    (Some (Exn PyodbcError "login failed"))
                    (fun _ => inr []) server_ok))) = []
  /\ count_requests
       (snd (run (World (inr Scenario.cfg)
                    (Some (Exn PyodbcError "login failed"))
                    (fun _ => inr []) server_ok))) = 0%nat.
Proof.
  apply (no_connection_stops_the_run
           (World (inr Scenario.cfg) (Some (Exn PyodbcError "login failed"))
              (fun _ => inr []) server_ok)
           Scenario.cfg eq_refl).
  right; right; right. eexists. split; [reflexivity|].
  intros code Habs. discriminate Habs.
Defined.

(** ** The sync run: fetching, and the end of the run *)

Lemma execute_query_returns w query tr :
  database_errors_only w ->
  exists evs,
    execute_query w query tr
    = (inr (query_rows w query), tr ++ EQuery query :: evs)
    /\ List.filter is_query evs = []
    /\ List.filter is_request evs = [].
Proof.
  intros Hdb. unfold execute_query, try_except, bind, emit, lift, query_rows.
  destruct (w_query w query) as [e|rows] eqn:Hq.
  - cbn [handle]. rewrite (Hdb _ _ Hq). unfold ret.
    eexists. split; [rewrite <- app_assoc; reflexivity|].
    split; reflexivity.
  - exists []. repeat split; reflexivity.
Qed.

Lemma fetch_loop_returns w ts data tr :
  database_errors_only w ->
  exists evs,
    fetch_loop w ts data tr = (inr (fetched w ts data), tr ++ evs)
    /\ List.filter is_query evs = map (fun t => EQuery (snd t)) ts
    /\ List.filter is_request evs = [].
Proof.
  intros Hdb. revert data tr.
  induction ts as [|[name query] rest IH]; intros data tr.
  - exists []. rewrite app_nil_r. repeat split; reflexivity.
  - cbn [fetch_loop fetched foldl fst snd]. unfold bind.
    destruct (execute_query_returns w query tr Hdb)
      as (evs1 & -> & Hq1 & Hr1).
    destruct (IH (<[name := query_rows w query]> data)
                (tr ++ EQuery query :: evs1)) as (evs2 & -> & Hq & Hr).
    exists ((EQuery query :: evs1) ++ evs2). rewrite app_assoc.
    split; [reflexivity|].
    rewrite !List.filter_app. cbn [List.filter is_query is_request map snd].
    rewrite Hq1, Hr1, Hq, Hr. split; reflexivity.
Qed.

Lemma fetched_other w ts data name :
  ~ In name (map fst ts) -> fetched w ts data !! name = data !! name.
Proof.
  revert data. induction ts as [|[n q] rest IH]; intros data Hnot.
  - reflexivity.
  - cbn [fetched foldl fst snd]. cbn [map fst] in Hnot.
    fold (fetched w rest (<[n := query_rows w q]> data)).
    rewrite IH by (intros Hin; apply Hnot; right; exact Hin).
    apply lookup_insert_ne. intros ->. apply Hnot. left. reflexivity.
Qed.

Lemma fetched_lookup w ts data name query :
  List.NoDup (map fst ts) ->
  In (name, query) ts ->
  fetched w ts data !! name = Some (query_rows w query).
Proof.
  revert data. induction ts as [|[n q] rest IH]; intros data Hnd Hin;
    [destruct Hin|].
  cbn [map fst] in Hnd. apply List.NoDup_cons_iff in Hnd as [Hfresh Hnd].
  cbn [fetched foldl fst snd].
  fold (fetched w rest (<[n := query_rows w q]> data)).
  destruct Hin as [Heq|Hin].
  - injection Heq as -> ->.
    rewrite fetched_other by exact Hfresh. apply lookup_insert_eq.
  - apply IH; assumption.
Qed.

Lemma tables_NoDup : List.NoDup (map fst tables).
Proof.
  repeat (apply List.NoDup_cons;
          [cbn; intros H; repeat (destruct H as [H|H]; [discriminate H|]);
           exact H|]).
  apply List.NoDup_nil.
Qed.

(** X18.  As long as the database fails only with its own error class,
    [fetch_data] returns: it runs the seven queries in the order of the
    table list and sends nothing, and the dict it returns holds every table:
    the rows of the query, or no row at all when the query failed, a failed
    query being indistinguishable from an empty table. *)
Theorem fetch_data_holds_every_table (w : world) (tr : list event) :
  database_errors_only w ->
  exists data evs,
    fetch_data w tr = (inr data, tr ++ evs)
    /\ (forall name query,
           In (name, query) tables ->
           data !! name = Some (query_rows w query))
    /\ (forall name, In name tables_to_sync -> is_Some (data !! name))
    /\ List.filter is_query evs = map (fun t => EQuery (snd t)) tables
    /\ count_requests evs = 0%nat.
Proof.
  intros Hdb. unfold fetch_data, bind, emit.
  destruct (fetch_loop_returns w tables ∅
              (tr ++ [EPrint "FETCHING DATA FROM DATABASE"]) Hdb)
    as (evs & -> & Hq & Hr).
  exists (fetched w tables ∅), (EPrint "FETCHING DATA FROM DATABASE" :: evs).
  split; [rewrite <- app_assoc; reflexivity|].
  assert (Hlook : forall name query,
             In (name, query) tables ->
             fetched w tables ∅ !! name = Some (query_rows w query))
    by (intros name query; apply fetched_lookup, tables_NoDup).
  split; [exact Hlook|]. split; [|split].
  - intros name Hin.
    change tables_to_sync with (map fst tables) in Hin.
    apply in_map_iff in Hin as ([n q] & <- & Hin). cbn [fst].
    rewrite (Hlook _ _ Hin). eexists. reflexivity.
  - cbn [List.filter is_query]. exact Hq.
  - unfold count_requests. cbn [List.filter is_request]. rewrite Hr.
    reflexivity.
Qed.

Lemma fetch_data_holds_every_table_witness :
  exists data evs,
    fetch_data
      (World (inr Scenario.cfg) None
         (fun _ => inl (Exn PyodbcError "table not found")) server_ok) []
    = (inr data, [] ++ evs)
    /\ (forall name, In name tables_to_sync -> is_Some (data !! name)).
Proof.
  destruct (fetch_data_holds_every_table
              (World (inr Scenario.cfg) None
                 (fun _ => inl (Exn PyodbcError "table not found")) server_ok)
              [])
    as (data & evs & Hrun & _ & Hall & _).
  - intros query e He. cbn in He. injection He as <-. reflexivity.
  - exists data, evs. split; assumption.
Defined.

Lemma sync_data_to_api_returns srv data cfg tr :
  transport_errors_only srv ->
  exists b tr', sync_data_to_api srv data cfg tr = (inr b, tr').
Proof.
  intros Hsrv.
  destruct (sync_data_to_api srv data cfg tr) as [[e|b] tr'] eqn:Hrun;
    [|exists b, tr'; reflexivity].
  destruct (cfg_api_url cfg) as [base|] eqn:Hurl.
  - destruct (sync_data_to_api_events _ _ _ _ _ _ _ Hurl Hrun)
      as (evs & _ & _ & _ & _ & He).
    destruct (He e eq_refl) as [Hexc [t Ht]].
    rewrite (Hsrv _ _ Ht) in Hexc. discriminate Hexc.
  - unfold sync_data_to_api, try_except, bind, config_key in Hrun.
    rewrite Hurl in Hrun. cbn in Hrun. discriminate Hrun.
Qed.

(** X19.  When the configuration loads, the database connects and fails only with
    its own errors, and the transport raises only [Exception]s, the run
    fetches, syncs, closes the connection and only then ends: with status 0
    when [sync_data_to_api] returned [True] and with status 1 when it
    returned [False]. *)
Theorem run_closes_and_reports (w : world) (cfg : config)
        (dsn user pw : string) :
  w_config w = inr cfg ->
  cfg_dsn cfg = Some dsn ->
  cfg_username cfg = Some user ->
  cfg_password cfg = Some pw ->
  w_connect w = None ->
  database_errors_only w ->
  transport_errors_only (w_server w) ->
  exists data tr1 success tr2,
    fetch_data w
      (startup_trace ("DSN=" ++ dsn ++ ";UID=" ++ user ++ ";PWD=" ++ pw))
    = (inr data, tr1)
    /\ sync_data_to_api (w_server w) data cfg tr1 = (inr success, tr2)
    /\ run w = (if success then 0 else 1, tr2 ++ shutdown_trace success)
    /\ closed (snd (run w)) = true.
Proof.
  intros Hcfg Hdsn Huser Hpw Hconn Hdb Hsrv.
  set (tr0 := startup_trace ("DSN=" ++ dsn ++ ";UID=" ++ user ++ ";PWD=" ++ pw)).
  destruct (fetch_loop_returns w tables ∅
              (tr0 ++ [EPrint "FETCHING DATA FROM DATABASE"]) Hdb)
    as (evs & Hfetch & _).
  assert (Hfetch' : fetch_data w tr0
                    = (inr (fetched w tables ∅),
                       (tr0 ++ [EPrint "FETCHING DATA FROM DATABASE"]) ++ evs)).
  { unfold fetch_data, bind, emit. rewrite Hfetch. reflexivity. }
  destruct (sync_data_to_api_returns (w_server w) (fetched w tables ∅) cfg
              ((tr0 ++ [EPrint "FETCHING DATA FROM DATABASE"]) ++ evs) Hsrv)
    as (success & tr2 & Hsync).
  assert (Hrun : run w
                 = (if success then 0 else 1, tr2 ++ shutdown_trace success)).
  { unfold run, main, load_config, connect_to_database, try_except, bind,
      emit, lift, config_key, ret.
    rewrite Hcfg, Hdsn, Huser, Hpw, Hconn. cbn [app].
    change [EPrint "OMEGA DATABASE SYNC TOOL";
            EPrint "Loading configuration file...";
            EPrint "Configuration loaded successfully";
            EPrint "Connecting to database...";
            EConnect ("DSN=" ++ dsn ++ ";UID=" ++ user ++ ";PWD=" ++ pw);
            EPrint "Database connection successful!"] with tr0.
    rewrite Hfetch', Hsync.
    destruct success; cbn; rewrite <- ?app_assoc; reflexivity. }
  exists (fetched w tables ∅),
    ((tr0 ++ [EPrint "FETCHING DATA FROM DATABASE"]) ++ evs), success, tr2.
  split; [exact Hfetch'|]. split; [exact Hsync|]. split; [exact Hrun|].
  rewrite Hrun. cbn [snd]. unfold closed.
  rewrite existsb_app. unfold shutdown_trace. cbn [app existsb].
  apply orb_true_r.
Qed.

Lemma run_closes_and_reports_witness :
  exists data tr1 success tr2,
    fetch_data (world_with server_500)
      (startup_trace ("DSN=" ++ "omega" ++ ";UID=" ++ "dba" ++ ";PWD=" ++ "sql"))
    = (inr data, tr1)
    /\ sync_data_to_api (w_server (world_with server_500)) data Scenario.cfg
         tr1 = (inr success, tr2)
    /\ run (world_with server_500)
       = (if success then 0 else 1, tr2 ++ shutdown_trace success)
    /\ closed (snd (run (world_with server_500))) = true.
Proof.
  apply (run_closes_and_reports (world_with server_500) Scenario.cfg
           "omega" "dba" "sql" eq_refl eq_refl eq_refl eq_refl eq_refl).
  - intros query e He. discriminate He.
  - intros t e He. discriminate He.
Defined.

(** ** The diagnostics probe and its run *)

(** X20.  Without an API URL or without an API key in the configuration the probe
    gives up before the first endpoint: the [KeyError] is caught, [False] is
    returned and no request is sent. *)
Theorem probe_without_credentials srv cfg tr :
  cfg_api_url cfg = None \/ cfg_api_key cfg = None ->
  test_api_endpoints srv cfg tr
  = (inr false, tr ++ [ELog "API diagnostics failed"]).
Proof.
  intros Hmissing.
  unfold test_api_endpoints, try_except, bind, config_key, emit.
  destruct (cfg_api_url cfg) as [base|]; [|reflexivity].
  destruct Hmissing as [H|H]; [discriminate H|].
  rewrite H. reflexivity.
Qed.

Lemma probe_without_credentials_witness :
  test_api_endpoints server_up
    (Config (Some "http://api") None None None None None) []
  = (inr false, [] ++ [ELog "API diagnostics failed"]).
Proof.
  apply (probe_without_credentials server_up
           (Config (Some "http://api") None None None None None) []).
  right. reflexivity.
Defined.

(** X21.  With a configuration that loads and has the URL and the key, and a
    transport that raises only [Exception]s, the diagnostics run probes the
    eight endpoints, waits for Enter and exits with status 0 exactly when
    every endpoint is AVAILABLE, and with status 1 otherwise. *)
Theorem diagnostics_exit_status (w : DiagnosticsMain.world) (cfg : config)
        (base key : string) :
  DiagnosticsMain.w_config w = inr cfg ->
  cfg_api_url cfg = Some base ->
  cfg_api_key cfg = Some key ->
  transport_errors_only (DiagnosticsMain.w_server w) ->
  exists results tr1 logs,
    probe_loop (DiagnosticsMain.w_server w) base (probe_headers key)
      endpoints []
      [ELog "Starting API diagnostics...";
       ELog ("Testing API connection to " ++ base)%string]
    = (inr results, tr1)
    /\ map pr_endpoint results = map entry_endpoint endpoints
    /\ DiagnosticsMain.run w
       = (inr (if forallb is_available results then 0 else 1),
          tr1 ++ logs ++ [ELog "Press Enter to exit..."; EInput ""])
    /\ List.filter is_request logs = [].
Proof.
  intros Hcfg Hurl Hkey Hsrv.
  destruct (probe_loop_returns (DiagnosticsMain.w_server w) base key Hsrv
              endpoints []
              [ELog "Starting API diagnostics...";
               ELog ("Testing API connection to " ++ base)%string])
    as (results & tr1 & Hloop).
  destruct (summarize_total results tr1) as (logs & Hsum & Hlogs).
  destruct (probe_loop_trace _ _ _ _ _ _ _ _ Hloop)
    as (evs & n & _ & _ & _ & Hmap).
  exists results, tr1.
  assert (Htest : test_api_endpoints (DiagnosticsMain.w_server w) cfg
                    [ELog "Starting API diagnostics..."]
                  = (inr (forallb is_available results), tr1 ++ logs)).
  { unfold test_api_endpoints, try_except, bind, config_key, emit.
    rewrite Hurl, Hkey. unfold ret at 1 2. cbn [app].
    rewrite Hloop, Hsum. reflexivity. }
  destruct (forallb is_available results) eqn:Hall.
  - exists (logs ++ [ELog "Diagnostics completed successfully. All endpoints seem to be working."]).
    split; [exact Hloop|]. split; [exact Hmap|]. split.
    + unfold DiagnosticsMain.run, DiagnosticsMain.main,
        DiagnosticsMain.load_config, try_except, bind, emit, lift, ret.
      rewrite Hcfg. cbn [app]. rewrite Htest.
      rewrite <- !app_assoc. reflexivity.
    + rewrite List.filter_app, Hlogs. reflexivity.
  - exists (logs ++ [ELog "Diagnostics completed with warnings or errors. Please review the log."]).
    split; [exact Hloop|]. split; [exact Hmap|]. split.
    + unfold DiagnosticsMain.run, DiagnosticsMain.main,
        DiagnosticsMain.load_config, try_except, bind, emit, lift, ret.
      rewrite Hcfg. cbn [app]. rewrite Htest.
      rewrite <- !app_assoc. reflexivity.
    + rewrite List.filter_app, Hlogs. reflexivity.
Qed.

Lemma diagnostics_exit_status_witness :
  exists results tr1 logs,
    probe_loop server_users_down "http://api" (probe_headers "key")
      endpoints []
      [ELog "Starting API diagnostics...";
       ELog ("Testing API connection to " ++ "http://api")%string]
    = (inr results, tr1)
    /\ map pr_endpoint results = map entry_endpoint endpoints
    /\ DiagnosticsMain.run
         (DiagnosticsMain.World (inr Scenario.cfg) server_users_down)
       = (inr (if forallb is_available results then 0 else 1),
          tr1 ++ logs ++ [ELog "Press Enter to exit..."; EInput ""])
    /\ List.filter is_request logs = [].
Proof.
  apply (diagnostics_exit_status
           (DiagnosticsMain.World (inr Scenario.cfg) server_users_down)
           Scenario.cfg "http://api" "key" eq_refl eq_refl eq_refl).
  intros t e He. unfold DiagnosticsMain.w_server, server_users_down in He.
  destruct (Nat.leb (count_requests t) 6); [discriminate He|].
  injection He as <-. reflexivity.
Defined.

(** X22.  A configuration file that is missing or is not JSON ends the
    diagnostics with status 1 at once: nothing is probed, and the run does
    not wait for Enter. *)
Theorem diagnostics_config_error (w : DiagnosticsMain.world) (e : exn) :
  DiagnosticsMain.w_config w = inl e ->
  SyncMain.isinstance_FileNotFoundError e
  || SyncMain.isinstance_JSONDecodeError e = true ->
  exists line,
    DiagnosticsMain.run w
    = (inr 1, [ELog "Starting API diagnostics..."; ELog line]).
Proof.
  intros Hcfg Hcls.
  unfold DiagnosticsMain.run, DiagnosticsMain.main,
    DiagnosticsMain.load_config, try_except, bind, emit, lift,
    SyncMain.sys_exit, raise.
  rewrite Hcfg. destruct e as [cls msg].
  destruct cls; cbn in Hcls; try discriminate Hcls;
    cbn; eexists; reflexivity.
Qed.

Lemma diagnostics_config_error_witness :
  exists line,
    DiagnosticsMain.run
      (DiagnosticsMain.World (inl (Exn JSONDecodeError "Expecting value"))
         server_up)
    = (inr 1, [ELog "Starting API diagnostics..."; ELog line]).
Proof.
  apply (diagnostics_config_error
           (DiagnosticsMain.World (inl (Exn JSONDecodeError "Expecting value"))
              server_up)
           (Exn JSONDecodeError "Expecting value")); reflexivity.
Defined.

(** ** Single attempts: the other answers *)

(** X23.  An answer with a status other than 200 fails the attempt after the
    retry line, the details of the answer (its JSON, or the first 200
    characters of its text) and the two-second sleep; when every answer is
    of that kind the chunk fails after exactly three requests and three
    sleeps. *)
Theorem http_error_is_retried_after_backoff srv url payload body :
  normalize payload = inr body ->
  (forall t, exists r, srv t = Responded r /\ status_code r <> 200) ->
  (forall retry tr, exists r,
      srv (tr ++ [post_request url body]) = Responded r
      /\ attempt srv url payload retry tr
         = (inr false,
            tr ++ [post_request url body;
                   EPrintRetryStatus (retry + 1) (status_code r);
                   match json_body r with
                   | Some error_data => EPrintErrorDetails error_data
                   | None => EPrintResponseText (str_take 200 (text r))
                   end;
                   ESleep 2]))
  /\ (forall tr, exists evs,
         retry_loop srv url payload retries tr = (inr false, tr ++ evs)
         /\ count_requests evs = 3%nat
         /\ count_sleeps evs = 3%nat).
Proof.
  intros Hn Hsrv.
  assert (Hatt : forall retry tr, exists r,
             srv (tr ++ [post_request url body]) = Responded r
             /\ attempt srv url payload retry tr
                = (inr false,
                   tr ++ [post_request url body;
                          EPrintRetryStatus (retry + 1) (status_code r);
                          match json_body r with
                          | Some error_data => EPrintErrorDetails error_data
                          | None =>
                              EPrintResponseText (str_take 200 (text r))
                          end;
                          ESleep 2])).
  { intros retry tr.
    destruct (Hsrv (tr ++ [post_request url body])) as (r & Hans & Hst).
    exists r. split; [exact Hans|].
    apply attempt_http_error; assumption. }
  split; [exact Hatt|].
  intros tr. unfold retries. cbn [retry_loop]. unfold bind, ret.
  destruct (Hatt 0 tr) as (r1 & _ & ->).
  destruct (Hatt 1 (tr ++ [post_request url body;
                           EPrintRetryStatus (0 + 1) (status_code r1);
                           match json_body r1 with
                           | Some error_data => EPrintErrorDetails error_data
                           | None =>
                               EPrintResponseText (str_take 200 (text r1))
                           end;
                           ESleep 2])) as (r2 & _ & ->).
  match goal with
  | |- context [attempt srv url payload 2 ?t] =>
      destruct (Hatt 2 t) as (r3 & _ & ->)
  end.
  eexists. split; [rewrite <- !app_assoc; reflexivity|].
  unfold count_requests, count_sleeps, post_request.
  destruct (json_body r1), (json_body r2), (json_body r3);
    split; reflexivity.
Qed.

Lemma http_error_is_retried_after_backoff_witness :
  exists evs,
    retry_loop server_500 sync_url payload_one_row retries []
    = (inr false, [] ++ evs)
    /\ count_requests evs = 3%nat
    /\ count_sleeps evs = 3%nat.
Proof.
  refine (proj2 (http_error_is_retried_after_backoff server_500 sync_url
                   payload_one_row payload_one_row eq_refl _) []).
  intros t. eexists. split; [reflexivity|]. cbn. discriminate.
Defined.

(** X24.  An answer with status 200 whose JSON is not an object (a list, a
    string, a number, ...) fails the attempt: reading [success] raises an
    [AttributeError], which the handler prints before it sleeps. *)
Theorem non_object_body_is_failed_attempt srv url payload body retry tr r d :
  normalize payload = inr body ->
  srv (tr ++ [post_request url body]) = Responded r ->
  status_code r = 200 ->
  json_body r = Some d ->
  (forall fields, d <> PDict fields) ->
  exists e,
    attempt srv url payload retry tr
    = (inr false,
       tr ++ [post_request url body; EPrintRetryError (retry + 1) e;
              ESleep 2])
    /\ exn_cls e = AttributeError.
Proof.
  intros Hn Hsrv Hst Hj Hd.
  unfold attempt, attempt_body, try_except, bind, lift, request,
    response_json, emit, ret, raise, post_request in *.
  rewrite Hn, Hsrv, Hst, Hj.
  destruct d; try (cbn; eexists; split;
                   [rewrite <- !app_assoc; reflexivity|reflexivity]).
  exfalso. exact (Hd fields eq_refl).
Qed.

Lemma non_object_body_is_failed_attempt_witness :
  exists e,
    attempt (fun _ => Responded (Response 200 (Some (PList [])) "[]"))
      sync_url payload_one_row 0 []
    = (inr false,
       [] ++ [post_request sync_url payload_one_row;
              EPrintRetryError (0 + 1) e; ESleep 2])
    /\ exn_cls e = AttributeError.
Proof.
  apply (non_object_body_is_failed_attempt
           (fun _ => Responded (Response 200 (Some (PList [])) "[]"))
           sync_url payload_one_row payload_one_row 0 []
           (Response 200 (Some (PList [])) "[]") (PList [])
           eq_refl eq_refl eq_refl eq_refl).
  intros fields Habs. discriminate Habs.
Defined.
